(** * OSSEC configuration manager: the active-response editor

    A shallow embedding of [ossec_config_manager/ossec_config.py] and
    [ossec_config_manager/active_response.py].

    - Python [str] values are Rocq strings; a character is a code point
      below 256 and is classified the way CPython classifies it.
    - An [xml.etree.ElementTree.Element] is a tag, an optional text and
      the ordered list of its children.  Attributes and tails are never
      read or written by the functions embedded here.
    - The identity of an element inside the document is its path from the
      synthetic root (the list of child indices).
    - A method of the manager is a function from the manager's state (the
      document and what has been printed so far) to an outcome: a returned
      value or a raised exception, each with the state it leaves behind. *)

From Stdlib Require Import ZArith Ascii NArith Lia DecimalString.
From stdpp Require Import base list strings gmap.

Local Open Scope Z_scope.

(** ** Python strings *)

Module PyStr.

Definition code (c : ascii) : N := N_of_ascii c.

(** [str.isspace] on one character: TAB..CR, FS..US, space, NEL, NBSP. *)
Definition isspace_char (c : ascii) : bool :=
  let n := code c in
  ((9 <=? n) && (n <=? 13) || (28 <=? n) && (n <=? 32)
   || (n =? 133) || (n =? 160))%N.

(** [str.isdigit] on one character: 0..9 and the superscripts 2, 3, 1. *)
Definition isdigit_char (c : ascii) : bool :=
  let n := code c in
  ((48 <=? n) && (n <=? 57) || (n =? 178) || (n =? 179) || (n =? 185))%N.

Definition is_empty (s : string) : bool :=
  match s with EmptyString => true | String _ _ => false end.

Fixpoint all_chars (p : ascii -> bool) (s : string) : bool :=
  match s with
  | EmptyString => true
  | String c s' => p c && all_chars p s'
  end.

(** [s.isdigit()]: at least one character, and all of them digits. *)
Definition isdigit (s : string) : bool :=
  negb (is_empty s) && all_chars isdigit_char s.

(** [s.split(sep)] for a one-character separator. *)
Fixpoint split (sep : ascii) (s : string) : list string :=
  match s with
  | EmptyString => [EmptyString]
  | String c s' =>
      if Ascii.eqb c sep then EmptyString :: split sep s'
      else match split sep s' with
           | [] => [String c EmptyString]
           | g :: gs => String c g :: gs
           end
  end.

Fixpoint lstrip (s : string) : string :=
  match s with
  | EmptyString => EmptyString
  | String c s' => if isspace_char c then lstrip s' else s
  end.

Fixpoint rstrip (s : string) : string :=
  match s with
  | EmptyString => EmptyString
  | String c s' =>
      match rstrip s' with
      | EmptyString => if isspace_char c then EmptyString else String c EmptyString
      | r => String c r
      end
  end.

(** [s.strip()] *)
Definition strip (s : string) : string := rstrip (lstrip s).

(** [s.endswith(suffix)] *)
Fixpoint endswith (s suffix : string) : bool :=
  String.eqb s suffix
  || match s with
     | EmptyString => false
     | String _ s' => endswith s' suffix
     end.

(** [str(n)] for an integer. *)
Definition str_of_int (n : Z) : string := NilZero.string_of_int (Z.to_int n).

End PyStr.

(** ** Element trees *)

#[warnings="-register-all"]
Inductive Element : Type :=
  Elem (tag : string) (text : option string) (children : list Element).

Definition tag (e : Element) : string := let 'Elem t _ _ := e in t.
Definition text (e : Element) : option string := let 'Elem _ x _ := e in x.
Definition children (e : Element) : list Element := let 'Elem _ _ cs := e in cs.

(** The position of an element below the root: child indices, outermost
    first.  Two references denote the same Python object exactly when
    their paths are equal. *)
Definition path := list nat.

Definition under (i : nat) (pe : path * Element) : path * Element :=
  (i :: pe.1, pe.2).

(** [e.iter()] without [e] itself: every descendant in document order,
    with its position. *)
Fixpoint descendants (e : Element) : list (path * Element) :=
  match e with
  | Elem _ _ cs =>
      (fix go (i : nat) (l : list Element) {struct l} : list (path * Element) :=
         match l with
         | [] => []
         | c :: l' => ([i], c) :: map (under i) (descendants c) ++ go (S i) l'
         end) 0%nat cs
  end.

(** The inner loop of [descendants], for the children from index [i] on. *)
Fixpoint descendants_from (i : nat) (l : list Element) : list (path * Element) :=
  match l with
  | [] => []
  | c :: l' => ([i], c) :: map (under i) (descendants c) ++ descendants_from (S i) l'
  end.

Definition has_tag (t : string) (e : Element) : bool := String.eqb (tag e) t.

(** [e.findall('.//t')] *)
Definition findall_desc (t : string) (e : Element) : list (path * Element) :=
  filter (fun pe => has_tag t pe.2 = true) (descendants e).

Fixpoint children_from (t : string) (i : nat) (l : list Element) : list (nat * Element) :=
  match l with
  | [] => []
  | c :: l' =>
      if has_tag t c then (i, c) :: children_from t (S i) l'
      else children_from t (S i) l'
  end.

(** [e.findall('t')]: the direct children named [t], with their index. *)
Definition findall (t : string) (e : Element) : list (nat * Element) :=
  children_from t 0 (children e).

(** [e.find('t')]: the first direct child named [t]. *)
Definition find (t : string) (e : Element) : option (nat * Element) :=
  head (findall t e).

Fixpoint get_at (p : path) (e : Element) : option Element :=
  match p with
  | [] => Some e
  | i :: p' => match children e !! i with
               | Some c => get_at p' c
               | None => None
               end
  end.

(** In-place mutation of the element at a position. *)
Fixpoint modify_at (f : Element -> Element) (p : path) (e : Element) : Element :=
  match p with
  | [] => f e
  | i :: p' => Elem (tag e) (text e) (alter (modify_at f p') i (children e))
  end.

Definition set_text (v : string) (e : Element) : Element :=
  Elem (tag e) (Some v) (children e).

(** [parent.append(c)] *)
Definition append (c : Element) (parent : Element) : Element :=
  Elem (tag parent) (text parent) (children parent ++ [c]).

(** [parent.remove(c)] for the child at index [i]. *)
Definition remove_child (i : nat) (parent : Element) : Element :=
  Elem (tag parent) (text parent) (delete i (children parent)).

(** ** The manager's state and its methods *)

Inductive exn : Type :=
| ValueError (msg : string)
| TypeError (msg : string)
| AttributeError (msg : string).

(** [root] is [self.root]; [stdout] collects what [print] wrote, oldest
    line first. *)
Record state : Type := State { root : Element; stdout : list string }.

Inductive outcome (A : Type) : Type :=
| Return (a : A) (s : state)
| Raise (e : exn) (s : state).
Arguments Return {A} a s.
Arguments Raise {A} e s.

Definition M (A : Type) : Type := state -> outcome A.

Definition ret {A} (a : A) : M A := fun s => Return a s.
Definition raise {A} (e : exn) : M A := fun s => Raise e s.
Definition bind {A B} (m : M A) (k : A -> M B) : M B :=
  fun s => match m s with
           | Return a s' => k a s'
           | Raise e s' => Raise e s'
           end.

Declare Scope M_scope.
Delimit Scope M_scope with M.
Bind Scope M_scope with M.
Notation "x ← m ; k" := (bind m (fun x => k))
  (at level 20, m at level 100, k at level 200, only parsing) : M_scope.
Notation "m ;; k" := (bind m (fun _ => k))
  (at level 100, k at level 200, only parsing, right associativity) : M_scope.
Local Open Scope M_scope.

Definition get_root : M Element := fun s => Return (root s) s.
Definition update_root (f : Element -> Element) : M unit :=
  fun s => Return tt (State (f (root s)) (stdout s)).
Definition print (line : string) : M unit :=
  fun s => Return tt (State (root s) (stdout s ++ [line])).

(** [ET.SubElement(parent, t)] for the parent at position [p]: the new
    empty element becomes the last child; its position is returned. *)
Definition SubElement (p : path) (t : string) : M path :=
  r ← get_root;
  match get_at p r with
  | Some parent =>
      update_root (modify_at (append (Elem t None [])) p);;
      ret (p ++ [length (children parent)])
  | None => raise (TypeError "SubElement() argument 1 must be xml.etree.ElementTree.Element, not None")
  end.

(** [elem.text = v] for the element at position [p]. *)
Definition assign_text (p : path) (v : string) : M unit :=
  update_root (modify_at (set_text v) p).

(** [self.root.remove(x)] where [x] is the element at position [p]: only
    a direct child of the root can be removed. *)
Definition root_remove (p : path) : M unit :=
  r ← get_root;
  match p with
  | [i] => if decide (i < length (children r))%nat
           then update_root (remove_child i)
           else raise (ValueError "list.remove(x): x not in list")
  | _ => raise (ValueError "list.remove(x): x not in list")
  end.

(** A [for] loop whose body neither breaks nor returns. *)
Fixpoint for_each {A} (l : list A) (body : A -> M unit) : M unit :=
  match l with
  | [] => ret tt
  | x :: l' => body x;; for_each l' body
  end.

(** *** Values of an update mapping

    The values of an [updates] dictionary are integers or strings; the
    dictionary itself is the list of its items in insertion order. *)

Inductive pyval : Type :=
| VInt (n : Z)
| VStr (s : string).

(** [str(v)] *)
Definition py_str (v : pyval) : string :=
  match v with
  | VInt n => PyStr.str_of_int n
  | VStr s => s
  end.

(** [f"{x}"] for an optional string. *)
Definition fmt (x : option string) : string :=
  match x with Some s => s | None => "None" end.

Module PyInt.

(** The blanks [int] skips around a literal. *)
Definition blank (c : ascii) : bool :=
  let n := PyStr.code c in
  ((9 <=? n) && (n <=? 13) || (n =? 32) || (n =? 133) || (n =? 160))%N.

Fixpoint lskip (s : string) : string :=
  match s with
  | EmptyString => EmptyString
  | String c s' => if blank c then lskip s' else s
  end.

Fixpoint rskip (s : string) : string :=
  match s with
  | EmptyString => EmptyString
  | String c s' =>
      match rskip s' with
      | EmptyString => if blank c then EmptyString else String c EmptyString
      | r => String c r
      end
  end.

Definition decimal (c : ascii) : option Z :=
  let n := PyStr.code c in
  if ((48 <=? n) && (n <=? 57))%N then Some (Z.of_N n - 48) else None.

(** Decimal digits, single underscores allowed between two digits. *)
Fixpoint digits (acc : Z) (after_digit : bool) (s : string) : option Z :=
  match s with
  | EmptyString => if after_digit then Some acc else None
  | String c s' =>
      match decimal c with
      | Some d => digits (10 * acc + d) true s'
      | None =>
          if Ascii.eqb c "_" && after_digit then digits acc false s' else None
      end
  end.

Definition parse (s : string) : option Z :=
  match rskip (lskip s) with
  | String "-" s' => Z.opp <$> digits 0 false s'
  | String "+" s' => digits 0 false s'
  | s' => digits 0 false s'
  end.

End PyInt.

(** [int(v)]; the exception's message carries no copy of the literal
    here. *)
Definition py_int (v : pyval) : M Z :=
  match v with
  | VInt n => ret n
  | VStr s =>
      match PyInt.parse s with
      | Some n => ret n
      | None => raise (ValueError "invalid literal for int() with base 10")
      end
  end.

(** ** OSSECConfigManager *)

(** The loop of [organize_ossec_config] over the extra blocks.  [extras]
    holds the indices the blocks had when [findall] ran; every block
    removed so far was an earlier sibling, so the next one now sits
    [removed] places to the left. *)
Fixpoint combine_extras (primary : nat) (extras : list nat) (removed : nat) : M unit :=
  match extras with
  | [] => ret tt
  | i :: rest =>
      r ← get_root;
      match children r !! (i - removed)%nat with
      | Some extra_ossec_config =>
          for_each (children extra_ossec_config)
            (fun child => update_root (modify_at (append child) [primary]));;
          root_remove [(i - removed)%nat];;
          combine_extras primary rest (S removed)
      | None => raise (ValueError "list.remove(x): x not in list")
      end
  end.

Definition organize_ossec_config : M unit :=
  r ← get_root;
  let ossec_config_elements := findall "ossec_config" r in
  if decide (1 < length ossec_config_elements)%nat then
    match ossec_config_elements with
    | primary_ossec_config :: extras =>
        combine_extras primary_ossec_config.1 extras.*1 0;;
        print "All ossec_config blocks have been combined into the first one."
    | [] => ret tt
    end
  else print "No extra ossec_config blocks to combine.".

(** [integration.find(t).text if integration.find(t) is not None else None] *)
Definition child_text (t : string) (e : Element) : option string :=
  match find t e with
  | Some (_, c) => text c
  | None => None
  end.

Definition remove_integration (name : string) (hook_url : option string) : M bool :=
  r ← get_root;
  match List.find
          (fun pe => bool_decide (child_text "name" pe.2 = Some name)
                     && match hook_url with
                        | None => true
                        | Some _ => bool_decide (child_text "hook_url" pe.2 = hook_url)
                        end)
          (findall_desc "integration" r) with
  | Some (integration, _) =>
      root_remove integration;;
      print ("Integration with name '" +:+ name +:+ "' and hook_url '"
             +:+ fmt hook_url +:+ "' has been removed.");;
      ret true
  | None =>
      print ("No integration found with name '" +:+ name +:+ "' and hook_url '"
             +:+ fmt hook_url +:+ "'.");;
      ret false
  end.

(** ** ActiveResponseManager *)

(** The values of [LocationType]. *)
Definition LocationType_values : list string :=
  ["local"; "server"; "defined-agent"; "all"].

Definition _validate_rules_group (rules_group : string) : bool :=
  if PyStr.is_empty rules_group then false
  else forallb (fun group => PyStr.endswith (PyStr.strip group) ",")
               (PyStr.split "|" rules_group).

Definition _validate_rules_id (rules_id : string) : bool :=
  if PyStr.is_empty rules_id then false
  else forallb (fun id => PyStr.isdigit (PyStr.strip id))
               (PyStr.split "," rules_id).

Definition _validate_level (level : Z) : bool :=
  (1 <=? level) && (level <=? 16).

(** [x.find(t) is not None and x.find(t).text == v], the test every lookup
    by name makes; [v] is [None] when the caller passes an absent text. *)
Definition child_text_is (t : string) (v : option string) (e : Element) : bool :=
  match find t e with
  | Some (_, c) => bool_decide (text c = v)
  | None => false
  end.

(** The mapping [get_commands] and [get_active_responses] build from one
    element: a later child with the same tag overwrites an earlier one. *)
Definition element_info (e : Element) : gmap string (option string) :=
  foldl (fun info element => <[tag element := text element]> info) ∅ (children e).

Definition command_exists (name : option string) : M bool :=
  r ← get_root;
  match List.find (fun pe => child_text_is "name" name pe.2)
                  (findall_desc "command" r) with
  | Some _ => ret true
  | None => ret false
  end.

Fixpoint _validate_commands_loop (active_responses : list (path * Element)) : M unit :=
  match active_responses with
  | [] => ret tt
  | ar :: rest =>
      match find "command" ar.2 with
      | Some (_, command) =>
          known ← command_exists (text command);
          if known then _validate_commands_loop rest
          else raise (ValueError ("Command '" +:+ fmt (text command)
                        +:+ "' referenced in active response does not exist"))
      | None => _validate_commands_loop rest
      end
  end.

Definition _validate_commands : M unit :=
  r ← get_root;
  _validate_commands_loop (findall_desc "active-response" r).

(** [ActiveResponseManager.__init__], from the parsed, wrapped document on. *)
Definition init : M unit :=
  organize_ossec_config;;
  _validate_commands.

Definition get_commands : M (list (gmap string (option string))) :=
  r ← get_root;
  ret (map (fun pe => element_info pe.2) (findall_desc "command" r)).

Definition get_active_responses : M (list (gmap string (option string))) :=
  r ← get_root;
  ret (map (fun pe => element_info pe.2) (findall_desc "active-response" r)).

(** [ET.SubElement(self.root.find('ossec_config'), t)] and its like: the
    parent is [None] when the lookup found nothing. *)
Definition SubElement_of (parent : option path) (t : string) : M path :=
  match parent with
  | Some p => SubElement p t
  | None => raise (TypeError "SubElement() argument 1 must be xml.etree.ElementTree.Element, not None")
  end.

Definition find_path (t : string) : M (option path) :=
  r ← get_root;
  ret ((fun ie : nat * Element => [ie.1]) <$> find t r).

Definition add_command (name executable : string) (timeout_allowed : bool) : M bool :=
  taken ← command_exists (Some name);
  if taken then
    print ("Command '" +:+ name +:+ "' already exists.");;
    ret false
  else
    ossec_config ← find_path "ossec_config";
    new_command ← SubElement_of ossec_config "command";
    name_elem ← SubElement new_command "name";
    assign_text name_elem name;;
    exec_elem ← SubElement new_command "executable";
    assign_text exec_elem executable;;
    timeout_elem ← SubElement new_command "timeout_allowed";
    assign_text timeout_elem (if timeout_allowed then "yes" else "no");;
    print ("New command '" +:+ name +:+ "' has been added.");;
    ret true.

(** The body shared by the update loops: set the text of the child named
    [t] of the element at [p], creating the child when there is none.  The
    keys of an update mapping are plain tag names. *)
Definition write_child (p : path) (t : string) (v : string) : M unit :=
  r ← get_root;
  match get_at p r with
  | Some e =>
      match find t e with
      | Some (i, _) => assign_text (p ++ [i]) v
      | None => new_element ← SubElement p t; assign_text new_element v
      end
  | None => raise (AttributeError "'NoneType' object has no attribute 'find'")
  end.

Definition update_command (name : string) (updates : list (string * pyval)) : M bool :=
  r ← get_root;
  match List.find (fun pe => child_text_is "name" (Some name) pe.2)
                  (findall_desc "command" r) with
  | Some (command, _) =>
      for_each updates (fun item => write_child command item.1 (py_str item.2));;
      print ("Command '" +:+ name +:+ "' has been updated.");;
      ret true
  | None =>
      print ("No command found with name '" +:+ name +:+ "'.");;
      ret false
  end.

Definition remove_command (name : string) : M bool :=
  r ← get_root;
  match List.find (fun pe => child_text_is "name" (Some name) pe.2)
                  (findall_desc "command" r) with
  | Some (command, _) =>
      root_remove command;;
      print ("Command '" +:+ name +:+ "' has been removed.");;
      ret true
  | None =>
      print ("No command found with name '" +:+ name +:+ "'.");;
      ret false
  end.

(** [if x is not None: leaf = ET.SubElement(node, t); leaf.text = x] *)
Definition add_optional (node : path) (t : string) (x : option string) : M unit :=
  match x with
  | Some v => leaf ← SubElement node t; assign_text leaf v
  | None => ret tt
  end.

Definition add_active_response
    (command location : string) (level timeout : option Z)
    (agent_id rules_group rules_id : option string) : M bool :=
  known ← command_exists (Some command);
  if negb known then
    print ("Command '" +:+ command +:+ "' does not exist.");;
    ret false
  else if negb (bool_decide (location ∈ LocationType_values)) then
    print ("Invalid location type '" +:+ location +:+ "'.");;
    ret false
  else if bool_decide (location = "defined-agent")
          && match agent_id with None => true | Some a => PyStr.is_empty a end then
    print "Agent ID is required for defined-agent location.";;
    ret false
  else if match level with Some l => negb (_validate_level l) | None => false end then
    print ("Invalid level value: " +:+ fmt (PyStr.str_of_int <$> level)
           +:+ ". Must be between 1 and 16.");;
    ret false
  else if match rules_group with
          | Some g => negb (_validate_rules_group g) | None => false end then
    print "Invalid rules group format. Groups must end with comma and be pipe-separated.";;
    ret false
  else if match rules_id with
          | Some i => negb (_validate_rules_id i) | None => false end then
    print "Invalid rules ID format. IDs must be numeric and comma-separated.";;
    ret false
  else
    ossec_config ← find_path "ossec_config";
    new_ar ← SubElement_of ossec_config "active-response";
    command_elem ← SubElement new_ar "command";
    assign_text command_elem command;;
    location_elem ← SubElement new_ar "location";
    assign_text location_elem location;;
    add_optional new_ar "level" (PyStr.str_of_int <$> level);;
    add_optional new_ar "timeout" (PyStr.str_of_int <$> timeout);;
    add_optional new_ar "agent_id" agent_id;;
    add_optional new_ar "rules_group" rules_group;;
    add_optional new_ar "rules_id" rules_id;;
    print ("New active response for command '" +:+ command +:+ "' has been added.");;
    ret true.

(** [_validate_rules_group] and [_validate_rules_id] on a value of an
    update mapping: a zero is falsy and rejected at the first test, any
    other integer has no [split]. *)
Definition on_string (validate : string -> bool) (v : pyval) : M bool :=
  match v with
  | VStr s => ret (validate s)
  | VInt n => if decide (n = 0) then ret false
              else raise (AttributeError "'int' object has no attribute 'split'")
  end.

(** [tag == t and not check(value)], with the conjunction's short cut. *)
Definition fails (t : string) (check : M bool) (tag : string) : M bool :=
  if String.eqb tag t then ok ← check; ret (negb ok) else ret false.

(** The loop of [update_active_response] over the items of [updates];
    [false] is the early [return False]. *)
Fixpoint apply_updates (ar : path) (updates : list (string * pyval)) : M bool :=
  match updates with
  | [] => ret true
  | (tag, value) :: rest =>
      bad ← fails "level" (n ← py_int value; ret (_validate_level n)) tag;
      if bad then
        print ("Invalid level value: " +:+ py_str value
               +:+ ". Must be between 1 and 16.");;
        ret false
      else
        bad ← fails "rules_group" (on_string _validate_rules_group value) tag;
        if bad then
          print "Invalid rules group format. Groups must end with comma and be pipe-separated.";;
          ret false
        else
          bad ← fails "rules_id" (on_string _validate_rules_id value) tag;
          if bad then
            print "Invalid rules ID format. IDs must be numeric and comma-separated.";;
            ret false
          else
            write_child ar tag (py_str value);;
            apply_updates ar rest
  end.

Definition update_active_response (command : string) (updates : list (string * pyval)) : M bool :=
  r ← get_root;
  match List.find (fun pe => child_text_is "command" (Some command) pe.2)
                  (findall_desc "active-response" r) with
  | Some (ar, _) =>
      completed ← apply_updates ar updates;
      if completed then
        print ("Active response for command '" +:+ command +:+ "' has been updated.");;
        ret true
      else ret false
  | None =>
      print ("No active response found for command '" +:+ command +:+ "'.");;
      ret false
  end.

Definition remove_active_response (command : string) : M bool :=
  r ← get_root;
  match List.find (fun pe => child_text_is "command" (Some command) pe.2)
                  (findall_desc "active-response" r) with
  | Some (ar, _) =>
      root_remove ar;;
      print ("Active response for command '" +:+ command +:+ "' has been removed.");;
      ret true
  | None =>
      print ("No active response found for command '" +:+ command +:+ "'.");;
      ret false
  end.

Definition active_response_exists (command : string) : M bool :=
  r ← get_root;
  match List.find (fun pe => child_text_is "command" (Some command) pe.2)
                  (findall_desc "active-response" r) with
  | Some _ => ret true
  | None => ret false
  end.

(** ** The validation rules as the specification words them *)

(** The segments [parts] put back together around the separator. *)
Fixpoint join (sep : ascii) (parts : list string) : string :=
  match parts with
  | [] => EmptyString
  | [g] => g
  | g :: gs => g +:+ String sep (join sep gs)
  end.

(** The character [c] occurs in [s]. *)
Fixpoint contains (c : ascii) (s : string) : bool :=
  match s with
  | EmptyString => false
  | String d s' => Ascii.eqb d c || contains c s'
  end.

(** [segs] are the [sep]-separated segments of [s]. *)
Definition segments_of (sep : ascii) (s : string) (segs : list string) : Prop :=
  segs ≠ [] ∧ join sep segs = s
  ∧ ∀ g, g ∈ segs → contains sep g = false.

Definition blank_string (s : string) : Prop :=
  PyStr.all_chars PyStr.isspace_char s = true.

(** [core] is [g] without its surrounding whitespace. *)
Definition trimmed_to (g core : string) : Prop :=
  ∃ l r, g = l +:+ core +:+ r ∧ blank_string l ∧ blank_string r
    ∧ (∀ c rest, core = String c rest → PyStr.isspace_char c = false)
    ∧ (∀ init c, core = init +:+ String c EmptyString → PyStr.isspace_char c = false).

Definition ends_with_comma (core : string) : Prop :=
  ∃ p, core = p +:+ ",".

(** Every character of [core] is a digit (nothing is asked of an empty
    [core]). *)
Definition only_digits (core : string) : Prop :=
  PyStr.all_chars PyStr.isdigit_char core = true.

Definition rules_group_rule (s : string) : Prop :=
  s ≠ EmptyString
  ∧ ∃ segs, segments_of "|" s segs
      ∧ ∀ g, g ∈ segs → ∃ core, trimmed_to g core ∧ ends_with_comma core.

(** The rule for rule ids, read to the letter: a segment that trims to
    nothing consists of digits only. *)
Definition rules_id_rule_as_worded (s : string) : Prop :=
  s ≠ EmptyString
  ∧ ∃ segs, segments_of "," s segs
      ∧ ∀ g, g ∈ segs → ∃ core, trimmed_to g core ∧ only_digits core.

(** The rule for rule ids with the segments required to hold a digit. *)
Definition rules_id_rule (s : string) : Prop :=
  s ≠ EmptyString
  ∧ ∃ segs, segments_of "," s segs
      ∧ ∀ g, g ∈ segs →
          ∃ core, trimmed_to g core ∧ core ≠ EmptyString ∧ only_digits core.

(** ** Auxiliary notions for the statements about the document *)

(** [e] with the elements [cs] appended to its children. *)
Definition extend (cs : list Element) (e : Element) : Element :=
  Elem (tag e) (text e) (children e ++ cs).

Definition is_container (e : Element) : Prop := has_tag "ossec_config" e = true.
Definition not_container (e : Element) : Prop := has_tag "ossec_config" e = false.

(** [e] lies strictly below [r]. *)
Definition inside (e r : Element) : Prop :=
  ∃ p, p ≠ [] ∧ get_at p r = Some e.

(** Some [command] element of the document has a [name] child, and the
    first such child carries the text [name]. *)
Definition names_command (r : Element) (name : option string) : Prop :=
  ∃ p c, (p, c) ∈ findall_desc "command" r ∧ child_text_is "name" name c = true.

(** Some [active-response] element of the document has a [command] child,
    and the first such child carries the text [command]. *)
Definition has_active_response (r : Element) (command : option string) : Prop :=
  ∃ p ar, (p, ar) ∈ findall_desc "active-response" r
          ∧ child_text_is "command" command ar = true.

(** [c] is the command field (the first [command] child) of an active
    response of [r] and names no command of [r]. *)
Definition dangling (r : Element) (c : Element) : Prop :=
  ∃ ar i, inside ar r ∧ has_tag "active-response" ar = true
          ∧ find "command" ar = Some (i, c)
          ∧ ¬ names_command r (text c).

Definition leaf (t v : string) : Element := Elem t (Some v) [].

Definition optional_leaf (t : string) (x : option string) : list Element :=
  match x with
  | Some v => [leaf t v]
  | None => []
  end.

(** The element [add_command] builds. *)
Definition command_node (name executable : string) (timeout_allowed : bool) : Element :=
  Elem "command" None
    [leaf "name" name; leaf "executable" executable;
     leaf "timeout_allowed" (if timeout_allowed then "yes" else "no")].

(** The element [add_active_response] builds: the two mandatory leaves,
    then one leaf for each optional argument that was supplied. *)
Definition active_response_node
    (command location : string) (level timeout : option Z)
    (agent_id rules_group rules_id : option string) : Element :=
  Elem "active-response" None
    ([leaf "command" command; leaf "location" location]
     ++ optional_leaf "level" (PyStr.str_of_int <$> level)
     ++ optional_leaf "timeout" (PyStr.str_of_int <$> timeout)
     ++ optional_leaf "agent_id" agent_id
     ++ optional_leaf "rules_group" rules_group
     ++ optional_leaf "rules_id" rules_id).

(** One of the checks of [add_active_response] fails. *)
Definition ar_rejected (r : Element)
    (command location : string) (level : option Z)
    (agent_id rules_group rules_id : option string) : Prop :=
  ¬ names_command r (Some command)
  ∨ location ∉ LocationType_values
  ∨ (location = "defined-agent" ∧ (agent_id = None ∨ agent_id = Some EmptyString))
  ∨ (∃ l, level = Some l ∧ ¬ (1 ≤ l ≤ 16))
  ∨ (∃ g, rules_group = Some g ∧ _validate_rules_group g = false)
  ∨ (∃ i, rules_id = Some i ∧ _validate_rules_id i = false).

(** Calling [add_command] twice, as the specification has it for every name: the
    first call appends the command element and returns [True], the second
    returns [False] and leaves the document as the first call left it. *)
Definition add_command_twice_as_worded
    (st : state) (name executable : string) (timeout_allowed : bool) : Prop :=
  ∃ s1 s2 i,
    add_command name executable timeout_allowed st = Return true s1
    ∧ root s1 = modify_at (append (command_node name executable timeout_allowed)) [i] (root st)
    ∧ add_command name executable timeout_allowed s1 = Return false s2
    ∧ root s2 = root s1.

(** A loaded document that already defines the command [host-deny]. *)
Definition host_deny_document : Element :=
  Elem "root" None
    [Elem "ossec_config" None [command_node "host-deny" "host-deny" true]].

(** A loaded document with an empty container. *)
Definition empty_document : Element :=
  Elem "root" None [Elem "ossec_config" None []].

(** The exception [_validate_commands] raises for the command field [c]. *)
Definition unknown_command_error (c : Element) : exn :=
  ValueError ("Command '" +:+ fmt (text c)
              +:+ "' referenced in active response does not exist").

(** A loaded document with the command [host-deny] and an active response
    bound to it. *)
Definition guarded_document : Element :=
  Elem "root" None
    [Elem "ossec_config" None
       [command_node "host-deny" "host-deny" true;
        active_response_node "host-deny" "local" None None None None None]].

(** No direct child of the root is an active response for [command]. *)
Definition no_top_level_response (r : Element) (command : string) : Prop :=
  ∀ j e, children r !! j = Some e → has_tag "active-response" e = true →
         child_text_is "command" (Some command) e = false.

(** ** The rest of OSSECConfigManager

    A path argument is given by its steps, [path.split('/')]; the steps,
    like every tag handed to [find], are plain names (letters, digits,
    hyphen, underscore), for which [find] and [findall] follow child
    steps only. *)

Definition plain_char (c : ascii) : bool :=
  let n := PyStr.code c in
  ((48 <=? n) && (n <=? 57) || (65 <=? n) && (n <=? 90)
   || (97 <=? n) && (n <=? 122) || (n =? 45) || (n =? 95))%N.

Definition plain_tag (t : string) : bool :=
  negb (PyStr.is_empty t) && PyStr.all_chars plain_char t.

Definition plain_path (steps : list string) : bool :=
  negb (bool_decide (steps = [])) && forallb plain_tag steps.

(** [e.iterfind('t1/t2/...')] for the element [e] at position [at_]: the
    matches of the last step under every match of the steps before it,
    in document order. *)
Fixpoint iterfind (steps : list string) (at_ : path) (e : Element) : list (path * Element) :=
  match steps with
  | [] => [(at_, e)]
  | t :: steps' =>
      flat_map (fun ie : nat * Element => iterfind steps' (at_ ++ [ie.1]) ie.2)
               (findall t e)
  end.

(** [self.root.find(path)]; the empty path string (no step) finds nothing. *)
Definition find_by_path (steps : list string) (r : Element) : option (path * Element) :=
  match steps with
  | [] => None
  | _ => head (iterfind steps [] r)
  end.

(** ['/'.join(steps)] *)
Definition path_string (steps : list string) : string := join "/" steps.

Definition get_integrations : M (list (gmap string (option string))) :=
  r ← get_root;
  ret (map (fun pe => element_info pe.2) (findall_desc "integration" r)).

(** [d.get(k)] on the items of a dictionary. *)
Fixpoint dict_get (k : string) (d : list (string * string)) : option string :=
  match d with
  | [] => None
  | (k', v) :: d' => if String.eqb k' k then Some v else dict_get k d'
  end.

(** [add_integration] returns the element it created, here its position. *)
Definition add_integration (integration_details : list (string * string)) : M path :=
  ossec_config ← find_path "ossec_config";
  new_integration ← SubElement_of ossec_config "integration";
  for_each integration_details
    (fun item => new_element ← SubElement new_integration item.1;
                 assign_text new_element item.2);;
  print ("New integration with name '" +:+ fmt (dict_get "name" integration_details)
         +:+ "' has been added.");;
  ret new_integration.

(** The test [remove_integration] and [update_integration] make on an
    integration element. *)
Definition integration_matches (name : string) (hook_url : option string)
    (integration : Element) : bool :=
  bool_decide (child_text "name" integration = Some name)
  && match hook_url with
     | None => true
     | Some _ => bool_decide (child_text "hook_url" integration = hook_url)
     end.

Definition update_integration (name : string) (updates : list (string * string))
    (hook_url : option string) : M bool :=
  r ← get_root;
  match List.find (fun pe => integration_matches name hook_url pe.2)
                  (findall_desc "integration" r) with
  | Some (integration, _) =>
      for_each updates (fun item => write_child integration item.1 item.2);;
      print ("Integration with name '" +:+ name +:+ "' and hook_url '"
             +:+ fmt hook_url +:+ "' has been updated.");;
      ret true
  | None =>
      print ("No integration found with name '" +:+ name +:+ "' and hook_url '"
             +:+ fmt hook_url +:+ "'.");;
      ret false
  end.

(** A value of the mapping handed to [update_config_section] and
    [add_config_section]: a text, a nested mapping, or a list of
    [{'tag': .., 'text': ..}] items. *)
#[warnings="-register-all"]
Inductive section_value : Type :=
| SText (v : string)
| SDict (items : list (string * section_value))
| SList (items : list (string * string)).

(** [child = element.find(t)], and [child = ET.SubElement(element, t)]
    when there is none. *)
Definition find_or_create (element : path) (t : string) : M path :=
  r ← get_root;
  match get_at element r with
  | Some e =>
      match find t e with
      | Some (i, _) => ret (element ++ [i])
      | None => SubElement element t
      end
  | None => raise (AttributeError "'NoneType' object has no attribute 'find'")
  end.

(** [parent.clear()]: the children go, the text is reset. *)
Definition clear (e : Element) : Element := Elem (tag e) None [].

(** The helpers nested in [update_config_section] and
    [add_config_section]. *)
Module ConfigSection.

(** One item of the loop of [apply_updates]. *)
Fixpoint apply_update (t : string) (value : section_value) (element : path)
    {struct value} : M unit :=
  match value with
  | SDict items =>
      child ← find_or_create element t;
      (fix loop (l : list (string * section_value)) : M unit :=
         match l with
         | [] => ret tt
         | item :: l' => apply_update item.1 item.2 child;; loop l'
         end) items
  | SList items =>
      parent ← find_or_create element t;
      update_root (modify_at clear parent);;
      for_each items
        (fun item => child ← SubElement parent item.1; assign_text child item.2)
  | SText v =>
      child ← find_or_create element t;
      assign_text child v
  end.

Definition apply_updates (element : path) (updates : list (string * section_value)) : M unit :=
  for_each updates (fun item => apply_update item.1 item.2 element).

(** One item of the loop of [create_section]. *)
Fixpoint create_item (t : string) (value : section_value) (element : path)
    {struct value} : M unit :=
  match value with
  | SDict items =>
      child ← SubElement element t;
      (fix loop (l : list (string * section_value)) : M unit :=
         match l with
         | [] => ret tt
         | item :: l' => create_item item.1 item.2 child;; loop l'
         end) items
  | SList items =>
      parent ← SubElement element t;
      for_each items
        (fun item => child ← SubElement parent item.1; assign_text child item.2)
  | SText v =>
      child ← SubElement element t;
      assign_text child v
  end.

Definition create_section (element : path) (section : list (string * section_value)) : M unit :=
  for_each section (fun item => create_item item.1 item.2 element).

End ConfigSection.

(** The loop that walks the steps from the root, creating what is missing. *)
Fixpoint ensure_path (current_element : path) (tags : list string) : M path :=
  match tags with
  | [] => ret current_element
  | t :: tags' =>
      next_element ← find_or_create current_element t;
      ensure_path next_element tags'
  end.

Definition update_config_section (steps : list string)
    (updates : list (string * section_value)) : M unit :=
  r ← get_root;
  match find_by_path steps r with
  | Some (target_element, _) => ConfigSection.apply_updates target_element updates
  | None =>
      current_element ← ensure_path [] steps;
      ConfigSection.apply_updates current_element updates
  end.

Definition add_config_section (steps : list string)
    (new_section : list (string * section_value)) : M unit :=
  r ← get_root;
  match find_by_path steps r with
  | Some (parent_element, _) => ConfigSection.create_section parent_element new_section
  | None =>
      current_element ← ensure_path [] steps;
      ConfigSection.create_section current_element new_section
  end.

(** The loop of [remove_config_section] over the children found; as in
    [combine_extras], a child found at index [i] has moved [removed]
    places to the left. *)
Fixpoint remove_found (parent_element : path) (found : list nat) (removed : nat) : M unit :=
  match found with
  | [] => ret tt
  | i :: rest =>
      update_root (modify_at (remove_child (i - removed)) parent_element);;
      remove_found parent_element rest (S removed)
  end.

Definition remove_config_section (steps : list string) : M unit :=
  let parent_path := removelast steps in
  let section_name := List.last steps EmptyString in
  r ← get_root;
  match find_by_path parent_path r with
  | Some (parent_element, e) =>
      remove_found parent_element (findall section_name e).*1 0;;
      print ("Section '" +:+ section_name +:+ "' at path '" +:+ path_string steps
             +:+ "' has been removed.")
  | None =>
      print ("No section found at path '" +:+ path_string steps +:+ "' to remove.")
  end.

Definition section_exists (steps : list string) : M bool :=
  r ← get_root;
  ret (bool_decide (find_by_path steps r ≠ None)).

Definition add_ruleset_list (steps : list string) (new_list_value : string) : M unit :=
  r ← get_root;
  match find_by_path steps r with
  | Some (ruleset_element, e) =>
      let existing_lists := map (fun ie : nat * Element => text ie.2) (findall "list" e) in
      if negb (bool_decide (Some new_list_value ∈ existing_lists)) then
        new_list_element ← SubElement ruleset_element "list";
        assign_text new_list_element new_list_value;;
        print ("New list with value '" +:+ new_list_value +:+ "' has been added to ruleset.")
      else
        print ("List with value '" +:+ new_list_value +:+ "' already exists in ruleset.")
  | None =>
      print ("Ruleset section at '" +:+ path_string steps +:+ "' does not exist.")
  end.

(** ** The rest of ActiveResponseManager *)

Definition create_ssh_block_response
    (location : string) (level timeout : Z) (rules_id : string) : M bool :=
  known ← command_exists (Some "host-deny");
  (if negb known then _ ← add_command "host-deny" "host-deny" true; ret tt else ret tt);;
  add_active_response "host-deny" location (Some level) (Some timeout)
    None None (Some rules_id).

Definition create_agent_restart_response
    (location : string) (level timeout : Z) : M bool :=
  known ← command_exists (Some "restart-ossec");
  (if negb known then _ ← add_command "restart-ossec" "restart-ossec" false; ret tt
   else ret tt);;
  add_active_response "restart-ossec" location (Some level) (Some timeout)
    None None None.

Definition create_user_disable_response
    (location : string) (level timeout : Z) (rules_group : string) : M bool :=
  known ← command_exists (Some "disable-account");
  (if negb known then _ ← add_command "disable-account" "disable-account" true; ret tt
   else ret tt);;
  add_active_response "disable-account" location (Some level) (Some timeout)
    None (Some rules_group) None.

(** ** Auxiliary notions for the statements about the remaining methods *)

(** Some [integration] element of the document passes the test for
    [name] and [hook_url]. *)
Definition has_integration (r : Element) (name : string) (hook_url : option string) : Prop :=
  ∃ p e, (p, e) ∈ findall_desc "integration" r ∧ integration_matches name hook_url e = true.

Definition not_a_child_error : exn := ValueError "list.remove(x): x not in list".

(** The element [write_child] leaves where it wrote: the first child
    named [t] gets the text [v], or a new leaf is appended. *)
Definition set_child (t v : string) (e : Element) : Element :=
  match find t e with
  | Some (i, _) => Elem (tag e) (text e) (alter (set_text v) i (children e))
  | None => extend [leaf t v] e
  end.

Definition set_children (items : list (string * string)) (e : Element) : Element :=
  foldl (fun e item => set_child item.1 item.2 e) e items.

(** The items of an update mapping with their values as written. *)
Definition written (updates : list (string * pyval)) : list (string * string) :=
  map (fun item => (item.1, py_str item.2)) updates.

(** An item of the mapping handed to [update_active_response] passes the
    check made for its key. *)
Definition update_item_valid (item : string * pyval) : bool :=
  if String.eqb item.1 "level" then
    match item.2 with
    | VInt n => _validate_level n
    | VStr s => match PyInt.parse s with
                | Some n => _validate_level n
                | None => false
                end
    end
  else if String.eqb item.1 "rules_group" then
    match item.2 with VStr s => _validate_rules_group s | VInt _ => false end
  else if String.eqb item.1 "rules_id" then
    match item.2 with VStr s => _validate_rules_id s | VInt _ => false end
  else true.

(** The descendants a new last child [n] of the element at [[i]] brings
    into the document, with their positions; [len] is the number of
    children the element had. *)
Definition brought_in (i len : nat) (n : Element) : list (path * Element) :=
  map (under i) (([len], n) :: map (under len) (descendants n)).

(** The mapping [get_commands] returns for the element [add_command]
    builds. *)
Definition command_entry (name executable : string) (timeout_allowed : bool)
    : gmap string (option string) :=
  <["timeout_allowed" := Some (if timeout_allowed then "yes" else "no")]>
    (<["executable" := Some executable]> (<["name" := Some name]> ∅)).

(** The keys [add_active_response] can write. *)
Definition active_response_keys : list string :=
  ["command"; "location"; "level"; "timeout"; "agent_id"; "rules_group"; "rules_id"].

(** The element [add_integration] builds. *)
Definition integration_node (integration_details : list (string * string)) : Element :=
  Elem "integration" None (map (fun item => leaf item.1 item.2) integration_details).

(** An element without its children named [t]. *)
Definition without_children (t : string) (e : Element) : Element :=
  Elem (tag e) (text e) (filter (fun c => has_tag t c = false) (children e)).

(** What the loop [remove_found] does to the parent element. *)
Fixpoint drop_found (found : list nat) (removed : nat) (e : Element) : Element :=
  match found with
  | [] => e
  | i :: rest => drop_found rest (S removed) (remove_child (i - removed) e)
  end.

(** What the loop [ensure_path] makes of the element it starts from, and
    the position, below that element, of the element it ends on. *)
Fixpoint ensured (tags : list string) (e : Element) : Element * path :=
  match tags with
  | [] => (e, [])
  | t :: tags' =>
      match find t e with
      | Some (i, c) =>
          let cq := ensured tags' c in
          (Elem (tag e) (text e) (alter (fun _ => cq.1) i (children e)), i :: cq.2)
      | None =>
          let nq := ensured tags' (Elem t None []) in
          (extend [nq.1] e, length (children e) :: nq.2)
      end
  end.

(** A mapping of texts as a section mapping. *)
Definition texts (items : list (string * string)) : list (string * section_value) :=
  map (fun item => (item.1, SText item.2)) items.

(** The texts of the children named [list], as [add_ruleset_list]
    collects them. *)
Definition existing_lists (e : Element) : list (option string) :=
  map (fun ie : nat * Element => text ie.2) (findall "list" e).

(** One leaf per item of a mapping of texts. *)
Definition leaves (items : list (string * string)) : list Element :=
  map (fun item => leaf item.1 item.2) items.

(** What [update_config_section] makes of a section for one item whose
    value is a list: the first child named [t] is emptied and refilled,
    or a new one is appended. *)
Definition set_list (t : string) (entries : list (string * string)) (e : Element) : Element :=
  match find t e with
  | Some (i, c) =>
      Elem (tag e) (text e) (<[i := Elem (tag c) None (leaves entries)]> (children e))
  | None => extend [Elem t None (leaves entries)] e
  end.

(** The element [create_section] builds for one item of its mapping. *)
Fixpoint built (t : string) (value : section_value) : Element :=
  match value with
  | SText v => leaf t v
  | SDict items => Elem t None (map (fun item => built item.1 item.2) items)
  | SList entries => Elem t None (leaves entries)
  end.

Definition built_all (section : list (string * section_value)) : list Element :=
  map (fun item => built item.1 item.2) section.

(** What [update_config_section] makes of a section for one item whose
    value is a mapping of texts: the texts are written into the first
    child named [t], or into a new one appended for them. *)
Definition set_nested (t : string) (items : list (string * string)) (e : Element) : Element :=
  match find t e with
  | Some (i, c) =>
      Elem (tag e) (text e) (<[i := set_children items c]> (children e))
  | None => extend [set_children items (Elem t None [])] e
  end.

(** The keys of a mapping are plain names: for these [e.find(key)] looks
    at the direct children named [key], which is what [find] models. *)
Definition plain_keys {V} (items : list (string * V)) : bool :=
  forallb (fun item => plain_tag item.1) items.

(** [l] lists the elements named [t] of the document, one dictionary for
    each in document order; a dictionary holds, under each tag that some
    child of its element carries, the text of the last child with that
    tag, and no other key. *)
Definition listed (t : string) (r : Element) (l : list (gmap string (option string))) : Prop :=
  length l = length (findall_desc t r)
  ∧ ∀ n p e, findall_desc t r !! n = Some (p, e) →
      ∃ d, l !! n = Some d
           ∧ ∀ k, d !! k = text <$> last (filter (fun c => has_tag k c = true) (children e)).

(** [(p, e)] is the first of the elements [found], in their order, that
    passes [test]: the element a loop over [found] stops at when it
    breaks, or returns, on the first element passing the test. *)
Definition first_match (test : Element → bool) (found : list (path * Element))
    (p : path) (e : Element) : Prop :=
  ∃ before after,
    found = before ++ (p, e) :: after
    ∧ Forall (fun pe : path * Element => test pe.2 = false) before
    ∧ test e = true.

(** ** The calls that change commands and active responses

    The methods of [ActiveResponseManager] that change the document and
    return a boolean, with their arguments. *)
Inductive mutation : Type :=
| Add_command (name executable : string) (timeout_allowed : bool)
| Update_command (name : string) (updates : list (string * pyval))
| Remove_command (name : string)
| Add_active_response (command location : string) (level timeout : option Z)
    (agent_id rules_group rules_id : option string)
| Update_active_response (command : string) (updates : list (string * pyval))
| Remove_active_response (command : string)
| Create_ssh_block_response (location : string) (level timeout : Z) (rules_id : string)
| Create_agent_restart_response (location : string) (level timeout : Z)
| Create_user_disable_response (location : string) (level timeout : Z) (rules_group : string).

Definition call (m : mutation) : M bool :=
  match m with
  | Add_command name executable timeout_allowed =>
      add_command name executable timeout_allowed
  | Update_command name updates => update_command name updates
  | Remove_command name => remove_command name
  | Add_active_response command location level timeout agent_id rules_group rules_id =>
      add_active_response command location level timeout agent_id rules_group rules_id
  | Update_active_response command updates => update_active_response command updates
  | Remove_active_response command => remove_active_response command
  | Create_ssh_block_response location level timeout rules_id =>
      create_ssh_block_response location level timeout rules_id
  | Create_agent_restart_response location level timeout =>
      create_agent_restart_response location level timeout
  | Create_user_disable_response location level timeout rules_group =>
      create_user_disable_response location level timeout rules_group
  end.

(** The calls that add an element; the others update or remove one. *)
Definition adds (m : mutation) : bool :=
  match m with
  | Add_command _ _ _ | Add_active_response _ _ _ _ _ _ _
  | Create_ssh_block_response _ _ _ _ | Create_agent_restart_response _ _ _
  | Create_user_disable_response _ _ _ _ => true
  | Update_command _ _ | Remove_command _
  | Update_active_response _ _ | Remove_active_response _ => false
  end.

(** The call [m] can break the references: on some document that the
    check of the constructor passes it returns [True] and leaves a
    document on which the check raises. *)
Definition breaks (m : mutation) : Prop :=
  ∃ st s' c,
    _validate_commands st = Return tt st
    ∧ call m st = Return true s'
    ∧ _validate_commands s' = Raise (unknown_command_error c) s'.

(** The last sentence of C3 as worded: the construction is the only point
    at which a reference to a command is checked, so no later call refuses
    a command because it does not exist. *)
Definition checked_only_at_construction_as_worded : Prop :=
  ∀ m st command,
    ¬ names_command (root st) (Some command) →
    call m st
    ≠ Return false
        (State (root st) (stdout st ++ ["Command '" +:+ command +:+ "' does not exist."])).

(** * Properties *)

(** ** Strings *)

Section strings.
Import PyStr.

Example split_demo :
  split "|" "a,|b" = ["a,"; "b"] ∧ split "," "1001," = ["1001"; EmptyString]
  ∧ strip " ab c  " = "ab c" ∧ str_of_int 10 = "10"
  ∧ str_of_int 0 = "0" ∧ str_of_int (-7) = "-7".
Proof. repeat split; reflexivity. Qed.

Example py_int_demo :
  PyInt.parse " 12 " = Some 12 ∧ PyInt.parse "-1_0" = Some (-10)
  ∧ PyInt.parse "abc" = None ∧ PyInt.parse EmptyString = None
  ∧ PyInt.parse "1__0" = None ∧ PyInt.parse "7_" = None.
Proof. repeat split; reflexivity. Qed.

Lemma is_empty_true s : is_empty s = true ↔ s = EmptyString.
Proof. destruct s; simpl; split; congruence. Qed.

Lemma is_empty_false s : is_empty s = false ↔ s ≠ EmptyString.
Proof. destruct s; simpl; split; congruence. Qed.

Lemma app_cons c s t : String c s +:+ t = String c (s +:+ t).
Proof. reflexivity. Qed.

Lemma app_empty_l t : EmptyString +:+ t = t.
Proof. reflexivity. Qed.

Lemma app_empty_r s : s +:+ EmptyString = s.
Proof. induction s as [|c s IH]; [done|by rewrite app_cons, IH]. Qed.

Lemma app_assoc_str a b c : (a +:+ b) +:+ c = a +:+ (b +:+ c).
Proof. induction a as [|x a IH]; [done|by rewrite !app_cons, IH]. Qed.

Lemma split_nonempty sep s : split sep s ≠ [].
Proof.
  induction s as [|c s IH]; simpl; [done|].
  destruct (Ascii.eqb c sep); [done|].
  destruct (split sep s); done.
Qed.

Lemma join_cons sep g g' gs :
  join sep (g :: g' :: gs) = g +:+ String sep (join sep (g' :: gs)).
Proof. reflexivity. Qed.

Lemma join_split sep s : join sep (split sep s) = s.
Proof.
  induction s as [|c s IH]; simpl; [done|].
  destruct (Ascii.eqb_spec c sep) as [->|Hne].
  - pose proof (split_nonempty sep s) as Hn.
    destruct (split sep s) as [|g gs]; [done|].
    change (join sep (EmptyString :: g :: gs)) with (String sep (join sep (g :: gs))).
    by rewrite IH.
  - pose proof (split_nonempty sep s) as Hn.
    destruct (split sep s) as [|g gs]; [done|].
    destruct gs as [|g' gs]; [simpl in *; by rewrite IH|].
    rewrite join_cons, app_cons, <- join_cons. by rewrite IH.
Qed.

Lemma split_segments_clean sep s g :
  g ∈ split sep s → contains sep g = false.
Proof.
  revert g. induction s as [|c s IH]; simpl; intros g Hg.
  - apply list_elem_of_singleton in Hg as ->. done.
  - destruct (Ascii.eqb_spec c sep) as [->|Hne].
    + apply elem_of_cons in Hg as [->|Hg]; [done|by apply IH].
    + destruct (split sep s) as [|g0 gs].
      * apply list_elem_of_singleton in Hg as ->. simpl.
        destruct (Ascii.eqb_spec c sep); done.
      * apply elem_of_cons in Hg as [->|Hg].
        -- simpl. destruct (Ascii.eqb_spec c sep); [done|].
           apply IH. left.
        -- apply IH. by right.
Qed.

Lemma split_is_segmentation sep s : segments_of sep s (split sep s).
Proof.
  split; [apply split_nonempty|]. split; [apply join_split|].
  intros g. apply split_segments_clean.
Qed.

Lemma split_clean sep g : contains sep g = false → split sep g = [g].
Proof.
  induction g as [|c g IH]; simpl; [done|].
  destruct (Ascii.eqb c sep); simpl; [done|].
  intros H. by rewrite IH.
Qed.

Lemma split_app_sep sep g rest :
  contains sep g = false →
  split sep (g +:+ String sep rest) = g :: split sep rest.
Proof.
  induction g as [|c g IH]; rewrite ?app_cons, ?app_empty_l; simpl.
  - intros _. by rewrite Ascii.eqb_refl.
  - destruct (Ascii.eqb c sep); simpl; [done|].
    intros H. by rewrite IH.
Qed.

Lemma segments_unique sep s segs :
  segments_of sep s segs → segs = split sep s.
Proof.
  intros (Hne & <- & Hclean).
  induction segs as [|g gs IH]; [done|]. clear Hne.
  destruct gs as [|g' gs].
  - simpl. symmetry. apply split_clean, Hclean. left.
  - rewrite join_cons, split_app_sep by (apply Hclean; left).
    f_equal. apply IH; [done|]. intros h Hh. apply Hclean. by right.
Qed.

Lemma lstrip_blank l x : blank_string l → lstrip (l +:+ x) = lstrip x.
Proof.
  unfold blank_string. induction l as [|c l IH]; [done|].
  rewrite app_cons. simpl. intros [Hc Hl]%andb_true_iff.
  rewrite Hc. auto.
Qed.

Lemma lstrip_keep x :
  (∀ c rest, x = String c rest → isspace_char c = false) → lstrip x = x.
Proof.
  destruct x as [|c x]; [done|]. intros H. simpl. by rewrite (H c x).
Qed.

Lemma rstrip_all_blank r : blank_string r → rstrip r = EmptyString.
Proof.
  unfold blank_string. induction r as [|c r IH]; [done|].
  simpl. intros [Hc Hr]%andb_true_iff. by rewrite IH, Hc.
Qed.

Lemma rstrip_blank x r : blank_string r → rstrip (x +:+ r) = rstrip x.
Proof.
  intros Hr. induction x as [|c x IH]; [by apply rstrip_all_blank|].
  rewrite app_cons. simpl. by rewrite IH.
Qed.

Lemma snoc_not_empty init c : init +:+ String c EmptyString ≠ EmptyString.
Proof. by destruct init. Qed.

Lemma rstrip_keep init c :
  isspace_char c = false →
  rstrip (init +:+ String c EmptyString) = init +:+ String c EmptyString.
Proof.
  intros Hc. induction init as [|a init IH].
  - simpl. by rewrite Hc.
  - rewrite app_cons. simpl. rewrite IH.
    pose proof (snoc_not_empty init c).
    by destruct (init +:+ String c EmptyString).
Qed.

Lemma string_snoc_cases s :
  s = EmptyString ∨ ∃ init c, s = init +:+ String c EmptyString.
Proof.
  induction s as [|a s IH]; [by left|right].
  destruct IH as [->|(init & c & ->)].
  - by exists EmptyString, a.
  - by exists (String a init), c.
Qed.

Lemma trimmed_unique g core : trimmed_to g core → core = strip g.
Proof.
  intros (l & r & -> & Hl & Hr & Hhead & Hlast). unfold strip.
  rewrite lstrip_blank by done.
  destruct (string_snoc_cases core) as [->|(init & c & Hcore)].
  - rewrite app_empty_l.
    enough (lstrip r = EmptyString) as -> by done.
    clear -Hr. unfold blank_string in Hr.
    induction r as [|c r IH]; [done|]. simpl in *.
    apply andb_true_iff in Hr as [-> Hr]. auto.
  - rewrite lstrip_keep.
    + rewrite rstrip_blank by done. subst core.
      symmetry. apply rstrip_keep. by eapply Hlast.
    + intros c0 rest Heq. destruct core as [|c1 core1].
      { by destruct init. }
      rewrite app_cons in Heq. injection Heq as <- _. by eapply Hhead.
Qed.

Lemma lstrip_split g :
  ∃ l, g = l +:+ lstrip g ∧ blank_string l
       ∧ ∀ c rest, lstrip g = String c rest → isspace_char c = false.
Proof.
  induction g as [|a g (l & Hg & Hl & Hhead)].
  - by exists EmptyString.
  - simpl. destruct (isspace_char a) eqn:Ha.
    + exists (String a l). rewrite app_cons, <- Hg. repeat split; [|done].
      unfold blank_string in *. simpl. by rewrite Ha.
    + exists EmptyString. repeat split. intros c rest [= <- _]. done.
Qed.

Lemma rstrip_split x :
  ∃ r, x = rstrip x +:+ r ∧ blank_string r
       ∧ ∀ init c, rstrip x = init +:+ String c EmptyString → isspace_char c = false.
Proof.
  induction x as [|a x (r & Hx & Hr & Hlast)].
  - exists EmptyString. repeat split. intros init c H.
    by destruct (snoc_not_empty init c).
  - simpl. destruct (rstrip x) as [|b t] eqn:Hrx.
    + destruct (isspace_char a) eqn:Ha.
      * exists (String a x). repeat split.
        -- rewrite app_empty_l in Hx. unfold blank_string in *. simpl.
           rewrite Ha. by rewrite Hx.
        -- intros init c H. by destruct (snoc_not_empty init c).
      * exists r. rewrite app_cons. repeat split; [by rewrite <- Hx|done|].
        intros init c H. destruct init as [|i0 init].
        -- by injection H as <-.
        -- rewrite app_cons in H. injection H as _ H.
           by destruct (snoc_not_empty init c).
    + exists r. rewrite app_cons. repeat split; [by rewrite <- Hx|done|].
      intros init c H. destruct init as [|i0 init]; [done|].
      rewrite app_cons in H. injection H as _ H. by eapply Hlast.
Qed.

Lemma rstrip_head x c rest :
  rstrip x = String c rest → ∃ rest', x = String c rest'.
Proof.
  destruct x as [|a x]; [done|]. simpl.
  destruct (rstrip x); [destruct (isspace_char a)|];
    intros [= <- _]; eauto.
Qed.

Lemma strip_is_trimmed g : trimmed_to g (strip g).
Proof.
  destruct (lstrip_split g) as (l & Hg & Hl & Hhead).
  destruct (rstrip_split (lstrip g)) as (r & Hx & Hr & Hlast).
  exists l, r. unfold strip. repeat split; [congruence|done|done| |done].
  intros c rest Heq. apply rstrip_head in Heq as [rest' Heq]. by eapply Hhead.
Qed.

Lemma endswith_empty suffix :
  endswith EmptyString suffix = String.eqb EmptyString suffix || false.
Proof. reflexivity. Qed.

Lemma endswith_cons a s suffix :
  endswith (String a s) suffix = String.eqb (String a s) suffix || endswith s suffix.
Proof. reflexivity. Qed.

Lemma endswith_spec s suffix :
  endswith s suffix = true ↔ ∃ p, s = p +:+ suffix.
Proof.
  induction s as [|a s IH].
  - rewrite endswith_empty, orb_false_r, String.eqb_eq. split.
    + intros <-. by exists EmptyString.
    + intros [p Hp]. destruct p; [|done]. by rewrite app_empty_l in Hp.
  - rewrite endswith_cons, orb_true_iff, IH, String.eqb_eq. split.
    + intros [<-|[p ->]]; [by exists EmptyString|].
      by exists (String a p).
    + intros [p Hp]. destruct p as [|b p].
      * left. by rewrite app_empty_l in Hp.
      * right. rewrite app_cons in Hp. injection Hp as _ ->. by exists p.
Qed.

End strings.

(** ** The validators *)

Section validators.
Import PyStr.

Lemma forallb_segments (ok : string → bool) (P : string → Prop) sep s :
  (∀ core, ok core = true ↔ P core) →
  forallb (fun g => ok (strip g)) (split sep s) = true
  ↔ ∃ segs, segments_of sep s segs
      ∧ ∀ g, g ∈ segs → ∃ core, trimmed_to g core ∧ P core.
Proof.
  intros Hok. rewrite forallb_forall. split.
  - intros H. exists (split sep s). split; [apply split_is_segmentation|].
    intros g Hg. exists (strip g). split; [apply strip_is_trimmed|].
    apply Hok, H. by apply list_elem_of_In.
  - intros (segs & Hsegs & H) g Hg. apply segments_unique in Hsegs as ->.
    apply list_elem_of_In in Hg.
    destruct (H g Hg) as (core & ->%trimmed_unique & Hcore). by apply Hok.
Qed.

Lemma isdigit_spec core :
  isdigit core = true ↔ core ≠ EmptyString ∧ only_digits core.
Proof.
  unfold isdigit, only_digits.
  rewrite andb_true_iff, negb_true_iff, is_empty_false. done.
Qed.

(** C6: the rules-group validator accepts a string exactly when the
    string is non-empty and each of its pipe-separated segments, with the
    surrounding whitespace trimmed off, ends with a comma; the four
    sample strings are accepted and rejected as listed. *)
Theorem validate_rules_group_rule :
  (∀ s, _validate_rules_group s = true ↔ rules_group_rule s)
  ∧ _validate_rules_group "authentication_failure," = true
  ∧ _validate_rules_group "authentication_failure" = false
  ∧ _validate_rules_group "a,|b" = false
  ∧ _validate_rules_group "a,|b," = true.
Proof.
  split; [|by vm_compute].
  intros s. unfold _validate_rules_group, rules_group_rule.
  destruct (is_empty s) eqn:He.
  - apply is_empty_true in He. split; [done|]. by intros [? _].
  - apply is_empty_false in He.
    rewrite (forallb_segments (fun core => endswith core ",") ends_with_comma).
    + tauto.
    + intros core. apply endswith_spec.
Qed.

(** C7 as worded fails: the trailing comma of ["1001,"]
    leaves an empty last segment, which has no character that is not a
    digit, yet the validator rejects the string. *)
Lemma validate_rules_id_empty_segment :
  _validate_rules_id "1001," = false ∧ rules_id_rule_as_worded "1001,".
Proof.
  split; [reflexivity|]. split; [done|].
  exists (split "," "1001,"). split; [apply split_is_segmentation|].
  intros g Hg. exists (strip g). split; [apply strip_is_trimmed|].
  change (split "," "1001,") with ["1001"; EmptyString] in Hg.
  apply elem_of_cons in Hg as [->|Hg]; [reflexivity|].
  apply list_elem_of_singleton in Hg as ->. reflexivity.
Qed.

(** C7, amended: the rules-id validator accepts a string exactly when
    the string is non-empty and each of its comma-separated segments,
    with the surrounding whitespace trimmed off, is non-empty and made of
    digit characters only; ["1001,1002"] is accepted and ["1001,abc"]
    rejected. *)
Theorem validate_rules_id_rule :
  (∀ s, _validate_rules_id s = true ↔ rules_id_rule s)
  ∧ _validate_rules_id "1001,1002" = true
  ∧ _validate_rules_id "1001,abc" = false.
Proof.
  split; [|by vm_compute].
  intros s. unfold _validate_rules_id, rules_id_rule.
  destruct (is_empty s) eqn:He.
  - apply is_empty_true in He. split; [done|]. by intros [? _].
  - apply is_empty_false in He.
    rewrite (forallb_segments isdigit
               (fun core => core ≠ EmptyString ∧ only_digits core)).
    + tauto.
    + apply isdigit_spec.
Qed.

End validators.

(** ** Element trees: positions and in-place updates *)

Section trees.

Lemma Element_ind' (P : Element → Prop) :
  (∀ t x cs, Forall P cs → P (Elem t x cs)) → ∀ e, P e.
Proof.
  intros H. fix IH 1. intros [t x cs]. apply H.
  induction cs as [|c cs IHcs]; constructor; [apply IH|apply IHcs].
Qed.

Lemma Elem_eta e : Elem (tag e) (text e) (children e) = e.
Proof. by destruct e. Qed.

Lemma descendants_eq e : descendants e = descendants_from 0 (children e).
Proof.
  destruct e as [t x cs]. simpl. generalize 0%nat.
  induction cs as [|c cs IH]; intros k; simpl; [done|]. by rewrite IH.
Qed.

Lemma elem_of_descendants_from cs :
  Forall (fun c => ∀ p e, (p, e) ∈ descendants c ↔ p ≠ [] ∧ get_at p c = Some e) cs →
  ∀ k p e, (p, e) ∈ descendants_from k cs
           ↔ ∃ i c p', p = (k + i)%nat :: p' ∧ cs !! i = Some c ∧ get_at p' c = Some e.
Proof.
  induction 1 as [|c cs Hc _ IH]; intros k p e; simpl.
  - split; [by intros ?%elem_of_nil|]. by intros (i & ? & ? & _ & ? & _).
  - rewrite elem_of_cons, elem_of_app, list_elem_of_fmap, IH. split.
    + intros [[= -> ->]|[([q e'] & [= -> ->] & Hin)|(i & c' & p' & -> & Hi & Hg)]].
      * exists 0%nat, c, []. by rewrite Nat.add_0_r.
      * apply Hc in Hin as [_ Hq]. exists 0%nat, c, q. by rewrite Nat.add_0_r.
      * exists (S i), c', p'. split; [f_equal; lia|done].
    + intros (i & c' & p' & -> & Hi & Hg). destruct i as [|i].
      * injection Hi as <-. rewrite Nat.add_0_r. destruct p' as [|j p'].
        -- injection Hg as <-. by left.
        -- right; left. exists (j :: p', e). split; [done|].
           apply Hc. done.
      * right; right. exists i, c', p'. split; [f_equal; lia|done].
Qed.

(** The positions [descendants] reports are the positions [get_at] reads. *)
Lemma elem_of_descendants r p e :
  (p, e) ∈ descendants r ↔ p ≠ [] ∧ get_at p r = Some e.
Proof.
  revert p e. induction r as [t x cs IH] using Element_ind'. intros p e.
  rewrite descendants_eq, (elem_of_descendants_from _ IH). simpl. split.
  - intros (i & c & p' & -> & Hi & Hg). split; [done|]. simpl. by rewrite Hi.
  - intros [Hp Hg]. destruct p as [|i p']; [done|]. simpl in Hg.
    destruct (cs !! i) as [c|] eqn:Hi; [|done]. by exists i, c, p'.
Qed.

Lemma elem_of_findall_desc t r p e :
  (p, e) ∈ findall_desc t r ↔ p ≠ [] ∧ get_at p r = Some e ∧ has_tag t e = true.
Proof.
  unfold findall_desc. rewrite list_elem_of_filter, elem_of_descendants. simpl. tauto.
Qed.

Lemma get_at_snoc p i r :
  get_at (p ++ [i]) r = match get_at p r with
                        | Some e => children e !! i
                        | None => None
                        end.
Proof.
  revert r. induction p as [|j p IH]; intros r; simpl.
  - by destruct (children r !! i).
  - destruct (children r !! j); [apply IH|done].
Qed.

Lemma modify_at_ext f g p r :
  (∀ e, get_at p r = Some e → f e = g e) → modify_at f p r = modify_at g p r.
Proof.
  revert r. induction p as [|i p IH]; intros r H; simpl; [by apply H|].
  f_equal. apply list_alter_ext; [|done]. intros c Hc. apply IH.
  intros e He. apply H. simpl. by rewrite Hc.
Qed.

Lemma modify_at_compose f g p r :
  modify_at g p (modify_at f p r) = modify_at (g ∘ f) p r.
Proof.
  revert r. induction p as [|i p IH]; intros r; simpl; [done|].
  f_equal. rewrite list_alter_alter_eq. apply list_alter_ext; [|done].
  intros c _. apply IH.
Qed.

Lemma modify_at_app f p q r :
  modify_at f (p ++ q) r = modify_at (modify_at f q) p r.
Proof.
  revert r. induction p as [|i p IH]; intros r; simpl; [done|].
  f_equal. apply list_alter_ext; [|done]. intros c _. apply IH.
Qed.

Lemma get_at_modify_at f p r e :
  get_at p r = Some e → get_at p (modify_at f p r) = Some (f e).
Proof.
  revert r. induction p as [|i p IH]; intros r; simpl; [congruence|].
  rewrite list_lookup_alter_eq. destruct (children r !! i); simpl; [apply IH|done].
Qed.

Lemma modify_at_tag f p r : p ≠ [] → tag (modify_at f p r) = tag r.
Proof. by destruct p. Qed.

End trees.

(** ** Merging the ossec_config blocks *)

Section organize.

Lemma extend_nil e : extend [] e = e.
Proof. destruct e. unfold extend. simpl. by rewrite app_nil_r. Qed.

Lemma extend_extend cs cs' e : extend cs' (extend cs e) = extend (cs ++ cs') e.
Proof. unfold extend. simpl. by rewrite app_assoc. Qed.

Lemma append_extend c e : append c e = extend [c] e.
Proof. reflexivity. Qed.

Lemma modify_at_id f p r : (∀ e, f e = e) → modify_at f p r = r.
Proof.
  intros Hf. revert r. induction p as [|i p IH]; intros r; simpl; [done|].
  rewrite list_alter_id by done. apply Elem_eta.
Qed.

Lemma for_each_append cs p r out :
  for_each cs (fun child => update_root (modify_at (append child) [p])) (State r out)
  = Return tt (State (modify_at (extend cs) [p] r) out).
Proof.
  revert r. induction cs as [|c cs IH]; intros r.
  - cbn [for_each]. unfold ret.
    by rewrite (modify_at_id (extend [])) by apply extend_nil.
  - cbn [for_each]. unfold bind at 1, update_root at 1. cbn [root stdout].
    rewrite IH, modify_at_compose. do 2 f_equal. apply modify_at_ext.
    intros e _. unfold compose. by rewrite append_extend, extend_extend.
Qed.

Lemma children_from_shift t k l :
  (children_from t (S k) l).*1 = S <$> (children_from t k l).*1.
Proof.
  revert k. induction l as [|c l IH]; intros k; simpl; [done|].
  destruct (has_tag t c); simpl; by rewrite IH.
Qed.

Lemma children_from_none t k l :
  Forall (fun e => has_tag t e = false) l → children_from t k l = [].
Proof.
  intros H. revert k. induction H as [|c l Hc _ IH]; intros k; simpl; [done|].
  by rewrite Hc.
Qed.

Lemma children_from_app t k l1 l2 :
  children_from t k (l1 ++ l2)
  = children_from t k l1 ++ children_from t (k + length l1) l2.
Proof.
  revert k. induction l1 as [|c l1 IH]; intros k; simpl.
  - by rewrite Nat.add_0_r.
  - rewrite IH, Nat.add_succ_r. by destruct (has_tag t c).
Qed.

Lemma children_from_first t k l i e rest_found :
  children_from t k l = (i, e) :: rest_found →
  ∃ pre rest, l = pre ++ e :: rest ∧ i = (k + length pre)%nat
    ∧ Forall (fun c => has_tag t c = false) pre ∧ has_tag t e = true
    ∧ rest_found = children_from t (S i) rest.
Proof.
  revert k. induction l as [|c l IH]; intros k; simpl; [done|].
  destruct (has_tag t c) eqn:Hc.
  - intros [= <- <- <-]. exists [], l. by rewrite Nat.add_0_r.
  - intros (pre & rest & -> & -> & Hpre & He & ->)%IH.
    exists (c :: pre), rest. simpl. rewrite Nat.add_succ_r.
    split_and!; [done|done|by constructor|done|done].
Qed.

Lemma alter_middle {A} (f : A → A) (pre : list A) x rest :
  alter f (length pre) (pre ++ x :: rest) = pre ++ f x :: rest.
Proof.
  rewrite <- (Nat.add_0_r (length pre)). by rewrite alter_app_r.
Qed.

Lemma combine_extras_spec rest : ∀ pre first mid k t x out,
  combine_extras (length pre)
    ((fun i => i + k)%nat <$> (children_from "ossec_config" (S (length pre) + length mid) rest).*1)
    k (State (Elem t x (pre ++ first :: mid ++ rest)) out)
  = Return tt
      (State (Elem t x (pre ++ extend (flat_map children (filter is_container rest)) first
                          :: mid ++ filter not_container rest)) out).
Proof.
  induction rest as [|c rest IH]; intros pre first mid k t x out.
  - simpl. unfold ret. by rewrite extend_nil.
  - cbn [children_from]. destruct (has_tag "ossec_config" c) eqn:Hc.
    + rewrite (filter_cons_True is_container), (filter_cons_False not_container)
        by (unfold is_container, not_container; congruence).
      cbn [fmap list_fmap fst combine_extras flat_map].
      replace (S (length pre) + length mid + k - k)%nat
        with (length (pre ++ first :: mid)) by (rewrite length_app; simpl; lia).
      unfold bind at 1, get_root at 1. cbn [root children].
      replace (pre ++ first :: mid ++ c :: rest)
        with ((pre ++ first :: mid) ++ c :: rest) by by rewrite <- app_assoc.
      rewrite list_lookup_middle by done.
      unfold bind at 1. rewrite for_each_append.
      unfold bind at 1, root_remove, bind at 1, get_root. cbn [root modify_at children tag text].
      rewrite length_alter, decide_True
        by (rewrite (length_app (pre ++ first :: mid)); simpl; lia).
      unfold update_root, remove_child. cbn [root stdout children tag text].
      rewrite <- app_assoc. cbn [app]. rewrite alter_middle.
      replace (pre ++ extend (children c) first :: mid ++ c :: rest)
        with ((pre ++ extend (children c) first :: mid) ++ c :: rest)
        by by rewrite <- app_assoc.
      replace (length (pre ++ first :: mid))
        with (length (pre ++ extend (children c) first :: mid))
        by (rewrite !length_app; done).
      rewrite delete_middle, <- app_assoc. cbn [app].
      rewrite children_from_shift, <- list_fmap_compose.
      erewrite (list_fmap_ext _ (fun i => i + S k)%nat);
        [|intros; unfold compose; lia].
      rewrite IH, extend_extend. done.
    + rewrite (filter_cons_False is_container), (filter_cons_True not_container)
        by (unfold is_container, not_container; congruence).
      specialize (IH pre first (mid ++ [c]) k t x out).
      rewrite length_app in IH. cbn [length] in IH.
      replace (S (length pre) + (length mid + 1))%nat
        with (S (S (length pre) + length mid)) in IH by lia.
      rewrite <- !app_assoc in IH. exact IH.
Qed.

(** What [organize_ossec_config] returns, by the number of blocks. *)
Lemma organize_ossec_config_eval r out :
  let blocks := findall "ossec_config" r in
  ((length blocks ≤ 1)%nat →
     organize_ossec_config (State r out)
     = Return tt (State r (out ++ ["No extra ossec_config blocks to combine."])))
  ∧ ((1 < length blocks)%nat →
     ∃ pre first rest,
       children r = pre ++ first :: rest
       ∧ Forall not_container pre ∧ is_container first
       ∧ (1 + length (filter is_container rest))%nat = length blocks
       ∧ let merged :=
           Elem (tag first) (text first)
                (children first ++ flat_map children (filter is_container rest)) in
         let r' :=
           Elem (tag r) (text r) (pre ++ merged :: filter not_container rest) in
         organize_ossec_config (State r out)
         = Return tt (State r'
             (out ++ ["All ossec_config blocks have been combined into the first one."]))
         ∧ findall "ossec_config" r' = [(length pre, merged)]).
Proof.
  intros blocks. subst blocks.
  split; intros Hlen; unfold organize_ossec_config;
    unfold bind at 1, get_root at 1; cbn [root].
  - by rewrite decide_False by lia.
  - rewrite decide_True by lia.
    destruct (findall "ossec_config" r) as [|[i first] found] eqn:Hfound;
      [simpl in Hlen; lia|].
    unfold findall in Hfound.
    apply children_from_first in Hfound as (pre & rest & Hcs & -> & Hpre & Hfirst & ->).
    exists pre, first, rest. do 3 (split; [done|]). split.
    { cbn [length]. f_equal. clear.
      generalize (S (0 + length pre)). induction rest as [|c rest IH]; intros k; [done|].
      cbn [children_from]. unfold is_container at 1.
      destruct (has_tag "ossec_config" c) eqn:Hc.
      - rewrite filter_cons_True by done. simpl. by rewrite <- (IH (S k)).
      - rewrite filter_cons_False by (unfold is_container; congruence). apply IH. }
    cbn zeta. split.
    + cbn [fst]. rewrite <- (Elem_eta r), Hcs. cbn [tag text children].
      pose proof (combine_extras_spec rest pre first [] 0 (tag r) (text r) out) as H.
      rewrite Nat.add_0_r in H. cbn [app length] in H.
      erewrite (list_fmap_ext _ id), list_fmap_id in H by (intros; simpl; lia).
      unfold bind at 1. cbn [Nat.add]. rewrite H. reflexivity.
    + unfold findall. cbn [children].
      rewrite children_from_app, (children_from_none _ _ pre) by done.
      cbn [app children_from]. unfold has_tag at 1. cbn [tag].
      unfold is_container, has_tag in Hfirst. rewrite Hfirst.
      rewrite children_from_none; [done|].
      apply Forall_forall. by intros e [? _]%list_elem_of_filter.
Qed.

(** C5: when the synthetic root has more than one ossec_config child,
    organizing leaves exactly one, the first occurrence, whose children
    are now followed by the children of the later occurrences, taken
    occurrence by occurrence and each in its own order; every other child
    of the root stays where it was relative to the others.  With at most
    one occurrence the document is left as it is. *)
Theorem organize_ossec_config_merges r out :
  let blocks := findall "ossec_config" r in
  ((length blocks ≤ 1)%nat →
     organize_ossec_config (State r out)
     = Return tt (State r (out ++ ["No extra ossec_config blocks to combine."])))
  ∧ ((1 < length blocks)%nat →
     ∃ pre first rest,
       children r = pre ++ first :: rest
       ∧ Forall not_container pre ∧ is_container first
       ∧ (1 + length (filter is_container rest))%nat = length blocks
       ∧ let merged :=
           Elem (tag first) (text first)
                (children first ++ flat_map children (filter is_container rest)) in
         let r' :=
           Elem (tag r) (text r) (pre ++ merged :: filter not_container rest) in
         organize_ossec_config (State r out)
         = Return tt (State r'
             (out ++ ["All ossec_config blocks have been combined into the first one."]))
         ∧ findall "ossec_config" r' = [(length pre, merged)]).
Proof. exact (organize_ossec_config_eval r out). Qed.

Example organize_three_blocks :
  organize_ossec_config
    (State (Elem "root" None
              [Elem "ossec_config" (Some "a") [Elem "a" None []];
               Elem "other" None [];
               Elem "ossec_config" (Some "b") [Elem "b" None []; Elem "c" None []];
               Elem "ossec_config" None [Elem "d" None []];
               Elem "z" None []]) [])
  = Return tt
      (State (Elem "root" None
                [Elem "ossec_config" (Some "a")
                   [Elem "a" None []; Elem "b" None []; Elem "c" None [];
                    Elem "d" None []];
                 Elem "other" None []; Elem "z" None []])
             ["All ossec_config blocks have been combined into the first one."]).
Proof. reflexivity. Qed.

End organize.

(** ** Looking elements up *)

Section lookups.

Lemma find_spec t r i e :
  find t r = Some (i, e) →
  ∃ pre rest, children r = pre ++ e :: rest ∧ i = length pre
    ∧ Forall (fun c => has_tag t c = false) pre ∧ has_tag t e = true.
Proof.
  unfold find, findall. destruct (children_from t 0 (children r)) as [|[j e'] l] eqn:H;
    [done|]. intros [= -> ->].
  apply children_from_first in H as (pre & rest & ? & ? & ? & ? & _).
  by exists pre, rest.
Qed.

Lemma find_lookup t r i e :
  find t r = Some (i, e) → children r !! i = Some e ∧ has_tag t e = true.
Proof.
  intros (pre & rest & -> & -> & _ & He)%find_spec. split; [|done].
  by apply list_lookup_middle.
Qed.

Lemma find_absent t r :
  find t r = None → Forall (fun c => has_tag t c = false) (children r).
Proof.
  unfold find, findall. generalize 0%nat.
  induction (children r) as [|c cs IH]; intros k; simpl; [done|].
  destruct (has_tag t c) eqn:Hc; [done|]. intros H. constructor; eauto.
Qed.

Lemma inside_findall_desc t r e :
  (∃ p, (p, e) ∈ findall_desc t r) ↔ inside e r ∧ has_tag t e = true.
Proof.
  unfold inside. split.
  - intros [p (? & ? & ?)%elem_of_findall_desc]. eauto.
  - intros [(p & ? & ?) ?]. exists p. by apply elem_of_findall_desc.
Qed.

Lemma list_find_some_elem {A} (f : A → bool) l x :
  List.find f l = Some x → x ∈ l ∧ f x = true.
Proof. intros [H ?]%find_some. split; [by apply list_elem_of_In|done]. Qed.

Lemma list_find_none_elem {A} (f : A → bool) l :
  List.find f l = None → ∀ x, x ∈ l → f x = false.
Proof. intros H x Hx. eapply List.find_none; [done|]. by apply list_elem_of_In. Qed.

Lemma command_exists_spec name st :
  ∃ b, command_exists name st = Return b st
       ∧ (b = true ↔ names_command (root st) name).
Proof.
  unfold command_exists, bind, get_root, names_command.
  destruct (List.find _ _) as [[p c]|] eqn:Hfind.
  - exists true. split; [done|]. split; [|done]. intros _.
    apply list_find_some_elem in Hfind as [? ?]. by exists p, c.
  - exists false. split; [done|]. split; [done|]. intros (p & c & Hin & Hc).
    pose proof (list_find_none_elem _ _ Hfind (p, c) Hin) as Hn.
    simpl in Hn. congruence.
Qed.

End lookups.

(** ** Building a new element in place *)

Section building.

Lemma SubElement_eval p t r out e :
  get_at p r = Some e →
  SubElement p t (State r out)
  = Return (p ++ [length (children e)])
      (State (modify_at (extend [Elem t None []]) p r) out).
Proof. intros He. unfold SubElement, bind, get_root. cbn [root]. by rewrite He. Qed.

(** The element appended last can be reached, and changed, through the
    position [SubElement] returned. *)
Lemma get_new_child p r e n :
  get_at p r = Some e →
  get_at (p ++ [length (children e)]) (modify_at (extend [n]) p r) = Some n.
Proof.
  intros He. rewrite get_at_snoc, (get_at_modify_at _ _ _ e) by done.
  cbn [extend children]. by rewrite list_lookup_middle.
Qed.

Lemma modify_new_child g p r e n :
  get_at p r = Some e →
  modify_at g (p ++ [length (children e)]) (modify_at (extend [n]) p r)
  = modify_at (extend [g n]) p r.
Proof.
  intros He. rewrite modify_at_app, modify_at_compose. apply modify_at_ext.
  intros e' He'. assert (e' = e) as -> by congruence.
  unfold compose, extend. cbn [modify_at tag text children]. f_equal.
  by rewrite alter_middle.
Qed.

Lemma add_leaf_eval {A} p t v r out e (k : M A) :
  get_at p r = Some e →
  (leaf ← SubElement p t; assign_text leaf v;; k) (State r out)
  = k (State (modify_at (extend [leaf t v]) p r) out).
Proof.
  intros He. unfold bind at 1. rewrite (SubElement_eval _ _ _ _ e) by done.
  unfold bind at 1, assign_text, update_root. cbn [root stdout].
  by rewrite (modify_new_child _ _ _ e).
Qed.

Lemma add_optional_eval {A} p t x r out e (k : M A) :
  get_at p r = Some e →
  (add_optional p t x;; k) (State r out)
  = k (State (modify_at (extend (optional_leaf t x)) p r) out).
Proof.
  intros He. destruct x as [v|]; cbn [add_optional optional_leaf].
  - unfold bind at 1. unfold bind at 1.
    rewrite (SubElement_eval _ _ _ _ e) by done.
    unfold assign_text, update_root. cbn [root stdout].
    by rewrite (modify_new_child _ _ _ e).
  - unfold bind at 1, ret. by rewrite modify_at_id by apply extend_nil.
Qed.

(** The same two steps when [p] is itself the position of an element [n]
    that was appended last to the element at [q]. *)
Lemma add_leaf_in_new {A} q t v r out e n (k : M A) :
  get_at q r = Some e →
  (leaf ← SubElement (q ++ [length (children e)]) t; assign_text leaf v;; k)
    (State (modify_at (extend [n]) q r) out)
  = k (State (modify_at (extend [extend [leaf t v] n]) q r) out).
Proof.
  intros He. rewrite (add_leaf_eval _ _ _ _ _ n) by by apply get_new_child.
  by rewrite (modify_new_child _ _ _ e).
Qed.

Lemma add_optional_in_new {A} q t x r out e n (k : M A) :
  get_at q r = Some e →
  (add_optional (q ++ [length (children e)]) t x;; k)
    (State (modify_at (extend [n]) q r) out)
  = k (State (modify_at (extend [extend (optional_leaf t x) n]) q r) out).
Proof.
  intros He. rewrite (add_optional_eval _ _ _ _ _ n) by by apply get_new_child.
  by rewrite (modify_new_child _ _ _ e).
Qed.

Lemma find_path_eval t r out :
  find_path t (State r out)
  = Return ((fun ie : nat * Element => [ie.1]) <$> find t r) (State r out).
Proof. reflexivity. Qed.

Lemma command_exists_true name st :
  names_command (root st) name → command_exists name st = Return true st.
Proof.
  intros H. destruct (command_exists_spec name st) as (b & -> & Hb).
  apply Hb in H. by subst.
Qed.

Lemma command_exists_false name st :
  ¬ names_command (root st) name → command_exists name st = Return false st.
Proof.
  intros H. destruct (command_exists_spec name st) as ([|] & -> & Hb); [|done].
  destruct H. by apply Hb.
Qed.

Lemma names_command_cases r name : names_command r name ∨ ¬ names_command r name.
Proof.
  destruct (command_exists_spec name (State r [])) as ([|] & _ & Hb); cbn [root] in Hb.
  - left. by apply Hb.
  - right. by intros ?%Hb.
Qed.

(** What [add_command] does, case by case. *)
Lemma add_command_taken name executable timeout_allowed r out :
  names_command r (Some name) →
  add_command name executable timeout_allowed (State r out)
  = Return false (State r (out ++ ["Command '" +:+ name +:+ "' already exists."])).
Proof.
  intros H. unfold add_command. unfold bind at 1.
  by rewrite command_exists_true.
Qed.

Lemma add_command_no_container name executable timeout_allowed r out :
  ¬ names_command r (Some name) → find "ossec_config" r = None →
  ∃ msg, add_command name executable timeout_allowed (State r out)
         = Raise (TypeError msg) (State r out).
Proof.
  intros H Hfind. unfold add_command. unfold bind at 1.
  rewrite command_exists_false by done.
  unfold bind at 1. rewrite find_path_eval, Hfind. eexists. reflexivity.
Qed.

Lemma add_command_fresh name executable timeout_allowed r out i oc :
  ¬ names_command r (Some name) → find "ossec_config" r = Some (i, oc) →
  add_command name executable timeout_allowed (State r out)
  = Return true
      (State (modify_at (append (command_node name executable timeout_allowed)) [i] r)
             (out ++ ["New command '" +:+ name +:+ "' has been added."])).
Proof.
  intros H Hfind. unfold add_command. unfold bind at 1.
  rewrite command_exists_false by done.
  unfold bind at 1. rewrite find_path_eval, Hfind.
  apply find_lookup in Hfind as [Hi _].
  assert (get_at [i] r = Some oc) as Hget by (simpl; by rewrite Hi).
  cbn [fmap option_fmap option_map SubElement_of fst].
  unfold bind at 1. rewrite (SubElement_eval _ _ _ _ oc) by done.
  rewrite !(add_leaf_in_new _ _ _ _ _ oc) by done.
  reflexivity.
Qed.

End building.

(** ** add_active_response *)

Section adding_responses.

Lemma validate_level_spec l : _validate_level l = true ↔ 1 ≤ l ≤ 16.
Proof. unfold _validate_level. rewrite andb_true_iff, !Z.leb_le. done. Qed.

Lemma add_active_response_rejected
    command location level timeout agent_id rules_group rules_id r out :
  ar_rejected r command location level agent_id rules_group rules_id →
  ∃ msg, add_active_response command location level timeout
           agent_id rules_group rules_id (State r out)
         = Return false (State r (out ++ [msg])).
Proof.
  intros Hrej. unfold add_active_response. unfold bind at 1.
  destruct (names_command_cases r (Some command)) as [Hn|Hn];
    [|rewrite command_exists_false by done; eexists; reflexivity].
  rewrite command_exists_true by done. cbn [negb].
  destruct (bool_decide (location ∈ LocationType_values)) eqn:Hloc; cbn [negb];
    [|eexists; reflexivity].
  destruct (bool_decide (location = "defined-agent") && _) eqn:Hagent;
    [eexists; reflexivity|].
  destruct (match level with Some _ => _ | None => _ end) eqn:Hlevel;
    [eexists; reflexivity|].
  destruct (match rules_group with Some _ => _ | None => _ end) eqn:Hgroup;
    [eexists; reflexivity|].
  destruct (match rules_id with Some _ => _ | None => _ end) eqn:Hid;
    [eexists; reflexivity|].
  exfalso. destruct Hrej as [H|[H|[[-> H]|[(l & -> & H)|[(g & -> & H)|(i & -> & H)]]]]].
  - done.
  - by apply bool_decide_eq_true in Hloc.
  - rewrite bool_decide_eq_true_2 in Hagent by done. by destruct H as [->| ->].
  - apply negb_false_iff, validate_level_spec in Hlevel. done.
  - rewrite H in Hgroup. done.
  - rewrite H in Hid. done.
Qed.

Lemma ar_rejected_cases r command location level agent_id rules_group rules_id :
  ar_rejected r command location level agent_id rules_group rules_id
  ∨ ¬ ar_rejected r command location level agent_id rules_group rules_id.
Proof.
  unfold ar_rejected.
  destruct (names_command_cases r (Some command)) as [Hn|Hn]; [|by left; left].
  destruct (decide (location ∈ LocationType_values)) as [Hloc|Hloc]; [|by left; right; left].
  destruct (decide (location = "defined-agent"
                    ∧ (agent_id = None ∨ agent_id = Some EmptyString))) as [Ha|Ha];
    [by left; right; right; left|].
  assert ((∃ l, level = Some l ∧ ¬ 1 ≤ l ≤ 16) ∨ ¬ (∃ l, level = Some l ∧ ¬ 1 ≤ l ≤ 16))
    as [Hl|Hl].
  { destruct level as [l|]; [|right; by intros (? & ? & _)].
    destruct (decide (1 ≤ l ≤ 16)); [right|left; eauto].
    intros (? & [= <-] & ?). done. }
  { by left; right; right; right; left. }
  assert ((∃ g, rules_group = Some g ∧ _validate_rules_group g = false)
          ∨ ¬ (∃ g, rules_group = Some g ∧ _validate_rules_group g = false)) as [Hg|Hg].
  { destruct rules_group as [g|]; [|right; by intros (? & ? & _)].
    destruct (_validate_rules_group g) eqn:E; [right|left; eauto].
    intros (? & [= <-] & ?). congruence. }
  { by left; right; right; right; right; left. }
  assert ((∃ i, rules_id = Some i ∧ _validate_rules_id i = false)
          ∨ ¬ (∃ i, rules_id = Some i ∧ _validate_rules_id i = false)) as [Hi|Hi].
  { destruct rules_id as [g|]; [|right; by intros (? & ? & _)].
    destruct (_validate_rules_id g) eqn:E; [right|left; eauto].
    intros (? & [= <-] & ?). congruence. }
  { by left; right; right; right; right; right. }
  right. tauto.
Qed.

(** The checks of [add_active_response] all pass: the call runs on to the
    lookup of the container. *)
Lemma add_active_response_checked {A}
    command location level agent_id rules_group rules_id r out (k1 k2 k3 k4 k5 k6 rest : M A) :
  ¬ ar_rejected r command location level agent_id rules_group rules_id →
  (known ← command_exists (Some command);
   if negb known then k1
   else if negb (bool_decide (location ∈ LocationType_values)) then k2
   else if bool_decide (location = "defined-agent")
           && match agent_id with None => true | Some a => PyStr.is_empty a end then k3
   else if match level with Some l => negb (_validate_level l) | None => false end then k4
   else if match rules_group with
           | Some g => negb (_validate_rules_group g) | None => false end then k5
   else if match rules_id with
           | Some i => negb (_validate_rules_id i) | None => false end then k6
   else rest) (State r out)
  = rest (State r out).
Proof.
  intros Hrej. unfold ar_rejected in Hrej. unfold bind at 1.
  destruct (names_command_cases r (Some command)) as [Hn|Hn]; [|tauto].
  rewrite command_exists_true by done. cbn [negb].
  rewrite bool_decide_eq_true_2 by (destruct (decide (location ∈ LocationType_values)); tauto).
  cbn [negb].
  replace (bool_decide (location = "defined-agent") && _) with false; cycle 1.
  { symmetry. apply andb_false_iff.
    destruct (decide (location = "defined-agent")) as [->|Hne];
      [right|left; by apply bool_decide_eq_false].
    destruct agent_id as [[|]|]; [|done|]; exfalso; apply Hrej; do 2 right; left; eauto. }
  replace (match level with Some _ => _ | None => _ end) with false; cycle 1.
  { destruct level as [l|]; [|done]. symmetry. apply negb_false_iff, validate_level_spec.
    destruct (decide (1 ≤ l ≤ 16)); [done|].
    exfalso; apply Hrej; do 3 right; left; eauto. }
  replace (match rules_group with Some _ => _ | None => _ end) with false; cycle 1.
  { destruct rules_group as [g|]; [|done]. symmetry. apply negb_false_iff.
    destruct (_validate_rules_group g) eqn:E; [done|].
    exfalso; apply Hrej; do 4 right; left; eauto. }
  replace (match rules_id with Some _ => _ | None => _ end) with false; cycle 1.
  { destruct rules_id as [g|]; [|done]. symmetry. apply negb_false_iff.
    destruct (_validate_rules_id g) eqn:E; [done|].
    exfalso; apply Hrej; do 5 right; eauto. }
  done.
Qed.

Lemma add_active_response_accepted
    command location level timeout agent_id rules_group rules_id r out i oc :
  ¬ ar_rejected r command location level agent_id rules_group rules_id →
  find "ossec_config" r = Some (i, oc) →
  add_active_response command location level timeout
    agent_id rules_group rules_id (State r out)
  = Return true
      (State (modify_at (append (active_response_node command location level timeout
                                   agent_id rules_group rules_id)) [i] r)
             (out ++ ["New active response for command '" +:+ command
                      +:+ "' has been added."])).
Proof.
  intros Hrej Hfind. unfold add_active_response.
  rewrite add_active_response_checked by done.
  unfold bind at 1. rewrite find_path_eval, Hfind.
  apply find_lookup in Hfind as [Hi _].
  assert (get_at [i] r = Some oc) as Hget by (simpl; by rewrite Hi).
  cbn [fmap option_fmap option_map SubElement_of fst].
  unfold bind at 1. rewrite (SubElement_eval _ _ _ _ oc) by done.
  rewrite !(add_leaf_in_new _ _ _ _ _ oc) by done.
  rewrite !(add_optional_in_new _ _ _ _ _ oc) by done.
  unfold bind, print, ret. cbn [root stdout]. do 2 f_equal.
  apply modify_at_ext. intros e _. rewrite append_extend. do 2 f_equal.
  rewrite !extend_extend. unfold extend, active_response_node.
  cbn [tag text children app]. reflexivity.
Qed.

Lemma add_active_response_no_container
    command location level timeout agent_id rules_group rules_id r out :
  ¬ ar_rejected r command location level agent_id rules_group rules_id →
  find "ossec_config" r = None →
  ∃ msg, add_active_response command location level timeout
           agent_id rules_group rules_id (State r out)
         = Raise (TypeError msg) (State r out).
Proof.
  intros Hrej Hfind. unfold add_active_response.
  rewrite add_active_response_checked by done.
  unfold bind at 1. rewrite find_path_eval, Hfind. eexists. reflexivity.
Qed.

End adding_responses.

(** ** Adding commands and active responses *)

Section adding.

(** C4: whatever the arguments, a failed check makes [add_active_response]
    return [False] with the document untouched and one line of
    explanation printed; a call that returns [True] has appended to the
    container exactly the element made of the two mandatory leaves and of
    one leaf per optional argument supplied, and it does return [True]
    when no check fails and the container is there; with location
    [defined-agent] and no agent id the call fails and changes nothing. *)
Theorem add_active_response_all_or_nothing
    command location level timeout agent_id rules_group rules_id st :
  let call := add_active_response command location level timeout
                agent_id rules_group rules_id st in
  let node := active_response_node command location level timeout
                agent_id rules_group rules_id in
  (ar_rejected (root st) command location level agent_id rules_group rules_id →
     ∃ msg, call = Return false (State (root st) (stdout st ++ [msg])))
  ∧ (∀ s', call = Return true s' →
       ∃ i oc, find "ossec_config" (root st) = Some (i, oc)
               ∧ root s' = modify_at (append node) [i] (root st))
  ∧ (¬ ar_rejected (root st) command location level agent_id rules_group rules_id →
       ∀ i oc, find "ossec_config" (root st) = Some (i, oc) →
       ∃ s', call = Return true s')
  ∧ (location = "defined-agent" → agent_id = None →
       ∃ msg, call = Return false (State (root st) (stdout st ++ [msg]))).
Proof.
  destruct st as [r out]. cbn [root stdout]. cbn zeta. split_and!.
  - apply add_active_response_rejected.
  - intros s' Hcall.
    destruct (ar_rejected_cases r command location level agent_id rules_group rules_id)
      as [Hrej|Hrej].
    { eapply (add_active_response_rejected _ _ _ timeout) in Hrej as [msg Hrej].
      rewrite Hrej in Hcall. done. }
    destruct (find "ossec_config" r) as [[i oc]|] eqn:Hfind.
    + exists i, oc. split; [done|].
      rewrite (add_active_response_accepted _ _ _ _ _ _ _ _ _ i oc) in Hcall by done.
      by injection Hcall as <-.
    + eapply (add_active_response_no_container _ _ _ timeout) in Hfind as [msg Hraise];
        [|done].
      rewrite Hraise in Hcall. done.
  - intros Hrej i oc Hfind. eexists. by apply (add_active_response_accepted _ _ _ _ _ _ _ _ _ i oc).
  - intros -> ->. apply add_active_response_rejected.
    unfold ar_rejected. do 2 right. left. eauto.
Qed.

Example add_active_response_bare :
  add_active_response "host-deny" "local" None None None None None
    (State host_deny_document [])
  = Return true
      (State (Elem "root" None
                [Elem "ossec_config" None
                   [command_node "host-deny" "host-deny" true;
                    Elem "active-response" None
                      [leaf "command" "host-deny"; leaf "location" "local"]]])
             ["New active response for command 'host-deny' has been added."]).
Proof. reflexivity. Qed.

Lemma names_command_added name executable timeout_allowed r i oc :
  find "ossec_config" r = Some (i, oc) →
  names_command (modify_at (append (command_node name executable timeout_allowed)) [i] r)
                (Some name).
Proof.
  intros [Hi _]%find_lookup.
  exists ([i] ++ [length (children oc)]), (command_node name executable timeout_allowed).
  split.
  - apply elem_of_findall_desc. split; [done|]. split; [|done].
    apply get_new_child. simpl. by rewrite Hi.
  - unfold child_text_is. cbn. by apply bool_decide_eq_true.
Qed.

(** C8 as worded fails for a name that is taken: the first
    call already returns [False] and appends nothing. *)
Lemma add_command_taken_name :
  add_command "host-deny" "host-deny" true (State host_deny_document [])
  = Return false (State host_deny_document ["Command 'host-deny' already exists."])
  ∧ ¬ add_command_twice_as_worded (State host_deny_document []) "host-deny" "host-deny" true.
Proof.
  assert (add_command "host-deny" "host-deny" true (State host_deny_document [])
          = Return false (State host_deny_document ["Command 'host-deny' already exists."]))
    as H by reflexivity.
  split; [done|]. intros (s1 & s2 & i & H1 & _). rewrite H in H1. done.
Qed.

(** C8, amended: on a document with an ossec_config block, for a name
    that no command carries yet, the first [add_command] appends the
    command element to the block and returns [True]; a second call with
    that name, whatever its other arguments, returns [False], raises
    nothing and leaves the document as the first call left it. *)
Theorem add_command_twice name executable timeout_allowed executable' timeout_allowed' st i oc :
  find "ossec_config" (root st) = Some (i, oc) →
  ¬ names_command (root st) (Some name) →
  ∃ s1 msg,
    add_command name executable timeout_allowed st = Return true s1
    ∧ root s1 = modify_at (append (command_node name executable timeout_allowed)) [i] (root st)
    ∧ add_command name executable' timeout_allowed' s1
      = Return false (State (root s1) (stdout s1 ++ [msg])).
Proof.
  destruct st as [r out]. cbn [root]. intros Hfind Hfresh.
  eexists _, _. split; [by apply (add_command_fresh _ _ _ _ _ i oc)|]. split; [done|].
  cbn [root stdout]. apply add_command_taken. by apply (names_command_added _ _ _ _ _ oc).
Qed.

Lemma add_command_twice_witness :
  ∃ s1 msg,
    add_command "custom-block" "custom-block.sh" true (State empty_document [])
    = Return true s1
    ∧ root s1 = modify_at (append (command_node "custom-block" "custom-block.sh" true))
                          [0%nat] empty_document
    ∧ add_command "custom-block" "other.sh" false s1
      = Return false (State (root s1) (stdout s1 ++ [msg])).
Proof.
  apply (add_command_twice "custom-block" "custom-block.sh" true "other.sh" false
           (State empty_document []) 0%nat (Elem "ossec_config" None [])).
  - reflexivity.
  - intros (p & c & Hin & _). vm_compute in Hin. by apply elem_of_nil in Hin.
Defined.

End adding.

(** ** Checking the references at construction *)

Section construction.

Lemma inside_children e r :
  inside e r ↔ ∃ c, c ∈ children r ∧ (e = c ∨ inside e c).
Proof.
  unfold inside. split.
  - intros ([|i p] & Hp & Hg); [done|]. simpl in Hg.
    destruct (children r !! i) as [c|] eqn:Hi; [|done].
    exists c. split; [by eapply list_elem_of_lookup_2|].
    destruct p as [|j p]; [left; simpl in Hg; congruence|right; by exists (j :: p)].
  - intros (c & [i Hi]%list_elem_of_lookup_1 & [->|(p & Hp & Hg)]).
    + exists [i]. split; [done|]. simpl. by rewrite Hi.
    + exists (i :: p). split; [done|]. simpl. by rewrite Hi.
Qed.

Lemma inside_organized e pre first rest t x :
  has_tag "ossec_config" e = false →
  is_container first →
  inside e (Elem t x (pre ++ extend (flat_map children (filter is_container rest)) first
                        :: filter not_container rest))
  ↔ inside e (Elem t x (pre ++ first :: rest)).
Proof.
  intros He Hfirst.
  assert (∀ c, is_container c → e ≠ c) as Hne.
  { intros c Hc ->. unfold is_container in Hc. congruence. }
  rewrite !(inside_children e (Elem _ _ _)). cbn [children].
  setoid_rewrite elem_of_app. setoid_rewrite elem_of_cons.
  setoid_rewrite list_elem_of_filter.
  split.
  - intros (c & [Hc|[->|[Hnc Hc]]] & HQ).
    + exists c. eauto.
    + destruct HQ as [->|HQ].
      { exfalso. apply (Hne (extend (flat_map children (filter is_container rest)) first));
          [|done]. exact Hfirst. }
      apply inside_children in HQ as (c & Hc & HQ). cbn [extend children] in Hc.
      apply elem_of_app in Hc as [Hc|Hc].
      * exists first. split; [eauto|]. right. apply inside_children. eauto.
      * apply list_elem_of_In, in_flat_map in Hc as (b & Hb & Hc).
        apply list_elem_of_In, list_elem_of_filter in Hb as [Hb Hbrest].
        exists b. split; [eauto|]. right. apply inside_children.
        exists c. split; [by apply list_elem_of_In|done].
    + exists c. eauto.
  - intros (c & [Hc|[->|Hc]] & HQ).
    + exists c. eauto.
    + destruct HQ as [->|HQ]; [by destruct (Hne first)|].
      eexists. split; [right; left; reflexivity|]. right.
      apply inside_children in HQ as (c & Hc & HQ). apply inside_children.
      exists c. split; [|done]. cbn [extend children]. apply elem_of_app. by left.
    + destruct (has_tag "ossec_config" c) eqn:Htag.
      * destruct HQ as [->|HQ]; [congruence|].
        eexists. split; [right; left; reflexivity|]. right.
        apply inside_children in HQ as (d & Hd & HQ). apply inside_children.
        exists d. split; [|done]. cbn [extend children]. apply elem_of_app. right.
        apply list_elem_of_In, in_flat_map. exists c.
        split; [|by apply list_elem_of_In].
        apply list_elem_of_In, list_elem_of_filter. done.
      * exists c. split; [|done]. right; right. done.
Qed.

(** Organizing always returns, and moves no element other than the
    extra containers themselves out of the document. *)
Lemma organize_keeps_elements r out :
  ∃ r' out', organize_ossec_config (State r out) = Return tt (State r' out')
    ∧ ∀ e, has_tag "ossec_config" e = false → inside e r' ↔ inside e r.
Proof.
  destruct (organize_ossec_config_eval r out) as [Hfew Hmany].
  destruct (decide (length (findall "ossec_config" r) ≤ 1)%nat) as [Hlen|Hlen].
  - eexists _, _. split; [by apply Hfew|done].
  - destruct Hmany as (pre & first & rest & Hcs & Hpre & Hfirst & _ & Hrun & _); [lia|].
    cbn zeta in Hrun. eexists _, _. split; [exact Hrun|].
    intros e He.
    pose proof (inside_organized e pre first rest (tag r) (text r) He Hfirst) as H.
    rewrite <- Hcs, Elem_eta in H. exact H.
Qed.

Lemma names_command_inside r name :
  names_command r name
  ↔ ∃ c, inside c r ∧ has_tag "command" c = true ∧ child_text_is "name" name c = true.
Proof.
  unfold names_command. split.
  - intros (p & c & Hin & Hc). exists c.
    destruct (proj1 (inside_findall_desc "command" r c)) as [? ?]; eauto.
  - intros (c & Hin & Htag & Hc).
    destruct (proj2 (inside_findall_desc "command" r c)) as [p Hp]; eauto.
Qed.

Lemma tag_not_container t e :
  t ≠ "ossec_config" → has_tag t e = true → has_tag "ossec_config" e = false.
Proof.
  unfold has_tag. intros Ht ->%String.eqb_eq. by apply String.eqb_neq.
Qed.

Lemma names_command_same r r' :
  (∀ e, has_tag "ossec_config" e = false → inside e r' ↔ inside e r) →
  ∀ name, names_command r' name ↔ names_command r name.
Proof.
  intros H name. rewrite !names_command_inside.
  split; intros (c & Hin & Htag & Hc); exists c; (split; [|done]);
    apply (H c); try done; by apply (tag_not_container "command").
Qed.

Lemma dangling_same r r' :
  (∀ e, has_tag "ossec_config" e = false → inside e r' ↔ inside e r) →
  ∀ c, dangling r' c ↔ dangling r c.
Proof.
  intros H c. unfold dangling.
  split; intros (ar & i & Hin & Htag & Hfind & Hn); exists ar, i.
  - split_and!; [|done|done|by rewrite <- (names_command_same r r')].
    apply (H ar); [by apply (tag_not_container "active-response")|done].
  - split_and!; [|done|done|by rewrite (names_command_same r r')].
    apply (H ar); [by apply (tag_not_container "active-response")|done].
Qed.

Lemma validate_loop_known st ar l i c :
  find "command" ar.2 = Some (i, c) → names_command (root st) (text c) →
  _validate_commands_loop (ar :: l) st = _validate_commands_loop l st.
Proof.
  intros Hfind Hn. cbn [_validate_commands_loop]. rewrite Hfind.
  unfold bind. by rewrite command_exists_true.
Qed.

Lemma validate_loop_unknown st ar l i c :
  find "command" ar.2 = Some (i, c) → ¬ names_command (root st) (text c) →
  _validate_commands_loop (ar :: l) st = Raise (unknown_command_error c) st.
Proof.
  intros Hfind Hn. cbn [_validate_commands_loop]. rewrite Hfind.
  unfold bind. by rewrite command_exists_false.
Qed.

Lemma validate_loop_skip st ar l :
  find "command" ar.2 = None →
  _validate_commands_loop (ar :: l) st = _validate_commands_loop l st.
Proof. intros Hfind. cbn [_validate_commands_loop]. by rewrite Hfind. Qed.

Lemma validate_loop_spec st l :
  (Forall (fun ar : path * Element =>
             ∀ i c, find "command" ar.2 = Some (i, c) → names_command (root st) (text c)) l
   ∧ _validate_commands_loop l st = Return tt st)
  ∨ ∃ ar i c, ar ∈ l ∧ find "command" ar.2 = Some (i, c)
              ∧ ¬ names_command (root st) (text c)
              ∧ _validate_commands_loop l st = Raise (unknown_command_error c) st.
Proof.
  induction l as [|ar l IH]; [left; by split|].
  destruct (find "command" ar.2) as [[i c]|] eqn:Hfind.
  - destruct (names_command_cases (root st) (text c)) as [Hn|Hn].
    + rewrite (validate_loop_known _ _ _ i c) by done.
      destruct IH as [[Hall Hrun]|(ar' & i' & c' & Hin & ? & ? & ?)].
      * left. split; [|done]. constructor; [|done]. intros i0 c0 Hf.
        rewrite Hfind in Hf. injection Hf as E1 E2. by subst.
      * right. exists ar', i', c'. split_and!; [by right|done..].
    + rewrite (validate_loop_unknown _ _ _ i c) by done.
      right. exists ar, i, c. split_and!; [by left|done..].
  - rewrite validate_loop_skip by done.
    destruct IH as [[Hall Hrun]|(ar' & i' & c' & Hin & ? & ? & ?)].
    + left. split; [|done]. constructor; [|done]. intros i0 c0 Hf.
      by rewrite Hfind in Hf.
    + right. exists ar', i', c'. split_and!; [by right|done..].
Qed.

Lemma validate_commands_spec r out :
  ((∀ c, ¬ dangling r c) ∧ _validate_commands (State r out) = Return tt (State r out))
  ∨ ∃ c, dangling r c
         ∧ _validate_commands (State r out) = Raise (unknown_command_error c) (State r out).
Proof.
  unfold _validate_commands, bind, get_root. cbn [root].
  destruct (validate_loop_spec (State r out) (findall_desc "active-response" r))
    as [[Hall Hrun]|([p ar] & i & c & Hin & Hfind & Hn & Hrun)].
  - left. split; [|done]. intros c (ar & i & Hin & Htag & Hfind & Hn).
    destruct (proj2 (inside_findall_desc "active-response" r ar)) as [p Hp]; [done|].
    rewrite Forall_forall in Hall. apply Hn. exact (Hall (p, ar) Hp i c Hfind).
  - right. exists c. split; [|done]. exists ar, i.
    destruct (proj1 (inside_findall_desc "active-response" r ar)) as [? ?]; eauto.
Qed.

Lemma init_spec r out :
  ∃ r' out', organize_ossec_config (State r out) = Return tt (State r' out')
    ∧ (((∀ c, ¬ dangling r c) ∧ init (State r out) = Return tt (State r' out'))
       ∨ ∃ c, dangling r c
              ∧ init (State r out) = Raise (unknown_command_error c) (State r' out')).
Proof.
  destruct (organize_keeps_elements r out) as (r' & out' & Hrun & Hsame).
  exists r', out'. split; [done|]. unfold init, bind. rewrite Hrun.
  destruct (validate_commands_spec r' out') as [[Hall Hv]|(c & Hc & Hv)].
  - left. split; [|done]. intros c Hc. apply (Hall c). by apply (dangling_same r r').
  - right. exists c. split; [|done]. by apply (dangling_same r r').
Qed.

End construction.

(** ** Construction, removal and update *)

Section references.

Example construction_rejects_unknown_command :
  init (State (Elem "root" None
                 [Elem "ossec_config" None
                    [active_response_node "host-deny" "local" None None None None None]]) [])
  = Raise (ValueError "Command 'host-deny' referenced in active response does not exist")
      (State (Elem "root" None
                [Elem "ossec_config" None
                   [active_response_node "host-deny" "local" None None None None None]])
             ["No extra ossec_config blocks to combine."]).
Proof. reflexivity. Qed.

Lemma has_active_response_found r command :
  has_active_response r (Some command) →
  ∃ p ar, List.find (fun pe => child_text_is "command" (Some command) pe.2)
                    (findall_desc "active-response" r) = Some (p, ar)
          ∧ p ≠ [] ∧ get_at p r = Some ar ∧ has_tag "active-response" ar = true
          ∧ child_text_is "command" (Some command) ar = true.
Proof.
  intros (p0 & ar0 & Hin0 & Hc0).
  destruct (List.find _ _) as [[p ar]|] eqn:Hfind.
  - exists p, ar. split; [done|].
    apply list_find_some_elem in Hfind as [(? & ? & ?)%elem_of_findall_desc ?]. done.
  - pose proof (list_find_none_elem _ _ Hfind (p0, ar0) Hin0) as Hn.
    simpl in Hn. congruence.
Qed.

(** [remove_active_response] finds the element anywhere in the document
    but asks the root to drop it: unless the element is a direct child of
    the root, the call raises. *)
Lemma remove_active_response_nested r out command :
  has_active_response r (Some command) → no_top_level_response r command →
  remove_active_response command (State r out)
  = Raise (ValueError "list.remove(x): x not in list") (State r out).
Proof.
  intros (p & ar & Hfind & Hp & Hget & Htag & Hc)%has_active_response_found Htop.
  unfold remove_active_response, bind at 1, get_root. cbn [root]. rewrite Hfind.
  destruct p as [|j [|k p]]; [done| |reflexivity].
  exfalso. simpl in Hget. destruct (children r !! j) as [e|] eqn:Hj; [|done].
  injection Hget as ->. specialize (Htop j ar Hj Htag). congruence.
Qed.

(** C2 fails on the code: with an active response for [command] in the
    document, a [level] whose string is not an integer literal makes
    [update_active_response] raise [ValueError] out of [int] instead of
    returning [False]. *)
Theorem update_level_not_a_number_raises command s rest st :
  has_active_response (root st) (Some command) →
  PyInt.parse s = None →
  update_active_response command (("level", VStr s) :: rest) st
  = Raise (ValueError "invalid literal for int() with base 10") st.
Proof.
  intros (p & ar & Hfind & _)%has_active_response_found Hparse.
  unfold update_active_response, bind at 1, get_root. rewrite Hfind.
  unfold bind at 1. cbn [apply_updates]. unfold bind at 1, fails.
  cbn [String.eqb Ascii.eqb Bool.eqb]. unfold bind at 1, py_int. by rewrite Hparse.
Qed.

Lemma update_level_not_a_number_raises_witness :
  update_active_response "host-deny" [("level", VStr "abc")] (State guarded_document [])
  = Raise (ValueError "invalid literal for int() with base 10") (State guarded_document []).
Proof.
  apply (update_level_not_a_number_raises "host-deny" "abc" [] (State guarded_document [])).
  - exists [0; 1]%nat, (active_response_node "host-deny" "local" None None None None None).
    split; [|reflexivity]. vm_compute. repeat constructor.
  - reflexivity.
Defined.

(** The removals share the defect: each looks the element up at any depth
    and asks the root to drop it. *)
Example removals_of_nested_elements_raise :
  remove_command "host-deny" (State guarded_document [])
  = Raise (ValueError "list.remove(x): x not in list") (State guarded_document [])
  ∧ remove_active_response "host-deny" (State guarded_document [])
    = Raise (ValueError "list.remove(x): x not in list") (State guarded_document [])
  ∧ remove_integration "slack" None
      (State (Elem "root" None
                [Elem "ossec_config" None
                   [Elem "integration" None [leaf "name" "slack"]]]) [])
    = Raise (ValueError "list.remove(x): x not in list")
        (State (Elem "root" None
                  [Elem "ossec_config" None
                     [Elem "integration" None [leaf "name" "slack"]]]) []).
Proof. split_and!; reflexivity. Qed.

(** An integer literal is accepted whether it comes as a string or as a
    number. *)
Example update_level_from_string :
  update_active_response "host-deny" [("level", VStr "12")] (State guarded_document [])
  = Return true
      (State (Elem "root" None
                [Elem "ossec_config" None
                   [command_node "host-deny" "host-deny" true;
                    Elem "active-response" None
                      [leaf "command" "host-deny"; leaf "location" "local";
                       leaf "level" "12"]]])
             ["Active response for command 'host-deny' has been updated."]).
Proof. reflexivity. Qed.

(** C9: [update_active_response] checks a field only when it reaches it.
    On a document with an active response for [host-deny], an update that
    puts a timeout before an invalid level, rules group or rules id
    returns [False], and the timeout written before the check failed
    stays in the document. *)
Theorem update_active_response_partial_write :
  let st := State guarded_document [] in
  let written :=
    Elem "root" None
      [Elem "ossec_config" None
         [command_node "host-deny" "host-deny" true;
          Elem "active-response" None
            [leaf "command" "host-deny"; leaf "location" "local"; leaf "timeout" "60"]]] in
  written ≠ root st
  ∧ update_active_response "host-deny" [("timeout", VInt 60); ("level", VInt 99)] st
    = Return false (State written ["Invalid level value: 99. Must be between 1 and 16."])
  ∧ update_active_response "host-deny"
      [("timeout", VInt 60); ("rules_group", VStr "authentication_failure")] st
    = Return false (State written
        ["Invalid rules group format. Groups must end with comma and be pipe-separated."])
  ∧ update_active_response "host-deny"
      [("timeout", VInt 60); ("rules_id", VStr "1001,abc")] st
    = Return false (State written
        ["Invalid rules ID format. IDs must be numeric and comma-separated."]).
Proof. cbn zeta. split_and!; [done|reflexivity..]. Qed.

End references.

(** ** The command list and the scenario *)

Section listing.

Lemma find_after_modify t f r i oc :
  find t r = Some (i, oc) → tag (f oc) = tag oc →
  find t (modify_at f [i] r) = Some (i, f oc).
Proof.
  intros (pre & rest & Hcs & -> & Hpre & Htag)%find_spec Hf.
  unfold find, findall. cbn [modify_at children]. rewrite Hcs, alter_middle.
  rewrite children_from_app, children_from_none by done.
  cbn [app children_from]. unfold has_tag in *. by rewrite Hf, Htag.
Qed.

Lemma lookup_map {A B} (f : A → B) l k : map f l !! k = f <$> l !! k.
Proof. revert k. induction l as [|x l IH]; intros [|k]; simpl; auto. Qed.

(** C10: [get_commands] returns one mapping per [command] element found
    at any depth.  A childless [command] element that is a child of an
    active response is among the elements found, at its own position, and
    the mapping returned at that place is empty; the test [command_exists]
    makes is false on such an element whatever the name, so a command it
    reports as existing is always another element. *)
Theorem get_commands_lists_response_fields st p ar i l :
  (p, ar) ∈ findall_desc "active-response" (root st) →
  children ar !! i = Some l → has_tag "command" l = true → children l = [] →
  ∃ entries k,
    get_commands st = Return entries st
    ∧ length entries = length (findall_desc "command" (root st))
    ∧ findall_desc "command" (root st) !! k = Some (p ++ [i], l)
    ∧ entries !! k = Some ∅
    ∧ (∀ name, child_text_is "name" name l = false)
    ∧ (∀ name, command_exists name st = Return true st →
         ∃ q c, (q, c) ∈ findall_desc "command" (root st)
                ∧ q ≠ p ++ [i] ∧ child_text_is "name" name c = true).
Proof.
  intros (Hp & Hget & Htag)%elem_of_findall_desc Hi Hl Hleaf.
  assert ((p ++ [i], l) ∈ findall_desc "command" (root st)) as Hin.
  { apply elem_of_findall_desc. split; [by destruct p|]. split; [|done].
    by rewrite get_at_snoc, Hget. }
  assert (∀ name, child_text_is "name" name l = false) as Hno.
  { intros name. unfold child_text_is, find, findall. by rewrite Hleaf. }
  apply list_elem_of_lookup_1 in Hin as [k Hk].
  eexists _, k. split; [reflexivity|]. split_and!.
  - by rewrite length_map.
  - done.
  - rewrite lookup_map. unfold path in *. rewrite Hk. cbn.
    unfold element_info. by rewrite Hleaf.
  - done.
  - intros name Hexists.
    destruct (command_exists_spec name st) as (b & Hrun & Hb).
    rewrite Hrun in Hexists. injection Hexists as ->.
    destruct (proj1 Hb eq_refl) as (q & c & Hqc & Hc).
    exists q, c. split_and!; [done| |done]. intros ->.
    apply elem_of_findall_desc in Hqc as (_ & Hq & _).
    rewrite get_at_snoc, Hget, Hi in Hq. injection Hq as <-.
    by rewrite Hno in Hc.
Qed.

Lemma get_commands_lists_response_fields_witness :
  ∃ entries k,
    get_commands (State guarded_document []) = Return entries (State guarded_document [])
    ∧ length entries = length (findall_desc "command" guarded_document)
    ∧ findall_desc "command" guarded_document !! k
      = Some ([0; 1] ++ [0], leaf "command" "host-deny")%nat
    ∧ entries !! k = Some ∅
    ∧ (∀ name, child_text_is "name" name (leaf "command" "host-deny") = false)
    ∧ (∀ name, command_exists name (State guarded_document [])
               = Return true (State guarded_document []) →
         ∃ q c, (q, c) ∈ findall_desc "command" guarded_document
                ∧ q ≠ ([0; 1] ++ [0])%nat ∧ child_text_is "name" name c = true).
Proof.
  apply (get_commands_lists_response_fields (State guarded_document []) [0; 1]%nat
           (active_response_node "host-deny" "local" None None None None None)
           0%nat (leaf "command" "host-deny")).
  - vm_compute. repeat constructor.
  - reflexivity.
  - reflexivity.
  - reflexivity.
Defined.

Example get_commands_on_guarded_document :
  get_commands (State guarded_document [])
  = Return [element_info (command_node "host-deny" "host-deny" true); ∅]
           (State guarded_document []).
Proof. reflexivity. Qed.

End listing.

Section scenario.

Lemma elem_of_map {A B} (f : A → B) l y : y ∈ map f l ↔ ∃ x, y = f x ∧ x ∈ l.
Proof.
  rewrite list_elem_of_In, in_map_iff. split.
  - intros (x & <- & Hx). exists x. split; [done|by apply list_elem_of_In].
  - intros (x & -> & Hx). exists x. split; [done|by apply list_elem_of_In].
Qed.

(** The document after a command and then an active response have been
    appended to its container. *)
Lemma both_appended r i oc cmd arn :
  children r !! i = Some oc →
  let r2 := modify_at (append arn) [i] (modify_at (append cmd) [i] r) in
  children r2 = alter (extend [cmd; arn]) i (children r)
  ∧ get_at ([i] ++ [length (children oc)]) r2 = Some cmd
  ∧ get_at ([i] ++ [S (length (children oc))]) r2 = Some arn.
Proof.
  intros Hi r2.
  assert (r2 = modify_at (extend [cmd; arn]) [i] r) as ->.
  { subst r2. rewrite modify_at_compose. apply modify_at_ext. intros e _.
    unfold compose. by rewrite !append_extend, extend_extend. }
  assert (get_at [i] r = Some oc) as Hget by (simpl; by rewrite Hi).
  split; [reflexivity|].
  rewrite !get_at_snoc, (get_at_modify_at _ _ _ oc) by done.
  cbn [extend children]. split.
  - rewrite lookup_app_r by done. by rewrite Nat.sub_diag.
  - rewrite lookup_app_r by lia. by replace (S _ - _)%nat with 1%nat by lia.
Qed.

(** A document that passed the check at construction has no active
    response, under the root or deeper, for a name that names no command. *)
Lemma checked_no_top_level_response r command :
  (∀ c, ¬ dangling r c) → ¬ names_command r (Some command) →
  no_top_level_response r command.
Proof.
  intros Hchecked Hfresh j e Hj Htag.
  destruct (child_text_is "command" (Some command) e) eqn:Hc; [exfalso|done].
  unfold child_text_is in Hc.
  destruct (find "command" e) as [[i c]|] eqn:Hfind; [|done].
  apply bool_decide_eq_true in Hc. apply (Hchecked c). exists e, i.
  split_and!; [|done|done|by rewrite Hc].
  exists [j]. split; [done|]. simpl. by rewrite Hj.
Qed.

(** C1 fails on the code at its last step.  On a document with an
    ossec_config block, no command named [custom-block] and no active
    response for that name directly under the root, the two additions
    return [True] and both entities are listed, but
    [remove_active_response] raises [ValueError]: it asks the root to drop
    an element that is a child of the block, and the active response
    stays in the document. *)
Theorem scenario_remove_raises st i oc :
  find "ossec_config" (root st) = Some (i, oc) →
  ¬ names_command (root st) (Some "custom-block") →
  no_top_level_response (root st) "custom-block" →
  ∃ s1 s2 commands responses,
    add_command "custom-block" "custom-block.sh" true st = Return true s1
    ∧ add_active_response "custom-block" "local" (Some 10) (Some 300) None None
        (Some "1001,1002,1003") s1 = Return true s2
    ∧ get_commands s2 = Return commands s2
    ∧ element_info (command_node "custom-block" "custom-block.sh" true) ∈ commands
    ∧ get_active_responses s2 = Return responses s2
    ∧ element_info (active_response_node "custom-block" "local" (Some 10) (Some 300)
                      None None (Some "1001,1002,1003")) ∈ responses
    ∧ remove_active_response "custom-block" s2
      = Raise (ValueError "list.remove(x): x not in list") s2.
Proof.
  destruct st as [r out]. cbn [root]. intros Hfind Hfresh Htop.
  set (cmd := command_node "custom-block" "custom-block.sh" true).
  set (arn := active_response_node "custom-block" "local" (Some 10) (Some 300)
                None None (Some "1001,1002,1003")).
  pose proof (find_lookup _ _ _ _ Hfind) as [Hi Hoc].
  assert (find "ossec_config" (modify_at (append cmd) [i] r) = Some (i, append cmd oc))
    as Hfind1 by by apply find_after_modify.
  assert (¬ ar_rejected (modify_at (append cmd) [i] r) "custom-block" "local" (Some 10)
            None None (Some "1001,1002,1003")) as Hok.
  { intros [H|[H|[[H _]|[(l & [= <-] & H)|[(g & [=] & _)|(x & [= <-] & H)]]]]].
    - apply H. by apply (names_command_added _ _ _ _ _ oc).
    - apply H. repeat constructor.
    - done.
    - lia.
    - vm_compute in H. done. }
  destruct (both_appended r i oc cmd arn Hi) as (Hcs & Hcmd & Harn).
  eexists _, _, _, _. split_and!.
  - by apply (add_command_fresh _ _ _ _ _ i oc).
  - by apply (add_active_response_accepted _ _ _ _ _ _ _ _ _ i (append cmd oc)).
  - reflexivity.
  - cbn [root]. apply elem_of_map.
    exists ([i] ++ [length (children oc)], cmd). split; [done|].
    apply elem_of_findall_desc. done.
  - reflexivity.
  - cbn [root]. apply elem_of_map.
    exists ([i] ++ [S (length (children oc))], arn). split; [done|].
    apply elem_of_findall_desc. done.
  - apply remove_active_response_nested.
    + exists ([i] ++ [S (length (children oc))]), arn. split; [|reflexivity].
      apply elem_of_findall_desc. done.
    + intros j e Hj Htag. fold cmd arn in Hj. rewrite Hcs in Hj.
      destruct (decide (i = j)) as [<-|Hne].
      * rewrite list_lookup_alter_eq, Hi in Hj. injection Hj as <-.
        unfold has_tag in *. cbn [extend tag] in Htag.
        apply String.eqb_eq in Hoc. rewrite Hoc in Htag. done.
      * rewrite list_lookup_alter_ne in Hj by done. by apply (Htop j).
Qed.

Lemma scenario_remove_raises_witness :
  ∃ s1 s2 commands responses,
    add_command "custom-block" "custom-block.sh" true (State empty_document [])
    = Return true s1
    ∧ add_active_response "custom-block" "local" (Some 10) (Some 300) None None
        (Some "1001,1002,1003") s1 = Return true s2
    ∧ get_commands s2 = Return commands s2
    ∧ element_info (command_node "custom-block" "custom-block.sh" true) ∈ commands
    ∧ get_active_responses s2 = Return responses s2
    ∧ element_info (active_response_node "custom-block" "local" (Some 10) (Some 300)
                      None None (Some "1001,1002,1003")) ∈ responses
    ∧ remove_active_response "custom-block" s2
      = Raise (ValueError "list.remove(x): x not in list") s2.
Proof.
  apply (scenario_remove_raises (State empty_document []) 0%nat
           (Elem "ossec_config" None [])).
  - reflexivity.
  - intros (p & c & Hin & _). vm_compute in Hin. by apply elem_of_nil in Hin.
  - intros [|[|j]] e Hj Htag; simpl in Hj; [|done..].
    injection Hj as <-. done.
Defined.

Example scenario_on_empty_document :
  (add_command "custom-block" "custom-block.sh" true;;
   add_active_response "custom-block" "local" (Some 10) (Some 300) None None
     (Some "1001,1002,1003");;
   remove_active_response "custom-block") (State empty_document [])
  = Raise (ValueError "list.remove(x): x not in list")
      (State (Elem "root" None
                [Elem "ossec_config" None
                   [command_node "custom-block" "custom-block.sh" true;
                    active_response_node "custom-block" "local" (Some 10) (Some 300)
                      None None (Some "1001,1002,1003")]])
             ["New command 'custom-block' has been added.";
              "New active response for command 'custom-block' has been added."]).
Proof. reflexivity. Qed.

End scenario.
(** * The remaining methods *)

(** ** Removing by name *)

Section removals.

Lemma find_first_match (test : Element → bool) found p e :
  List.find (fun pe : path * Element => test pe.2) found = Some (p, e)
  ↔ first_match test found p e.
Proof.
  split.
  - induction found as [|[q x] found IH]; [done|]. cbn [List.find fst snd].
    destruct (test x) eqn:Hx.
    + intros [= -> ->]. by exists [], found.
    + intros (before & after & -> & Hbefore & He)%IH.
      exists ((q, x) :: before), after. split; [done|]. split; [by constructor|done].
  - intros (before & after & -> & Hbefore & He).
    induction Hbefore as [|[q x] before Hx _ IH]; cbn [app List.find fst snd] in *.
    + by rewrite He.
    + by rewrite Hx.
Qed.

Lemma first_match_unique test found p e p' e' :
  first_match test found p e → first_match test found p' e' → p = p' ∧ e = e'.
Proof. intros H%find_first_match H'%find_first_match. split; congruence. Qed.

Lemma first_match_elem test found p e :
  first_match test found p e → (p, e) ∈ found ∧ test e = true.
Proof.
  intros (before & after & -> & _ & He). split; [|done].
  apply elem_of_app. right. apply list_elem_of_here.
Qed.

Lemma no_match_find (test : Element → bool) found :
  (∀ p e, (p, e) ∈ found → test e = false) →
  List.find (fun pe : path * Element => test pe.2) found = None.
Proof.
  intros Hnone. destruct (List.find _ _) as [[p e]|] eqn:Hfind; [|done].
  apply list_find_some_elem in Hfind as [Hin He]. cbn in He.
  by rewrite (Hnone p e Hin) in He.
Qed.

Lemma first_match_cases test found :
  (∀ p e, (p, e) ∈ found → test e = false) ∨ (∃ p e, first_match test found p e).
Proof.
  destruct (List.find (fun pe : path * Element => test pe.2) found) as [[p e]|] eqn:Hfind.
  - right. exists p, e. by apply find_first_match.
  - left. intros p e Hin. exact (list_find_none_elem _ _ Hfind (p, e) Hin).
Qed.

(** The three removals share one shape: look the first match up among all
    descendants, then ask the root to drop it.  The outcome is fixed by
    where that first match lies. *)
Lemma remove_first_outcomes t (test : Element → bool) m1 m2 r out :
  let run :=
    (match List.find (fun pe : path * Element => test pe.2) (findall_desc t r) with
     | Some (x, _) => root_remove x;; print m1;; ret true
     | None => print m2;; ret false
     end) (State r out) in
  ((∀ p e, (p, e) ∈ findall_desc t r → test e = false) →
     run = Return false (State r (out ++ [m2])))
  ∧ (∀ j e, first_match test (findall_desc t r) [j] e →
       children r !! j = Some e
       ∧ run = Return true (State (remove_child j r) (out ++ [m1])))
  ∧ (∀ p e, first_match test (findall_desc t r) p e → (2 ≤ length p)%nat →
       get_at p r = Some e ∧ run = Raise not_a_child_error (State r out))
  ∧ ((∀ p e, (p, e) ∈ findall_desc t r → test e = false)
     ∨ (∃ j e, first_match test (findall_desc t r) [j] e)
     ∨ (∃ p e, first_match test (findall_desc t r) p e ∧ (2 ≤ length p)%nat)).
Proof.
  intros run. subst run. split_and!.
  - intros Hnone. by rewrite no_match_find.
  - intros j e Hfirst. pose proof (first_match_elem _ _ _ _ Hfirst) as [Hin _].
    apply elem_of_findall_desc in Hin as (_ & Hget & _). simpl in Hget.
    destruct (children r !! j) as [c|] eqn:Hj; [|done]. injection Hget as ->.
    split; [done|]. apply find_first_match in Hfirst. rewrite Hfirst.
    unfold bind at 1, root_remove, bind at 1, get_root. cbn [root].
    rewrite decide_True by by eapply lookup_lt_Some. reflexivity.
  - intros p e Hfirst Hlen. pose proof (first_match_elem _ _ _ _ Hfirst) as [Hin _].
    apply elem_of_findall_desc in Hin as (_ & Hget & _). split; [done|].
    apply find_first_match in Hfirst. rewrite Hfirst.
    destruct p as [|j [|k q]]; [simpl in Hlen; lia..|reflexivity].
  - destruct (first_match_cases test (findall_desc t r)) as [Hnone|(p & e & Hfirst)];
      [by left|right].
    pose proof (first_match_elem _ _ _ _ Hfirst) as [Hin _].
    apply elem_of_findall_desc in Hin as (Hp & _ & _).
    destruct p as [|j [|k q]]; [done|left; by exists j, e|right].
    exists (j :: k :: q), e. split; [done|]. simpl. lia.
Qed.

(** X1: the outcome of [remove_command] is fixed by the first command
    element, in document order, whose name child carries the name.  With
    no such command it prints and returns [False], the document
    unchanged.  When the first one is a direct child of the root, that
    child is deleted and [True] returned.  When the first one lies
    deeper, as every command of an ossec_config block does, the call
    raises [ValueError] and the document is unchanged, even if a later
    match is a direct child of the root.  One of the three cases always
    holds. *)
Theorem remove_command_outcomes name r out :
  ((∀ p e, (p, e) ∈ findall_desc "command" r → child_text_is "name" (Some name) e = false) →
     remove_command name (State r out)
     = Return false (State r (out ++ ["No command found with name '" +:+ name +:+ "'."])))
  ∧ (∀ j e, first_match (child_text_is "name" (Some name)) (findall_desc "command" r) [j] e →
       children r !! j = Some e
       ∧ remove_command name (State r out)
         = Return true (State (remove_child j r)
             (out ++ ["Command '" +:+ name +:+ "' has been removed."])))
  ∧ (∀ p e, first_match (child_text_is "name" (Some name)) (findall_desc "command" r) p e →
       (2 ≤ length p)%nat →
       get_at p r = Some e
       ∧ remove_command name (State r out) = Raise not_a_child_error (State r out))
  ∧ ((∀ p e, (p, e) ∈ findall_desc "command" r →
             child_text_is "name" (Some name) e = false)
     ∨ (∃ j e, first_match (child_text_is "name" (Some name))
                 (findall_desc "command" r) [j] e)
     ∨ (∃ p e, first_match (child_text_is "name" (Some name))
                 (findall_desc "command" r) p e ∧ (2 ≤ length p)%nat)).
Proof.
  exact (remove_first_outcomes "command" (child_text_is "name" (Some name))
           ("Command '" +:+ name +:+ "' has been removed.")
           ("No command found with name '" +:+ name +:+ "'.") r out).
Qed.

(** X2: the outcome of [remove_active_response] is fixed by the first
    active-response element, in document order, whose command child
    carries the command: [False] and no change when there is none,
    [True] with that child of the root deleted when it is a direct child
    of the root, [ValueError] with the document unchanged when it is
    nested, whatever matches come after it.  One of the three cases
    always holds. *)
Theorem remove_active_response_outcomes command r out :
  ((∀ p e, (p, e) ∈ findall_desc "active-response" r →
           child_text_is "command" (Some command) e = false) →
     remove_active_response command (State r out)
     = Return false (State r
         (out ++ ["No active response found for command '" +:+ command +:+ "'."])))
  ∧ (∀ j e, first_match (child_text_is "command" (Some command))
              (findall_desc "active-response" r) [j] e →
       children r !! j = Some e
       ∧ remove_active_response command (State r out)
         = Return true (State (remove_child j r)
             (out ++ ["Active response for command '" +:+ command
                      +:+ "' has been removed."])))
  ∧ (∀ p e, first_match (child_text_is "command" (Some command))
              (findall_desc "active-response" r) p e →
       (2 ≤ length p)%nat →
       get_at p r = Some e
       ∧ remove_active_response command (State r out)
         = Raise not_a_child_error (State r out))
  ∧ ((∀ p e, (p, e) ∈ findall_desc "active-response" r →
             child_text_is "command" (Some command) e = false)
     ∨ (∃ j e, first_match (child_text_is "command" (Some command))
                 (findall_desc "active-response" r) [j] e)
     ∨ (∃ p e, first_match (child_text_is "command" (Some command))
                 (findall_desc "active-response" r) p e ∧ (2 ≤ length p)%nat)).
Proof.
  exact (remove_first_outcomes "active-response" (child_text_is "command" (Some command))
           ("Active response for command '" +:+ command +:+ "' has been removed.")
           ("No active response found for command '" +:+ command +:+ "'.") r out).
Qed.

(** X3: the outcome of [remove_integration] is fixed by the first
    integration element, in document order, whose name matches and whose
    hook url matches when one is given: [False] and no change when there
    is none, [True] with that child of the root deleted when it is a
    direct child of the root, [ValueError] with the document unchanged
    when it is nested, whatever matches come after it.  One of the three
    cases always holds. *)
Theorem remove_integration_outcomes name hook_url r out :
  ((∀ p e, (p, e) ∈ findall_desc "integration" r →
           integration_matches name hook_url e = false) →
     remove_integration name hook_url (State r out)
     = Return false (State r
         (out ++ ["No integration found with name '" +:+ name +:+ "' and hook_url '"
                  +:+ fmt hook_url +:+ "'."])))
  ∧ (∀ j e, first_match (integration_matches name hook_url)
              (findall_desc "integration" r) [j] e →
       children r !! j = Some e
       ∧ remove_integration name hook_url (State r out)
         = Return true (State (remove_child j r)
             (out ++ ["Integration with name '" +:+ name +:+ "' and hook_url '"
                      +:+ fmt hook_url +:+ "' has been removed."])))
  ∧ (∀ p e, first_match (integration_matches name hook_url)
              (findall_desc "integration" r) p e →
       (2 ≤ length p)%nat →
       get_at p r = Some e
       ∧ remove_integration name hook_url (State r out)
         = Raise not_a_child_error (State r out))
  ∧ ((∀ p e, (p, e) ∈ findall_desc "integration" r →
             integration_matches name hook_url e = false)
     ∨ (∃ j e, first_match (integration_matches name hook_url)
                 (findall_desc "integration" r) [j] e)
     ∨ (∃ p e, first_match (integration_matches name hook_url)
                 (findall_desc "integration" r) p e ∧ (2 ≤ length p)%nat)).
Proof.
  exact (remove_first_outcomes "integration" (integration_matches name hook_url)
           ("Integration with name '" +:+ name +:+ "' and hook_url '"
            +:+ fmt hook_url +:+ "' has been removed.")
           ("No integration found with name '" +:+ name +:+ "' and hook_url '"
            +:+ fmt hook_url +:+ "'.") r out).
Qed.

Example remove_top_level_command :
  remove_command "host-deny"
    (State (Elem "root" None
              [Elem "ossec_config" None []; command_node "host-deny" "host-deny" true]) [])
  = Return true (State empty_document ["Command 'host-deny' has been removed."]).
Proof. reflexivity. Qed.

(** A nested match that comes first decides: the later match at the top
    level is not looked at. *)
Example remove_command_nested_first :
  let r := Elem "root" None
             [Elem "ossec_config" None [command_node "x" "x.sh" true];
              command_node "x" "x.sh" true] in
  remove_command "x" (State r []) = Raise not_a_child_error (State r []).
Proof. reflexivity. Qed.

End removals.

(** ** Updating the children of an element *)

Section updates.

Lemma tag_set_child t v e : tag (set_child t v e) = tag e.
Proof. unfold set_child. by destruct (find t e) as [[i c]|]. Qed.

Lemma text_set_child t v e : text (set_child t v e) = text e.
Proof. unfold set_child. by destruct (find t e) as [[i c]|]. Qed.

Lemma find_middle t pre c rest tg x :
  Forall (fun c => has_tag t c = false) pre → has_tag t c = true →
  find t (Elem tg x (pre ++ c :: rest)) = Some (length pre, c).
Proof.
  intros Hpre Hc. unfold find, findall. cbn [children].
  rewrite children_from_app, children_from_none by done. simpl. by rewrite Hc.
Qed.

Lemma child_text_set_same t v e : child_text t (set_child t v e) = Some v.
Proof.
  unfold set_child, child_text.
  destruct (find t e) as [[i c]|] eqn:Hfind.
  - apply find_spec in Hfind as (pre & rest & Hcs & -> & Hpre & Hc).
    rewrite Hcs, alter_middle, (find_middle _ _ (set_text v c)); done.
  - apply find_absent in Hfind. unfold extend.
    by rewrite (find_middle _ _ (leaf t v) []) by (done || apply String.eqb_refl).
Qed.

Lemma children_from_skip t k pre c rest :
  has_tag t c = false →
  children_from t k (pre ++ c :: rest)
  = children_from t k pre ++ children_from t (S (k + length pre)) rest.
Proof. intros Hc. rewrite children_from_app. simpl. by rewrite Hc. Qed.

Lemma child_text_set_other t t' v e :
  t' ≠ t → child_text t' (set_child t v e) = child_text t' e.
Proof.
  intros Hne. unfold set_child, child_text.
  assert (∀ c, has_tag t c = true → has_tag t' c = false) as Hother.
  { intros c Hc. unfold has_tag in *. apply String.eqb_eq in Hc.
    apply String.eqb_neq. congruence. }
  destruct (find t e) as [[i c]|] eqn:Hfind.
  - apply find_spec in Hfind as (pre & rest & Hcs & -> & Hpre & Hc).
    unfold find, findall. cbn [children]. rewrite Hcs, alter_middle.
    rewrite !children_from_skip; [done|by apply Hother|by apply Hother].
  - unfold find, findall, extend. cbn [children].
    rewrite children_from_app. simpl. rewrite (Hother (leaf t v)) by apply String.eqb_refl.
    by rewrite app_nil_r.
Qed.

Lemma set_children_cons t v items e :
  set_children ((t, v) :: items) e = set_children items (set_child t v e).
Proof. reflexivity. Qed.

Lemma child_text_untouched items t e :
  t ∉ items.*1 → child_text t (set_children items e) = child_text t e.
Proof.
  revert e. induction items as [|[t0 v0] items IH]; intros e Ht; [done|].
  cbn [fmap list_fmap fst] in Ht. apply not_elem_of_cons in Ht as [Hne Ht].
  rewrite set_children_cons.
  rewrite IH by done. by apply child_text_set_other.
Qed.

Lemma child_text_reads_back items t v e :
  NoDup items.*1 → (t, v) ∈ items → child_text t (set_children items e) = Some v.
Proof.
  revert e. induction items as [|[t0 v0] items IH]; intros e Hnd Hin;
    [by apply elem_of_nil in Hin|].
  cbn [fmap list_fmap fst] in Hnd. apply NoDup_cons in Hnd as [Hfresh Hnd].
  rewrite set_children_cons.
  apply elem_of_cons in Hin as [[= -> ->]|Hin].
  - rewrite child_text_untouched by done. apply child_text_set_same.
  - by apply IH.
Qed.

Lemma tag_set_children items e : tag (set_children items e) = tag e.
Proof.
  revert e. induction items as [|[t0 v0] items IH]; intros e; [done|].
  rewrite set_children_cons.
  by rewrite IH, tag_set_child.
Qed.

Lemma write_child_eval {A} p t v r out e (k : M A) :
  get_at p r = Some e →
  (write_child p t v;; k) (State r out)
  = k (State (modify_at (set_child t v) p r) out).
Proof.
  intros He. unfold bind at 1, write_child, bind at 1, get_root. cbn [root].
  rewrite He. destruct (find t e) as [[i c]|] eqn:Hfind.
  - unfold assign_text, update_root. cbn [root stdout]. do 2 f_equal.
    rewrite modify_at_app. apply modify_at_ext. intros e' He'.
    assert (e' = e) as -> by congruence. unfold set_child. by rewrite Hfind.
  - unfold bind at 1. rewrite (SubElement_eval _ _ _ _ e) by done.
    unfold assign_text, update_root. cbn [root stdout]. do 2 f_equal.
    rewrite (modify_new_child _ _ _ e) by done. apply modify_at_ext. intros e' He'.
    assert (e' = e) as -> by congruence. unfold set_child. by rewrite Hfind.
Qed.

Lemma for_each_write {V} (f : V → string) (items : list (string * V)) p r out e :
  get_at p r = Some e →
  for_each items (fun item => write_child p item.1 (f item.2)) (State r out)
  = Return tt
      (State (modify_at (set_children (map (fun item => (item.1, f item.2)) items)) p r) out).
Proof.
  revert r e. induction items as [|[t v] items IH]; intros r e He.
  - cbn [for_each map]. unfold ret. by rewrite modify_at_id.
  - cbn [for_each]. rewrite (write_child_eval _ _ _ _ _ e) by done.
    rewrite (IH _ (set_child t (f v) e)) by by apply get_at_modify_at.
    by rewrite modify_at_compose.
Qed.

Lemma replace_at f p r e : get_at p r = Some e → modify_at f p r = modify_at (fun _ => f e) p r.
Proof. intros He. apply modify_at_ext. intros e' He'. congruence. Qed.

End updates.

Section update_methods.

Lemma written_keys updates : (written updates).*1 = updates.*1.
Proof.
  unfold written. induction updates as [|[t v] updates IH]; [done|].
  cbn [map fmap list_fmap fst]. f_equal. exact IH.
Qed.

Lemma elem_of_written updates t v : (t, v) ∈ updates → (t, py_str v) ∈ written updates.
Proof. intros H. apply elem_of_map. by exists (t, v). Qed.

Lemma names_command_found r name :
  names_command r (Some name) →
  ∃ p e, List.find (fun pe => child_text_is "name" (Some name) pe.2)
                   (findall_desc "command" r) = Some (p, e)
         ∧ (p, e) ∈ findall_desc "command" r
         ∧ child_text_is "name" (Some name) e = true.
Proof.
  intros (p0 & c0 & Hin0 & Hc0).
  destruct (List.find _ _) as [[p e]|] eqn:Hfind.
  - exists p, e. split; [done|]. by apply list_find_some_elem in Hfind as [? ?].
  - pose proof (list_find_none_elem _ _ Hfind (p0, c0) Hin0) as Hn.
    simpl in Hn. congruence.
Qed.

Lemma names_command_not_found r name :
  ¬ names_command r (Some name) →
  List.find (fun pe => child_text_is "name" (Some name) pe.2)
            (findall_desc "command" r) = None.
Proof.
  intros Hn. destruct (List.find _ _) as [[p e]|] eqn:Hfind; [|done].
  destruct Hn. apply list_find_some_elem in Hfind as [? ?]. by exists p, e.
Qed.

(** The element that replaces [e] after the items have been written reads
    back every key and keeps the first child of every other tag. *)
Lemma set_children_reads_back (items : list (string * string)) e :
  NoDup items.*1 →
  let e' := set_children items e in
  tag e' = tag e
  ∧ (∀ t v, (t, v) ∈ items → child_text t e' = Some v)
  ∧ (∀ t, t ∉ items.*1 → child_text t e' = child_text t e).
Proof.
  intros Hnd. split_and!.
  - apply tag_set_children.
  - intros t v Hin. by apply child_text_reads_back.
  - intros t Ht. by apply child_text_untouched.
Qed.

(** X4: for a mapping with plain, distinct keys, [update_command]
    returns [False] and changes nothing when no command has the name.
    Otherwise it returns [True] and writes into the first command
    element, in document order, whose name child carries the name, and
    into no other: that element keeps its place and its tag, every key of
    the mapping reads back the string of its value (a missing child
    having been created), and the first child of every other tag keeps
    its text.  A later command of the same name is left as it is. *)
Theorem update_command_reads_back name updates r out :
  plain_keys updates = true → NoDup updates.*1 →
  (¬ names_command r (Some name) →
     update_command name updates (State r out)
     = Return false (State r (out ++ ["No command found with name '" +:+ name +:+ "'."])))
  ∧ (∀ p e,
       first_match (child_text_is "name" (Some name)) (findall_desc "command" r) p e →
       ∃ e',
         get_at p r = Some e
         ∧ update_command name updates (State r out)
           = Return true (State (modify_at (fun _ => e') p r)
               (out ++ ["Command '" +:+ name +:+ "' has been updated."]))
         ∧ e' = set_children (written updates) e
         ∧ tag e' = tag e
         ∧ (∀ t v, (t, v) ∈ updates → child_text t e' = Some (py_str v))
         ∧ (∀ t, t ∉ updates.*1 → child_text t e' = child_text t e))
  ∧ (¬ names_command r (Some name)
     ∨ ∃ p e, first_match (child_text_is "name" (Some name))
                (findall_desc "command" r) p e).
Proof.
  intros _ Hnd. split_and!.
  - intros Hn. unfold update_command, bind at 1, get_root. cbn [root].
    by rewrite names_command_not_found.
  - intros p e Hfirst. pose proof (first_match_elem _ _ _ _ Hfirst) as [Hin _].
    apply elem_of_findall_desc in Hin as (_ & Hget & _).
    apply find_first_match in Hfirst.
    rewrite <- written_keys in Hnd.
    destruct (set_children_reads_back (written updates) e Hnd) as (Htag & Hread & Hkeep).
    exists (set_children (written updates) e). split_and!; [done| |done|done| |].
    + unfold update_command, bind at 1, get_root. cbn [root]. rewrite Hfirst.
      unfold bind at 1.
      rewrite (for_each_write py_str updates p r out e Hget).
      fold (written updates). by rewrite (replace_at _ _ _ e).
    + intros t v Hin'. by apply Hread, elem_of_written.
    + intros t Ht. apply Hkeep. by rewrite written_keys.
  - destruct (first_match_cases (child_text_is "name" (Some name))
                (findall_desc "command" r)) as [Hnone|Hsome]; [left|by right].
    intros (p & c & Hin & Hc). by rewrite (Hnone p c Hin) in Hc.
Qed.

Lemma update_command_reads_back_witness :
  let name := "host-deny" in
  let updates := [("executable", VStr "deny.sh"); ("extra_args", VInt 3)] in
  let r := Elem "root" None
             [Elem "ossec_config" None
                [command_node "host-deny" "host-deny" true;
                 command_node "host-deny" "second.sh" false]] in
  let out := @nil string in
  (¬ names_command r (Some name) →
     update_command name updates (State r out)
     = Return false (State r (out ++ ["No command found with name '" +:+ name +:+ "'."])))
  ∧ (∀ p e,
       first_match (child_text_is "name" (Some name)) (findall_desc "command" r) p e →
       ∃ e',
         get_at p r = Some e
         ∧ update_command name updates (State r out)
           = Return true (State (modify_at (fun _ => e') p r)
               (out ++ ["Command '" +:+ name +:+ "' has been updated."]))
         ∧ e' = set_children (written updates) e
         ∧ tag e' = tag e
         ∧ (∀ t v, (t, v) ∈ updates → child_text t e' = Some (py_str v))
         ∧ (∀ t, t ∉ updates.*1 → child_text t e' = child_text t e))
  ∧ (¬ names_command r (Some name)
     ∨ ∃ p e, first_match (child_text_is "name" (Some name))
                (findall_desc "command" r) p e).
Proof.
  intros name updates r out.
  apply (update_command_reads_back name updates r out).
  - reflexivity.
  - apply (bool_decide_unpack _). by vm_compute.
Defined.

(** With two commands of the name, the first one is written and the
    second one stays. *)
Example update_command_first_of_two :
  update_command "x" [("executable", VStr "new.sh")]
    (State (Elem "root" None
              [Elem "ossec_config" None
                 [command_node "x" "one.sh" true; command_node "x" "two.sh" true]]) [])
  = Return true
      (State (Elem "root" None
                [Elem "ossec_config" None
                   [command_node "x" "new.sh" true; command_node "x" "two.sh" true]])
             ["Command 'x' has been updated."]).
Proof. reflexivity. Qed.

Lemma list_find_exists {A} (f : A → bool) l x :
  x ∈ l → f x = true → ∃ y, List.find f l = Some y ∧ y ∈ l ∧ f y = true.
Proof.
  intros Hin Hx. destruct (List.find f l) as [y|] eqn:Hfind.
  - exists y. split; [done|]. by apply list_find_some_elem.
  - rewrite (list_find_none_elem _ _ Hfind x Hin) in Hx. done.
Qed.

Lemma list_find_absent {A} (f : A → bool) l :
  (∀ x, x ∈ l → f x = false) → List.find f l = None.
Proof.
  intros H. destruct (List.find f l) as [y|] eqn:Hfind; [|done].
  apply list_find_some_elem in Hfind as [Hin Hy]. by rewrite (H y Hin) in Hy.
Qed.

Lemma map_pair_eta {A B} (l : list (A * B)) : map (fun item => (item.1, item.2)) l = l.
Proof. induction l as [|[a b] l IH]; [done|]. simpl. by rewrite IH. Qed.

(** X5: for a mapping with plain, distinct keys, [update_integration]
    returns [False] and changes nothing when no integration matches the
    name (and the hook url, when one is given).  Otherwise it returns
    [True] and writes into the first integration element, in document
    order, that matches, and into no other: that element keeps its place
    and its tag, every key of the mapping reads back its value, and the
    first child of every other tag keeps its text. *)
Theorem update_integration_reads_back name updates hook_url r out :
  plain_keys updates = true → NoDup updates.*1 →
  (¬ has_integration r name hook_url →
     update_integration name updates hook_url (State r out)
     = Return false (State r
         (out ++ ["No integration found with name '" +:+ name +:+ "' and hook_url '"
                  +:+ fmt hook_url +:+ "'."])))
  ∧ (∀ p e,
       first_match (integration_matches name hook_url) (findall_desc "integration" r) p e →
       ∃ e',
         get_at p r = Some e
         ∧ update_integration name updates hook_url (State r out)
           = Return true (State (modify_at (fun _ => e') p r)
               (out ++ ["Integration with name '" +:+ name +:+ "' and hook_url '"
                        +:+ fmt hook_url +:+ "' has been updated."]))
         ∧ e' = set_children updates e
         ∧ tag e' = tag e
         ∧ (∀ t v, (t, v) ∈ updates → child_text t e' = Some v)
         ∧ (∀ t, t ∉ updates.*1 → child_text t e' = child_text t e))
  ∧ (¬ has_integration r name hook_url
     ∨ ∃ p e, first_match (integration_matches name hook_url)
                (findall_desc "integration" r) p e).
Proof.
  intros _ Hnd. split_and!.
  - intros Hn. unfold update_integration, bind at 1, get_root. cbn [root].
    rewrite no_match_find; [done|]. intros p e Hin.
    destruct (integration_matches name hook_url e) eqn:Hm; [|done].
    destruct Hn. by exists p, e.
  - intros p e Hfirst. pose proof (first_match_elem _ _ _ _ Hfirst) as [Hin _].
    apply elem_of_findall_desc in Hin as (_ & Hget & _).
    apply find_first_match in Hfirst.
    destruct (set_children_reads_back updates e Hnd) as (Htag & Hread & Hkeep).
    exists (set_children updates e). split_and!; [done| |done..].
    unfold update_integration, bind at 1, get_root. cbn [root]. rewrite Hfirst.
    unfold bind at 1.
    rewrite (for_each_write (fun v : string => v) updates p r out e Hget).
    by rewrite map_pair_eta, (replace_at _ _ _ e).
  - destruct (first_match_cases (integration_matches name hook_url)
                (findall_desc "integration" r)) as [Hnone|Hsome]; [left|by right].
    intros (p & c & Hin & Hc). by rewrite (Hnone p c Hin) in Hc.
Qed.

Lemma update_integration_reads_back_witness :
  let name := "slack" in
  let hook_url := @None string in
  let r := Elem "root" None
             [Elem "ossec_config" None
                [Elem "integration" None [leaf "name" "slack"; leaf "level" "3"];
                 Elem "integration" None [leaf "name" "slack"; leaf "level" "5"]]] in
  let updates := [("level", "12"); ("hook_url", "https://hooks.example/abc")] in
  let out := @nil string in
  (¬ has_integration r name hook_url →
     update_integration name updates hook_url (State r out)
     = Return false (State r
         (out ++ ["No integration found with name '" +:+ name +:+ "' and hook_url '"
                  +:+ fmt hook_url +:+ "'."])))
  ∧ (∀ p e,
       first_match (integration_matches name hook_url) (findall_desc "integration" r) p e →
       ∃ e',
         get_at p r = Some e
         ∧ update_integration name updates hook_url (State r out)
           = Return true (State (modify_at (fun _ => e') p r)
               (out ++ ["Integration with name '" +:+ name +:+ "' and hook_url '"
                        +:+ fmt hook_url +:+ "' has been updated."]))
         ∧ e' = set_children updates e
         ∧ tag e' = tag e
         ∧ (∀ t v, (t, v) ∈ updates → child_text t e' = Some v)
         ∧ (∀ t, t ∉ updates.*1 → child_text t e' = child_text t e))
  ∧ (¬ has_integration r name hook_url
     ∨ ∃ p e, first_match (integration_matches name hook_url)
                (findall_desc "integration" r) p e).
Proof.
  intros name hook_url r updates out.
  apply (update_integration_reads_back name updates hook_url r out).
  - reflexivity.
  - apply (bool_decide_unpack _). by vm_compute.
Defined.

(** *** update_active_response *)

Lemma bind_return_inv {A B} (m : M A) (k : A → M B) st b s' :
  bind m k st = Return b s' → ∃ a st', m st = Return a st' ∧ k a st' = Return b s'.
Proof. unfold bind. destruct (m st) as [a st'|e st']; [eauto|done]. Qed.

Lemma valid_item_passes {A} t v (k1 k2 k3 rest : M A) st :
  update_item_valid (t, v) = true →
  (bad ← fails "level" (n ← py_int v; ret (_validate_level n)) t;
   if bad then k1
   else bad ← fails "rules_group" (on_string _validate_rules_group v) t;
        if bad then k2
        else bad ← fails "rules_id" (on_string _validate_rules_id v) t;
             if bad then k3 else rest) st
  = rest st.
Proof.
  unfold update_item_valid, fails. cbn [fst snd].
  destruct (String.eqb t "level") eqn:E1.
  { intros Hv. apply String.eqb_eq in E1 as ->. cbn [String.eqb Ascii.eqb Bool.eqb].
    destruct v as [n|s]; unfold bind, py_int, ret.
    - by rewrite Hv.
    - destruct (PyInt.parse s); [by rewrite Hv|done]. }
  destruct (String.eqb t "rules_group") eqn:E2.
  { intros Hv. apply String.eqb_eq in E2 as ->. cbn [String.eqb Ascii.eqb Bool.eqb].
    destruct v as [n|s]; [done|]. unfold bind, on_string, ret. by rewrite Hv. }
  destruct (String.eqb t "rules_id") eqn:E3.
  { intros Hv. apply String.eqb_eq in E3 as ->. cbn [String.eqb Ascii.eqb Bool.eqb].
    destruct v as [n|s]; [done|]. unfold bind, on_string, ret. by rewrite Hv. }
  done.
Qed.

Lemma invalid_item_stops t v (rest : M bool) st (s' : state) :
  update_item_valid (t, v) = false →
  (bad ← fails "level" (n ← py_int v; ret (_validate_level n)) t;
   if bad then
     print ("Invalid level value: " +:+ py_str v +:+ ". Must be between 1 and 16.");;
     ret false
   else bad ← fails "rules_group" (on_string _validate_rules_group v) t;
        if bad then
          print "Invalid rules group format. Groups must end with comma and be pipe-separated.";;
          ret false
        else bad ← fails "rules_id" (on_string _validate_rules_id v) t;
             if bad then
               print "Invalid rules ID format. IDs must be numeric and comma-separated.";;
               ret false
             else rest) st
  ≠ Return true s'.
Proof.
  unfold update_item_valid, fails. cbn [fst snd].
  destruct (String.eqb t "level") eqn:E1.
  { intros Hv. apply String.eqb_eq in E1 as ->. cbn [String.eqb Ascii.eqb Bool.eqb].
    destruct v as [n|s]; unfold bind, py_int, ret.
    - by rewrite Hv.
    - destruct (PyInt.parse s); [by rewrite Hv|done]. }
  destruct (String.eqb t "rules_group") eqn:E2.
  { intros Hv. apply String.eqb_eq in E2 as ->. cbn [String.eqb Ascii.eqb Bool.eqb].
    destruct v as [n|s]; unfold bind, on_string, ret.
    - by destruct (decide (n = 0)).
    - by rewrite Hv. }
  destruct (String.eqb t "rules_id") eqn:E3.
  { intros Hv. apply String.eqb_eq in E3 as ->. cbn [String.eqb Ascii.eqb Bool.eqb].
    destruct v as [n|s]; unfold bind, on_string, ret.
    - by destruct (decide (n = 0)).
    - by rewrite Hv. }
  done.
Qed.

Lemma apply_updates_valid p updates r out e :
  forallb update_item_valid updates = true → get_at p r = Some e →
  apply_updates p updates (State r out)
  = Return true (State (modify_at (set_children (written updates)) p r) out).
Proof.
  revert r e. induction updates as [|[t v] updates IH]; intros r e Hall He.
  - cbn [apply_updates]. unfold ret, written. cbn [map]. by rewrite modify_at_id.
  - cbn [forallb] in Hall. apply andb_true_iff in Hall as [Hv Hall].
    cbn [apply_updates]. rewrite valid_item_passes by done.
    rewrite (write_child_eval _ _ _ _ _ e) by done.
    rewrite (IH _ (set_child t (py_str v) e)) by (done || by apply get_at_modify_at).
    by rewrite modify_at_compose.
Qed.

Lemma apply_updates_invalid p updates st s' :
  forallb update_item_valid updates = false →
  apply_updates p updates st ≠ Return true s'.
Proof.
  revert st. induction updates as [|[t v] updates IH]; intros st Hall; [done|].
  cbn [forallb] in Hall. cbn [apply_updates].
  destruct (update_item_valid (t, v)) eqn:Hv.
  - rewrite valid_item_passes by done. intros (a & st' & _ & Hrest)%bind_return_inv.
    by apply IH in Hrest.
  - by apply invalid_item_stops.
Qed.

(** X6: with an active response for the command in the document and a
    mapping with plain, distinct keys, [update_active_response] returns
    [True] exactly when every item of the mapping passes the check made
    for its key: a level that is, or parses to, an integer from 1 to 16,
    a rules group and a rules id that are strings their validators
    accept, anything under another key.  It then writes into the first
    active-response element, in document order, whose command child
    carries the command, and into no other: that element keeps its place
    and its tag, every key reads back the string of its value, and the
    first child of every other tag keeps its text. *)
Theorem update_active_response_accepts command updates r out :
  plain_keys updates = true → NoDup updates.*1 →
  has_active_response r (Some command) →
  ((∃ s', update_active_response command updates (State r out) = Return true s')
   ↔ forallb update_item_valid updates = true)
  ∧ (∃ p e, first_match (child_text_is "command" (Some command))
              (findall_desc "active-response" r) p e)
  ∧ (forallb update_item_valid updates = true →
     ∀ p e,
       first_match (child_text_is "command" (Some command))
         (findall_desc "active-response" r) p e →
       ∃ e',
         get_at p r = Some e
         ∧ update_active_response command updates (State r out)
           = Return true (State (modify_at (fun _ => e') p r)
               (out ++ ["Active response for command '" +:+ command
                        +:+ "' has been updated."]))
         ∧ e' = set_children (written updates) e
         ∧ tag e' = tag e
         ∧ (∀ t v, (t, v) ∈ updates → child_text t e' = Some (py_str v))
         ∧ (∀ t, t ∉ updates.*1 → child_text t e' = child_text t e)).
Proof.
  intros _ Hnd (p & e & Hfind & Hp & Hget & Htag & Hc)%has_active_response_found.
  assert (forallb update_item_valid updates = true →
          update_active_response command updates (State r out)
          = Return true (State (modify_at (fun _ => set_children (written updates) e) p r)
              (out ++ ["Active response for command '" +:+ command
                       +:+ "' has been updated."]))) as Hrun.
  { intros Hall. unfold update_active_response, bind at 1, get_root. cbn [root].
    rewrite Hfind. unfold bind at 1.
    rewrite (apply_updates_valid _ _ _ _ e) by done.
    by rewrite (replace_at _ _ _ e). }
  pose proof (proj1 (find_first_match (child_text_is "command" (Some command))
                       (findall_desc "active-response" r) p e) Hfind) as Hfirst.
  split_and!.
  - split; [|intros Hall; eexists; by apply Hrun].
    intros [s' Hs']. destruct (forallb update_item_valid updates) eqn:Hall; [done|].
    exfalso. unfold update_active_response, bind at 1, get_root in Hs'. cbn [root] in Hs'.
    rewrite Hfind in Hs'. unfold bind at 1 in Hs'.
    destruct (apply_updates p updates (State r out)) as [[|] st'|x st'] eqn:Hap; [|done..].
    by apply apply_updates_invalid in Hap.
  - by exists p, e.
  - intros Hall p' e' Hfirst'.
    destruct (first_match_unique _ _ _ _ _ _ Hfirst' Hfirst) as [-> ->].
    rewrite <- written_keys in Hnd.
    destruct (set_children_reads_back (written updates) e Hnd) as (Htag' & Hread & Hkeep).
    exists (set_children (written updates) e).
    split_and!; [done|by apply Hrun|done|done| |].
    + intros t v Hin'. by apply Hread, elem_of_written.
    + intros t Ht. apply Hkeep. by rewrite written_keys.
Qed.

Lemma update_active_response_accepts_witness :
  let command := "host-deny" in
  let updates := [("level", VStr "12"); ("timeout", VStr "600");
                  ("rules_group", VStr "authentication_failure,|pci_dss_11.4,")] in
  let r := Elem "root" None
             [Elem "ossec_config" None
                [command_node "host-deny" "host-deny" true;
                 active_response_node "host-deny" "local" None None None None None;
                 active_response_node "host-deny" "server" None None None None None]] in
  let out := @nil string in
  ((∃ s', update_active_response command updates (State r out) = Return true s')
   ↔ forallb update_item_valid updates = true)
  ∧ (∃ p e, first_match (child_text_is "command" (Some command))
              (findall_desc "active-response" r) p e)
  ∧ (forallb update_item_valid updates = true →
     ∀ p e,
       first_match (child_text_is "command" (Some command))
         (findall_desc "active-response" r) p e →
       ∃ e',
         get_at p r = Some e
         ∧ update_active_response command updates (State r out)
           = Return true (State (modify_at (fun _ => e') p r)
               (out ++ ["Active response for command '" +:+ command
                        +:+ "' has been updated."]))
         ∧ e' = set_children (written updates) e
         ∧ tag e' = tag e
         ∧ (∀ t v, (t, v) ∈ updates → child_text t e' = Some (py_str v))
         ∧ (∀ t, t ∉ updates.*1 → child_text t e' = child_text t e)).
Proof.
  intros command updates r out.
  apply (update_active_response_accepts command updates r out).
  - reflexivity.
  - apply (bool_decide_unpack _). by vm_compute.
  - exists [0; 1]%nat, (active_response_node "host-deny" "local" None None None None None).
    split; [|reflexivity]. vm_compute. repeat constructor.
Defined.

End update_methods.

(** ** What an appended element adds to the document *)

Section appended.

Lemma descendants_from_app k l1 l2 :
  descendants_from k (l1 ++ l2)
  = descendants_from k l1 ++ descendants_from (k + length l1) l2.
Proof.
  revert k. induction l1 as [|c l1 IH]; intros k; simpl.
  - by rewrite Nat.add_0_r.
  - rewrite IH, Nat.add_succ_r, <- !app_assoc. done.
Qed.

Lemma descendants_extend n e :
  descendants (extend [n] e)
  = descendants e ++ ([length (children e)], n)
                     :: map (under (length (children e))) (descendants n).
Proof.
  rewrite !(descendants_eq (extend _ _)), (descendants_eq e). cbn [extend children].
  rewrite descendants_from_app. simpl. by rewrite app_nil_r.
Qed.

(** Appending [n] to the child [oc] of the root moves no element: the
    descendants of the new document are those of the old one, with [oc]
    grown, and the elements of [n] put in after those of [oc]. *)
Lemma descendants_append r i oc n :
  children r !! i = Some oc →
  ∃ A B C,
    descendants r = A ++ ([i], oc) :: B ++ C
    ∧ descendants (modify_at (extend [n]) [i] r)
      = A ++ ([i], extend [n] oc) :: B ++ brought_in i (length (children oc)) n ++ C.
Proof.
  intros Hi. pose proof (take_drop_middle _ _ _ Hi) as Hcs.
  assert (length (take i (children r)) = i) as Hlen.
  { rewrite length_take. apply lookup_lt_Some in Hi. lia. }
  exists (descendants_from 0 (take i (children r))),
         (map (under i) (descendants oc)),
         (descendants_from (S i) (drop (S i) (children r))).
  split.
  - rewrite descendants_eq. rewrite <- Hcs at 1.
    rewrite descendants_from_app, Hlen. done.
  - rewrite descendants_eq. cbn [modify_at children]. rewrite <- Hcs at 1.
    rewrite <- Hlen at 1. rewrite alter_middle, descendants_from_app, Hlen.
    cbn [descendants_from Nat.add]. rewrite descendants_extend.
    unfold brought_in. rewrite map_app, <- !app_assoc. done.
Qed.

Lemma filter_app_tag t (l1 l2 : list (path * Element)) :
  filter (fun pe : path * Element => has_tag t pe.2 = true) (l1 ++ l2)
  = filter (fun pe : path * Element => has_tag t pe.2 = true) l1
    ++ filter (fun pe : path * Element => has_tag t pe.2 = true) l2.
Proof. apply filter_app. Qed.

(** The elements named [t] found after the append, when the element
    appended to is not itself named [t]. *)
Lemma findall_desc_append t r i oc n :
  children r !! i = Some oc → has_tag t oc = false →
  ∃ before after,
    findall_desc t r = before ++ after
    ∧ findall_desc t (modify_at (extend [n]) [i] r)
      = before
        ++ filter (fun pe : path * Element => has_tag t pe.2 = true)
                  (brought_in i (length (children oc)) n)
        ++ after.
Proof.
  intros Hi Hoc. destruct (descendants_append r i oc n Hi) as (A & B & C & Hr & Hr').
  unfold findall_desc. rewrite Hr, Hr'.
  exists (filter (fun pe : path * Element => has_tag t pe.2 = true) (A ++ B)),
         (filter (fun pe : path * Element => has_tag t pe.2 = true) C).
  rewrite !filter_app, !filter_cons_False, !filter_app, <- !app_assoc; try done.
  - cbn. unfold has_tag in *. cbn [extend tag]. congruence.
  - cbn. congruence.
Qed.

Lemma inside_descendants e r : inside e r ↔ ∃ p, (p, e) ∈ descendants r.
Proof.
  unfold inside. split; intros [p H]; exists p; by apply elem_of_descendants.
Qed.

Lemma elem_of_brought_in i len n e :
  (∃ p, (p, e) ∈ brought_in i len n) ↔ e = n ∨ inside e n.
Proof.
  unfold brought_in. rewrite inside_descendants. split.
  - intros (p & ([q x] & [= -> ->] & Hx)%elem_of_map).
    apply elem_of_cons in Hx as [[= -> ->]|Hx]; [by left|right].
    apply elem_of_map in Hx as ([q' x'] & [= -> ->] & Hx). by exists q'.
  - intros [->|[q Hq]].
    + exists (i :: [len]). apply elem_of_map. exists ([len], n). split; [done|by left].
    + exists (i :: len :: q). apply elem_of_map. exists (len :: q, e).
      split; [done|]. right. apply elem_of_map. by exists (q, e).
Qed.

(** An element not named like [oc] lies in the new document exactly when
    it lay in the old one or came with [n]. *)
Lemma inside_append r i oc n e :
  children r !! i = Some oc → tag e ≠ tag oc →
  inside e (modify_at (extend [n]) [i] r) ↔ inside e r ∨ e = n ∨ inside e n.
Proof.
  intros Hi Hne. destruct (descendants_append r i oc n Hi) as (A & B & C & Hr & Hr').
  rewrite <- elem_of_brought_in, !inside_descendants, Hr, Hr'.
  assert (∀ (x y : path * Element) N,
            x ∈ A ++ y :: B ++ N ++ C ↔ x ∈ A ∨ x = y ∨ x ∈ B ∨ x ∈ N ∨ x ∈ C) as Hsplit.
  { intros x y N. rewrite elem_of_app, elem_of_cons, !elem_of_app. tauto. }
  assert (∀ x y : path * Element,
            x ∈ A ++ y :: B ++ C ↔ x ∈ A ∨ x = y ∨ x ∈ B ∨ x ∈ C) as Hsplit'.
  { intros x y. rewrite elem_of_app, elem_of_cons, !elem_of_app. tauto. }
  split.
  - intros (p & [H|[[= -> ->]|[H|[H|H]]]]%Hsplit).
    + left. exists p. apply Hsplit'. tauto.
    + by destruct Hne.
    + left. exists p. apply Hsplit'. tauto.
    + right. by exists p.
    + left. exists p. apply Hsplit'. tauto.
  - intros [(p & [H|[[= -> ->]|[H|H]]]%Hsplit')|(p & Hp)]; try by destruct Hne.
    all: exists p; apply Hsplit; tauto.
Qed.

End appended.

(** ** Listing after an addition *)

Section listed.

Lemma last_cons_case {A} (x : A) l :
  last (x :: l) = match last l with Some y => Some y | None => Some x end.
Proof. apply last_cons. Qed.

Lemma fold_info_lookup cs (m : gmap string (option string)) k :
  foldl (fun info element => <[tag element := text element]> info) m cs !! k
  = match last (filter (fun c => has_tag k c = true) cs) with
    | Some c => Some (text c)
    | None => m !! k
    end.
Proof.
  revert m. induction cs as [|c cs IH]; intros m; [done|].
  cbn [foldl]. rewrite IH. destruct (has_tag k c) eqn:Hc.
  - rewrite filter_cons_True by done. rewrite last_cons_case.
    destruct (last (filter _ cs)); [done|].
    unfold has_tag in Hc. apply String.eqb_eq in Hc as <-. by rewrite lookup_insert_eq.
  - rewrite filter_cons_False by congruence.
    destruct (last (filter _ cs)); [done|].
    unfold has_tag in Hc. apply String.eqb_neq in Hc. by rewrite lookup_insert_ne.
Qed.

Lemma element_info_last e k :
  element_info e !! k
  = text <$> last (filter (fun c => has_tag k c = true) (children e)).
Proof.
  unfold element_info. rewrite fold_info_lookup.
  by destruct (last (filter _ (children e))).
Qed.

Lemma listed_elements t r :
  listed t r (map (fun pe : path * Element => element_info pe.2) (findall_desc t r)).
Proof.
  split; [by rewrite length_map|]. intros n p e Hn.
  exists (element_info e). rewrite lookup_map, Hn. split; [done|].
  intros k. apply element_info_last.
Qed.

(** X7: [get_commands], [get_active_responses] and [get_integrations]
    leave the document as it is and return one dictionary for each
    element of their tag, at any depth, in document order.  Each
    dictionary holds, under each tag that some child of its element
    carries, the text of the last child with that tag (a later child
    overwrites an earlier one), and has no other key. *)
Theorem listings_last_child_wins st :
  ∃ commands responses integrations,
    get_commands st = Return commands st
    ∧ get_active_responses st = Return responses st
    ∧ get_integrations st = Return integrations st
    ∧ listed "command" (root st) commands
    ∧ listed "active-response" (root st) responses
    ∧ listed "integration" (root st) integrations.
Proof.
  eexists _, _, _. split; [reflexivity|]. split; [reflexivity|]. split; [reflexivity|].
  split_and!; apply listed_elements.
Qed.

Lemma container_not_named t oc :
  t ≠ "ossec_config" → has_tag "ossec_config" oc = true → has_tag t oc = false.
Proof.
  unfold has_tag. intros Ht ->%String.eqb_eq. apply String.eqb_neq. congruence.
Qed.

Lemma add_command_true_inv name executable timeout_allowed r out s' :
  add_command name executable timeout_allowed (State r out) = Return true s' →
  ∃ i oc, find "ossec_config" r = Some (i, oc) ∧ ¬ names_command r (Some name)
    ∧ s' = State (modify_at (append (command_node name executable timeout_allowed)) [i] r)
                 (out ++ ["New command '" +:+ name +:+ "' has been added."]).
Proof.
  intros Hrun. destruct (names_command_cases r (Some name)) as [Hn|Hn].
  { by rewrite add_command_taken in Hrun. }
  destruct (find "ossec_config" r) as [[i oc]|] eqn:Hfind.
  - exists i, oc. rewrite (add_command_fresh _ _ _ _ _ i oc) in Hrun by done.
    by injection Hrun as <-.
  - destruct (add_command_no_container name executable timeout_allowed r out Hn Hfind)
      as [msg Hraise]. by rewrite Hraise in Hrun.
Qed.

Lemma add_active_response_true_inv
    command location level timeout agent_id rules_group rules_id r out s' :
  add_active_response command location level timeout agent_id rules_group rules_id
    (State r out) = Return true s' →
  ∃ i oc, find "ossec_config" r = Some (i, oc)
    ∧ ¬ ar_rejected r command location level agent_id rules_group rules_id
    ∧ s' = State (modify_at (append (active_response_node command location level timeout
                                       agent_id rules_group rules_id)) [i] r)
                 (out ++ ["New active response for command '" +:+ command
                          +:+ "' has been added."]).
Proof.
  intros Hrun.
  destruct (ar_rejected_cases r command location level agent_id rules_group rules_id)
    as [Hrej|Hrej].
  { eapply (add_active_response_rejected _ _ _ timeout) in Hrej as [msg Hrej].
    by rewrite Hrej in Hrun. }
  destruct (find "ossec_config" r) as [[i oc]|] eqn:Hfind.
  - exists i, oc. rewrite (add_active_response_accepted _ _ _ _ _ _ _ _ _ i oc) in Hrun by done.
    by injection Hrun as <-.
  - eapply (add_active_response_no_container _ _ _ timeout) in Hfind as [msg Hraise];
      [|done]. by rewrite Hraise in Hrun.
Qed.

Lemma get_list_eval t r out :
  (r0 ← get_root; ret (map (fun pe : path * Element => element_info pe.2) (findall_desc t r0)))
    (State r out)
  = Return (map (fun pe : path * Element => element_info pe.2) (findall_desc t r)) (State r out).
Proof. reflexivity. Qed.

(** X8: a call of [add_command] that returns [True] puts exactly one new
    mapping, that of the name, the executable and yes or no for the
    timeout flag, into the list [get_commands] returns, at the place of
    the new element in document order; the mappings listed before keep
    their order, the list of active responses is the same, and
    [command_exists] now returns [True] for the name. *)
Theorem add_command_listed name executable timeout_allowed r out s' :
  add_command name executable timeout_allowed (State r out) = Return true s' →
  command_exists (Some name) s' = Return true s'
  ∧ (∃ before after,
       get_commands (State r out) = Return (before ++ after) (State r out)
       ∧ get_commands s'
         = Return (before ++ command_entry name executable timeout_allowed :: after) s')
  ∧ (∃ responses,
       get_active_responses (State r out) = Return responses (State r out)
       ∧ get_active_responses s' = Return responses s').
Proof.
  intros (i & oc & Hfind & Hfresh & ->)%add_command_true_inv.
  pose proof (find_lookup _ _ _ _ Hfind) as [Hi Hoc]. split_and!.
  - apply command_exists_true. cbn [root]. by apply (names_command_added _ _ _ _ _ oc).
  - destruct (findall_desc_append "command" r i oc
                (command_node name executable timeout_allowed) Hi)
      as (before & after & Hr & Hr'); [by apply container_not_named|].
    exists (map (fun pe : path * Element => element_info pe.2) before),
           (map (fun pe : path * Element => element_info pe.2) after).
    unfold get_commands. rewrite !get_list_eval.
    change (append (command_node name executable timeout_allowed))
      with (extend [command_node name executable timeout_allowed]).
    rewrite Hr, Hr', !map_app. split; reflexivity.
  - destruct (findall_desc_append "active-response" r i oc
                (command_node name executable timeout_allowed) Hi)
      as (before & after & Hr & Hr'); [by apply container_not_named|].
    eexists. unfold get_active_responses. rewrite !get_list_eval.
    change (append (command_node name executable timeout_allowed))
      with (extend [command_node name executable timeout_allowed]).
    rewrite Hr, Hr'. split; reflexivity.
Qed.

Lemma add_command_listed_witness :
  let s' := State (modify_at (append (command_node "custom-block" "custom-block.sh" true))
                     [0%nat] guarded_document)
                  ["New command 'custom-block' has been added."] in
  command_exists (Some "custom-block") s' = Return true s'
  ∧ (∃ before after,
       get_commands (State guarded_document [])
       = Return (before ++ after) (State guarded_document [])
       ∧ get_commands s'
         = Return (before ++ command_entry "custom-block" "custom-block.sh" true :: after) s')
  ∧ (∃ responses,
       get_active_responses (State guarded_document [])
       = Return responses (State guarded_document [])
       ∧ get_active_responses s' = Return responses s').
Proof.
  apply (add_command_listed "custom-block" "custom-block.sh" true guarded_document []).
  reflexivity.
Defined.

Lemma brought_in_response t i len
    command location level timeout agent_id rules_group rules_id :
  t = "active-response" ∨ t = "command" →
  filter (fun pe : path * Element => has_tag t pe.2 = true)
         (brought_in i len (active_response_node command location level timeout
                              agent_id rules_group rules_id))
  = if String.eqb t "command" then [([i; len; 0%nat], leaf "command" command)]
    else [([i; len], active_response_node command location level timeout
                       agent_id rules_group rules_id)].
Proof.
  intros [-> | ->];
    destruct level, timeout, agent_id, rules_group, rules_id; reflexivity.
Qed.

(** X9: a call of [add_active_response] that returns [True] puts exactly
    one new mapping into the list [get_active_responses] returns, the
    others keeping their order.  The new mapping holds the command and the
    location, holds the level, timeout, agent id, rules group and rules id
    exactly when they were supplied (the numbers as decimal strings), and
    has no other key.  The list [get_commands] returns grows by one empty
    mapping, for the command leaf of the new element. *)
Theorem add_active_response_listed
    command location level timeout agent_id rules_group rules_id r out s' :
  add_active_response command location level timeout agent_id rules_group rules_id
    (State r out) = Return true s' →
  ∃ entry,
    (∃ before after,
       get_active_responses (State r out) = Return (before ++ after) (State r out)
       ∧ get_active_responses s' = Return (before ++ entry :: after) s')
    ∧ entry !! "command" = Some (Some command)
    ∧ entry !! "location" = Some (Some location)
    ∧ entry !! "level" = (fun l => Some (PyStr.str_of_int l)) <$> level
    ∧ entry !! "timeout" = (fun n => Some (PyStr.str_of_int n)) <$> timeout
    ∧ entry !! "agent_id" = Some <$> agent_id
    ∧ entry !! "rules_group" = Some <$> rules_group
    ∧ entry !! "rules_id" = Some <$> rules_id
    ∧ (∀ k, k ∉ active_response_keys → entry !! k = None)
    ∧ (∃ before after,
         get_commands (State r out) = Return (before ++ after) (State r out)
         ∧ get_commands s' = Return (before ++ ∅ :: after) s').
Proof.
  intros (i & oc & Hfind & Hok & ->)%add_active_response_true_inv.
  pose proof (find_lookup _ _ _ _ Hfind) as [Hi Hoc].
  set (node := active_response_node command location level timeout
                 agent_id rules_group rules_id).
  exists (element_info node). split_and!.
  - destruct (findall_desc_append "active-response" r i oc node Hi)
      as (before & after & Hr & Hr'); [by apply container_not_named|].
    exists (map (fun pe : path * Element => element_info pe.2) before),
           (map (fun pe : path * Element => element_info pe.2) after).
    unfold get_active_responses. rewrite !get_list_eval.
    change (append node) with (extend [node]).
    rewrite Hr, Hr', !map_app. unfold node at 1.
    rewrite brought_in_response by by left. split; reflexivity.
  - rewrite element_info_last. subst node.
    by destruct level, timeout, agent_id, rules_group, rules_id.
  - rewrite element_info_last. subst node.
    by destruct level, timeout, agent_id, rules_group, rules_id.
  - rewrite element_info_last. subst node.
    by destruct level, timeout, agent_id, rules_group, rules_id.
  - rewrite element_info_last. subst node.
    by destruct level, timeout, agent_id, rules_group, rules_id.
  - rewrite element_info_last. subst node.
    by destruct level, timeout, agent_id, rules_group, rules_id.
  - rewrite element_info_last. subst node.
    by destruct level, timeout, agent_id, rules_group, rules_id.
  - rewrite element_info_last. subst node.
    by destruct level, timeout, agent_id, rules_group, rules_id.
  - intros k Hk. rewrite element_info_last.
    assert (Forall (fun c => tag c ∈ active_response_keys) (children node)) as Hall.
    { subst node. destruct level, timeout, agent_id, rules_group, rules_id; cbn;
        repeat (constructor; [by apply (bool_decide_unpack _)|]); constructor. }
    assert (filter (fun c => has_tag k c = true) (children node) = []) as ->; [|done].
    induction Hall as [|c cs Hc _ IH]; [done|].
    rewrite filter_cons_False; [done|]. unfold has_tag.
    intros Heq%String.eqb_eq. rewrite Heq in Hc. done.
  - destruct (findall_desc_append "command" r i oc node Hi)
      as (before & after & Hr & Hr'); [by apply container_not_named|].
    exists (map (fun pe : path * Element => element_info pe.2) before),
           (map (fun pe : path * Element => element_info pe.2) after).
    unfold get_commands. rewrite !get_list_eval.
    change (append node) with (extend [node]).
    rewrite Hr, Hr', !map_app. unfold node at 1.
    rewrite brought_in_response by by right. split; reflexivity.
Qed.

Lemma add_active_response_listed_witness :
  let command := "host-deny" in
  let location := "local" in
  let level := Some 10 in
  let timeout := @None Z in
  let agent_id := @None string in
  let rules_group := @None string in
  let rules_id := Some "5763,5761" in
  let r := guarded_document in
  let out := @nil string in
  let s' := State (modify_at (append (active_response_node command location level timeout
                                        agent_id rules_group rules_id)) [0%nat] r)
                  (out ++ ["New active response for command '" +:+ command
                           +:+ "' has been added."]) in
  ∃ entry,
    (∃ before after,
       get_active_responses (State r out) = Return (before ++ after) (State r out)
       ∧ get_active_responses s' = Return (before ++ entry :: after) s')
    ∧ entry !! "command" = Some (Some command)
    ∧ entry !! "location" = Some (Some location)
    ∧ entry !! "level" = (fun l => Some (PyStr.str_of_int l)) <$> level
    ∧ entry !! "timeout" = (fun n => Some (PyStr.str_of_int n)) <$> timeout
    ∧ entry !! "agent_id" = Some <$> agent_id
    ∧ entry !! "rules_group" = Some <$> rules_group
    ∧ entry !! "rules_id" = Some <$> rules_id
    ∧ (∀ k, k ∉ active_response_keys → entry !! k = None)
    ∧ (∃ before after,
         get_commands (State r out) = Return (before ++ after) (State r out)
         ∧ get_commands s' = Return (before ++ ∅ :: after) s').
Proof.
  intros command location level timeout agent_id rules_group rules_id r out s'.
  apply (add_active_response_listed command location level timeout agent_id
           rules_group rules_id r out s').
  reflexivity.
Defined.

End listed.

(** ** The additions keep the references sound *)

Section kept_references.

Lemma has_tag_differs t t' e : has_tag t e = true → t ≠ t' → tag e ≠ t'.
Proof. unfold has_tag. intros ->%String.eqb_eq. done. Qed.

(** An element that has only leaves below it, none named [t]. *)
Lemma inside_leaves e n :
  Forall (fun c => children c = []) (children n) → inside e n → e ∈ children n.
Proof.
  intros Hleaves (c & Hc & [->|Hin])%inside_children; [done|].
  rewrite Forall_forall in Hleaves. apply inside_children in Hin as (d & Hd & _).
  rewrite (Hleaves c Hc) in Hd. by apply elem_of_nil in Hd.
Qed.

Lemma command_node_leaves name executable timeout_allowed :
  Forall (fun c => children c = []) (children (command_node name executable timeout_allowed))
  ∧ Forall (fun c => tag c ∈ ["name"; "executable"; "timeout_allowed"])
           (children (command_node name executable timeout_allowed)).
Proof. split; cbn; repeat (constructor; [done || by apply (bool_decide_unpack _)|]); constructor. Qed.

Lemma active_response_node_leaves
    command location level timeout agent_id rules_group rules_id :
  let node := active_response_node command location level timeout
                agent_id rules_group rules_id in
  Forall (fun c => children c = []) (children node)
  ∧ Forall (fun c => tag c ∈ active_response_keys) (children node).
Proof.
  split; destruct level, timeout, agent_id, rules_group, rules_id; cbn;
    repeat (constructor; [done || by apply (bool_decide_unpack _)|]); constructor.
Qed.

(** What is true of the commands and active responses of the document
    after [n] was appended to the container [oc]. *)
Lemma names_command_append r i oc n name :
  children r !! i = Some oc → has_tag "ossec_config" oc = true →
  names_command (modify_at (extend [n]) [i] r) name
  ↔ names_command r name
    ∨ ∃ c, (c = n ∨ inside c n) ∧ has_tag "command" c = true
           ∧ child_text_is "name" name c = true.
Proof.
  intros Hi Hoc. rewrite !names_command_inside.
  assert (∀ c, has_tag "command" c = true → tag c ≠ tag oc) as Hne.
  { intros c Hc. unfold has_tag in Hoc. apply String.eqb_eq in Hoc. rewrite Hoc.
    by apply (has_tag_differs "command"). }
  split.
  - intros (c & Hin & Htag & Hc). apply (inside_append r i oc n c Hi) in Hin; [|by apply Hne].
    destruct Hin as [Hin|Hin]; [left|right]; exists c; done.
  - intros [(c & Hin & Htag & Hc)|(c & Hin & Htag & Hc)]; exists c; (split; [|done]);
      apply (inside_append r i oc n c Hi); try (by apply Hne); tauto.
Qed.

Lemma dangling_append r i oc n c :
  children r !! i = Some oc → has_tag "ossec_config" oc = true →
  dangling (modify_at (extend [n]) [i] r) c →
  dangling r c
  ∨ ∃ ar j, (ar = n ∨ inside ar n) ∧ has_tag "active-response" ar = true
            ∧ find "command" ar = Some (j, c) ∧ ¬ names_command r (text c).
Proof.
  intros Hi Hoc (ar & j & Hin & Htag & Hfind & Hn).
  assert (¬ names_command r (text c)) as Hn'.
  { intros H. apply Hn. apply (names_command_append r i oc n _ Hi Hoc). by left. }
  apply (inside_append r i oc n ar Hi) in Hin.
  - destruct Hin as [Hin|Hin]; [left|right]; exists ar, j; done.
  - unfold has_tag in Hoc. apply String.eqb_eq in Hoc. rewrite Hoc.
    by apply (has_tag_differs "active-response").
Qed.

Lemma add_command_keeps name executable timeout_allowed st b s' :
  (∀ c, ¬ dangling (root st) c) →
  add_command name executable timeout_allowed st = Return b s' →
  ∀ c, ¬ dangling (root s') c.
Proof.
  destruct st as [r out]. cbn [root]. intros Hchecked Hrun.
  destruct b; cycle 1.
  { destruct (names_command_cases r (Some name)) as [Hn|Hn].
    - rewrite add_command_taken in Hrun by done. by injection Hrun as <-.
    - destruct (find "ossec_config" r) as [[i oc]|] eqn:Hfind.
      + by rewrite (add_command_fresh _ _ _ _ _ i oc) in Hrun.
      + destruct (add_command_no_container name executable timeout_allowed r out Hn Hfind)
          as [msg Hraise]. by rewrite Hraise in Hrun. }
  apply add_command_true_inv in Hrun as (i & oc & Hfind & Hfresh & ->). cbn [root].
  pose proof (find_lookup _ _ _ _ Hfind) as [Hi Hoc].
  intros c [Hc|(ar & j & Har & Htag & _)]%(dangling_append r i oc _ c Hi Hoc).
  - by apply (Hchecked c).
  - destruct (command_node_leaves name executable timeout_allowed) as [Hleaves Htags].
    destruct Har as [->|Har]; [done|].
    apply inside_leaves in Har; [|done].
    rewrite Forall_forall in Htags. specialize (Htags ar Har).
    unfold has_tag in Htag. apply String.eqb_eq in Htag. rewrite Htag in Htags.
    by apply (bool_decide_pack _) in Htags.
Qed.

(** X10: [add_command] keeps the document checked: when every command
    field of an active response names a command before the call, the same
    holds after it, whatever the call returns. *)
Theorem add_command_keeps_references name executable timeout_allowed st b s' :
  (∀ c, ¬ dangling (root st) c) →
  add_command name executable timeout_allowed st = Return b s' →
  ∀ c, ¬ dangling (root s') c.
Proof. exact (add_command_keeps name executable timeout_allowed st b s'). Qed.

Lemma guarded_document_checked : ∀ c, ¬ dangling guarded_document c.
Proof.
  intros c Hc.
  destruct (validate_commands_spec guarded_document []) as [[Hnone _]|(c' & _ & Hraise)].
  - by apply (Hnone c).
  - vm_compute in Hraise. done.
Qed.

Lemma add_command_keeps_references_witness :
  ¬ ∃ c, dangling
           (root (State (modify_at (append (command_node "custom-block" "custom-block.sh" true))
                           [0%nat] guarded_document)
                        ["New command 'custom-block' has been added."])) c.
Proof.
  intros [c Hc]. revert c Hc.
  apply (add_command_keeps_references "custom-block" "custom-block.sh" true
           (State guarded_document []) true).
  - intros c Hc.
    destruct (validate_commands_spec guarded_document []) as [[Hnone _]|(c' & _ & Hraise)].
    + by apply (Hnone c).
    + vm_compute in Hraise. done.
  - reflexivity.
Defined.

Lemma add_active_response_keeps
    command location level timeout agent_id rules_group rules_id st b s' :
  (∀ c, ¬ dangling (root st) c) →
  add_active_response command location level timeout agent_id rules_group rules_id st
  = Return b s' →
  ∀ c, ¬ dangling (root s') c.
Proof.
  destruct st as [r out]. cbn [root]. intros Hchecked Hrun.
  destruct b; cycle 1.
  { destruct (ar_rejected_cases r command location level agent_id rules_group rules_id)
      as [Hrej|Hrej].
    - eapply (add_active_response_rejected _ _ _ timeout) in Hrej as [msg Hrej].
      rewrite Hrej in Hrun. by injection Hrun as <-.
    - destruct (find "ossec_config" r) as [[i oc]|] eqn:Hfind.
      + by rewrite (add_active_response_accepted _ _ _ _ _ _ _ _ _ i oc) in Hrun.
      + eapply (add_active_response_no_container _ _ _ timeout) in Hfind as [msg Hraise];
          [|done]. by rewrite Hraise in Hrun. }
  apply add_active_response_true_inv in Hrun as (i & oc & Hfind & Hok & ->). cbn [root].
  pose proof (find_lookup _ _ _ _ Hfind) as [Hi Hoc].
  intros c [Hc|(ar & j & Har & Htag & Hcmd & Hn)]%(dangling_append r i oc _ c Hi Hoc).
  - by apply (Hchecked c).
  - destruct (active_response_node_leaves command location level timeout
                agent_id rules_group rules_id) as [Hleaves Htags].
    destruct Har as [->|Har].
    + assert (c = leaf "command" command) as ->.
      { destruct level, timeout, agent_id, rules_group, rules_id;
          cbn in Hcmd; by injection Hcmd as _ <-. }
      apply Hn. cbn [leaf text]. destruct (names_command_cases r (Some command)); [done|].
      destruct Hok. by left.
    + apply inside_leaves in Har; [|done].
      rewrite Forall_forall in Htags. specialize (Htags ar Har).
      unfold has_tag in Htag. apply String.eqb_eq in Htag. rewrite Htag in Htags.
      by apply (bool_decide_pack _) in Htags.
Qed.

(** X11: [add_active_response] keeps the document checked: when every
    command field of an active response names a command before the call,
    the same holds after it, whatever the call returns. *)
Theorem add_active_response_keeps_references
    command location level timeout agent_id rules_group rules_id st b s' :
  (∀ c, ¬ dangling (root st) c) →
  add_active_response command location level timeout agent_id rules_group rules_id st
  = Return b s' →
  ∀ c, ¬ dangling (root s') c.
Proof.
  exact (add_active_response_keeps command location level timeout
           agent_id rules_group rules_id st b s').
Qed.

Lemma add_active_response_keeps_references_witness :
  ¬ ∃ c, dangling
           (root (State (modify_at (append (active_response_node "host-deny" "all" (Some 5)
                                              None None None None))
                           [0%nat] guarded_document)
                        ["New active response for command 'host-deny' has been added."])) c.
Proof.
  intros [c Hc]. revert c Hc.
  apply (add_active_response_keeps_references "host-deny" "all" (Some 5) None None None None
           (State guarded_document []) true).
  - exact guarded_document_checked.
  - reflexivity.
Defined.

End kept_references.

(** ** The convenience constructors *)

Section constructors.

(** The shape the three constructors share: make sure the command is
    there, then add the active response. *)
Lemma ensure_then_add name flag location level timeout rules_group rules_id r out i oc :
  find "ossec_config" r = Some (i, oc) →
  ∃ r1 out1 oc1,
    (names_command r (Some name) ∧ r1 = r
     ∨ ¬ names_command r (Some name)
       ∧ r1 = modify_at (append (command_node name name flag)) [i] r)
    ∧ names_command r1 (Some name)
    ∧ find "ossec_config" r1 = Some (i, oc1)
    ∧ (known ← command_exists (Some name);
       (if negb known then _ ← add_command name name flag; ret tt else ret tt);;
       add_active_response name location (Some level) (Some timeout)
         None rules_group rules_id) (State r out)
      = add_active_response name location (Some level) (Some timeout)
          None rules_group rules_id (State r1 out1).
Proof.
  intros Hfind. destruct (names_command_cases r (Some name)) as [Hn|Hn].
  - exists r, out, oc. split_and!; [by left|done|done|].
    unfold bind at 1. by rewrite command_exists_true.
  - eexists _, _, _. split_and!; [by right| | |].
    + by apply (names_command_added _ _ _ _ _ oc).
    + by apply find_after_modify.
    + unfold bind at 1. rewrite command_exists_false by done. cbn [negb].
      unfold bind at 1. unfold bind at 1.
      by rewrite (add_command_fresh _ _ _ _ _ i oc).
Qed.

Lemma defined_agent_or_listed location :
  location ∈ ["local"; "server"; "all"]
  ↔ location ∈ LocationType_values ∧ location ≠ "defined-agent".
Proof.
  unfold LocationType_values. rewrite !elem_of_cons, !elem_of_nil. split.
  - intros [->|[->|[->|[]]]]; split; (done || tauto).
  - intros [[->|[->|[->|[->|[]]]]] Hne]; tauto.
Qed.

Lemma constructor_rejected r name location level rules_group rules_id :
  names_command r (Some name) →
  ar_rejected r name location (Some level) None rules_group rules_id
  ↔ ¬ (location ∈ ["local"; "server"; "all"] ∧ 1 ≤ level ≤ 16
       ∧ (∀ g, rules_group = Some g → _validate_rules_group g = true)
       ∧ (∀ x, rules_id = Some x → _validate_rules_id x = true)).
Proof.
  intros Hn. rewrite defined_agent_or_listed. unfold ar_rejected. split.
  - intros [H|[H|[[H _]|[(l & [= <-] & H)|[(g & Hg & H)|(x & Hx & H)]]]]]
           ([Hloc Hne] & Hl & Hg' & Hx'); try done.
    + rewrite (Hg' g Hg) in H. done.
    + rewrite (Hx' x Hx) in H. done.
  - intros Hnot.
    destruct (decide (location ∈ LocationType_values)); [|tauto].
    destruct (decide (location = "defined-agent")); [right; right; left; eauto|].
    destruct (decide (1 ≤ level ≤ 16)); [|right; right; right; left; eauto].
    destruct rules_group as [g|].
    + destruct (_validate_rules_group g) eqn:Eg;
        [|right; right; right; right; left; eauto].
      destruct rules_id as [x|].
      * destruct (_validate_rules_id x) eqn:Ex;
          [|right; right; right; right; right; eauto].
        destruct Hnot. split_and!; try done; try lia; by intros; simplify_eq.
      * destruct Hnot. split_and!; try done; try lia; by intros; simplify_eq.
    + destruct rules_id as [x|].
      * destruct (_validate_rules_id x) eqn:Ex;
          [|right; right; right; right; right; eauto].
        destruct Hnot. split_and!; try done; try lia; by intros; simplify_eq.
      * destruct Hnot. split_and!; try done; try lia; by intros; simplify_eq.
Qed.

Lemma constructor_outcome name flag location level timeout rules_group rules_id r out i oc :
  find "ossec_config" r = Some (i, oc) →
  let accepted :=
    location ∈ ["local"; "server"; "all"] ∧ 1 ≤ level ≤ 16
    ∧ (∀ g, rules_group = Some g → _validate_rules_group g = true)
    ∧ (∀ x, rules_id = Some x → _validate_rules_id x = true) in
  let call :=
    (known ← command_exists (Some name);
     (if negb known then _ ← add_command name name flag; ret tt else ret tt);;
     add_active_response name location (Some level) (Some timeout)
       None rules_group rules_id) (State r out) in
  ∃ r1,
    (names_command r (Some name) ∧ r1 = r
     ∨ ¬ names_command r (Some name)
       ∧ r1 = modify_at (append (command_node name name flag)) [i] r)
    ∧ ((accepted
        ∧ ∃ out', call = Return true
            (State (modify_at (append (active_response_node name location (Some level)
                                         (Some timeout) None rules_group rules_id)) [i] r1)
                   out'))
       ∨ (¬ accepted ∧ ∃ out', call = Return false (State r1 out'))).
Proof.
  intros Hfind accepted call. subst accepted call.
  destruct (ensure_then_add name flag location level timeout rules_group rules_id r out i oc
              Hfind) as (r1 & out1 & oc1 & Hr1 & Hn1 & Hfind1 & ->).
  exists r1. split; [done|].
  destruct (ar_rejected_cases r1 name location (Some level) None rules_group rules_id)
    as [Hrej|Hok].
  - right. split; [by apply (constructor_rejected r1 name)|].
    eapply add_active_response_rejected in Hrej as [msg Hrun]. eexists. exact Hrun.
  - left. split.
    + destruct (decide (location ∈ ["local"; "server"; "all"])) as [?|Hloc]; cycle 1.
      { destruct Hok. apply (constructor_rejected r1 name); [done|]. tauto. }
      destruct (decide (1 ≤ level ≤ 16)) as [?|Hl]; cycle 1.
      { destruct Hok. apply (constructor_rejected r1 name); [done|]. tauto. }
      split; [done|]. split; [done|]. split.
      * intros g ->. destruct (_validate_rules_group g) eqn:E; [done|].
        destruct Hok. do 4 right. left. eauto.
      * intros x ->. destruct (_validate_rules_id x) eqn:E; [done|].
        destruct Hok. do 5 right. eauto.
    + eexists. by apply (add_active_response_accepted _ _ _ _ _ _ _ _ _ i oc1).
Qed.

(** X12: on a document with an ossec_config block,
    [create_ssh_block_response] first appends the command [host-deny]
    (executable [host-deny], timeout allowed) unless a command of that
    name exists.  It then appends the active response and returns [True]
    exactly when the location is [local], [server] or [all], the level is
    from 1 to 16 and the rules id is valid; otherwise it returns [False],
    and the command it may have appended stays.  No earlier active
    response for [host-deny] stops it. *)
Theorem create_ssh_block_response_outcome location level timeout rules_id r out i oc :
  find "ossec_config" r = Some (i, oc) →
  let accepted :=
    location ∈ ["local"; "server"; "all"] ∧ 1 ≤ level ≤ 16
    ∧ _validate_rules_id rules_id = true in
  let call := create_ssh_block_response location level timeout rules_id (State r out) in
  ∃ r1,
    (names_command r (Some "host-deny") ∧ r1 = r
     ∨ ¬ names_command r (Some "host-deny")
       ∧ r1 = modify_at (append (command_node "host-deny" "host-deny" true)) [i] r)
    ∧ ((accepted
        ∧ ∃ out', call = Return true
            (State (modify_at (append (active_response_node "host-deny" location (Some level)
                                         (Some timeout) None None (Some rules_id))) [i] r1)
                   out'))
       ∨ (¬ accepted ∧ ∃ out', call = Return false (State r1 out'))).
Proof.
  intros Hfind accepted call. subst accepted call.
  destruct (constructor_outcome "host-deny" true location level timeout None (Some rules_id)
              r out i oc Hfind) as (r1 & Hr1 & [[(? & ? & _ & Hid) Hrun]|[Hnot Hrun]]).
  - exists r1. split; [done|]. left. split; [|exact Hrun].
    split; [done|]. split; [done|]. by apply Hid.
  - exists r1. split; [done|]. right. split; [|exact Hrun].
    intros (? & ? & Hid). apply Hnot.
    split; [done|]. split; [done|]. split; [by intros ? [=]|]. by intros ? [= <-].
Qed.

Lemma create_ssh_block_response_outcome_witness :
  let location := "local" in
  let level := 7 in
  let timeout := 600 in
  let rules_id := "5763,5761,5762" in
  let r := empty_document in
  let out := @nil string in
  let i := 0%nat in
  let accepted :=
    location ∈ ["local"; "server"; "all"] ∧ 1 ≤ level ≤ 16
    ∧ _validate_rules_id rules_id = true in
  let call := create_ssh_block_response location level timeout rules_id (State r out) in
  ∃ r1,
    (names_command r (Some "host-deny") ∧ r1 = r
     ∨ ¬ names_command r (Some "host-deny")
       ∧ r1 = modify_at (append (command_node "host-deny" "host-deny" true)) [i] r)
    ∧ ((accepted
        ∧ ∃ out', call = Return true
            (State (modify_at (append (active_response_node "host-deny" location (Some level)
                                         (Some timeout) None None (Some rules_id))) [i] r1)
                   out'))
       ∨ (¬ accepted ∧ ∃ out', call = Return false (State r1 out'))).
Proof.
  intros location level timeout rules_id r out i.
  apply (create_ssh_block_response_outcome location level timeout rules_id r out i
           (Elem "ossec_config" None [])).
  reflexivity.
Defined.

(** X13: on a document with an ossec_config block,
    [create_agent_restart_response] first appends the command
    [restart-ossec] (executable [restart-ossec], timeout not allowed)
    unless a command of that name exists.  It then appends the active
    response and returns [True] exactly when the location is [local],
    [server] or [all] and the level is from 1 to 16; otherwise it returns
    [False], and the command it may have appended stays. *)
Theorem create_agent_restart_response_outcome location level timeout r out i oc :
  find "ossec_config" r = Some (i, oc) →
  let accepted := location ∈ ["local"; "server"; "all"] ∧ 1 ≤ level ≤ 16 in
  let call := create_agent_restart_response location level timeout (State r out) in
  ∃ r1,
    (names_command r (Some "restart-ossec") ∧ r1 = r
     ∨ ¬ names_command r (Some "restart-ossec")
       ∧ r1 = modify_at (append (command_node "restart-ossec" "restart-ossec" false)) [i] r)
    ∧ ((accepted
        ∧ ∃ out', call = Return true
            (State (modify_at (append (active_response_node "restart-ossec" location
                                         (Some level) (Some timeout) None None None)) [i] r1)
                   out'))
       ∨ (¬ accepted ∧ ∃ out', call = Return false (State r1 out'))).
Proof.
  intros Hfind accepted call. subst accepted call.
  destruct (constructor_outcome "restart-ossec" false location level timeout None None
              r out i oc Hfind) as (r1 & Hr1 & [[(? & ? & _) Hrun]|[Hnot Hrun]]).
  - exists r1. split; [done|]. left. split; [|exact Hrun]. done.
  - exists r1. split; [done|]. right. split; [|exact Hrun].
    intros (? & ?). apply Hnot.
    split; [done|]. split; [done|]. split; by intros ? [=].
Qed.

Lemma create_agent_restart_response_outcome_witness :
  let location := "defined-agent" in
  let level := 12 in
  let timeout := 300 in
  let r := empty_document in
  let out := @nil string in
  let i := 0%nat in
  let accepted := location ∈ ["local"; "server"; "all"] ∧ 1 ≤ level ≤ 16 in
  let call := create_agent_restart_response location level timeout (State r out) in
  ∃ r1,
    (names_command r (Some "restart-ossec") ∧ r1 = r
     ∨ ¬ names_command r (Some "restart-ossec")
       ∧ r1 = modify_at (append (command_node "restart-ossec" "restart-ossec" false)) [i] r)
    ∧ ((accepted
        ∧ ∃ out', call = Return true
            (State (modify_at (append (active_response_node "restart-ossec" location
                                         (Some level) (Some timeout) None None None)) [i] r1)
                   out'))
       ∨ (¬ accepted ∧ ∃ out', call = Return false (State r1 out'))).
Proof.
  intros location level timeout r out i.
  apply (create_agent_restart_response_outcome location level timeout r out i
           (Elem "ossec_config" None [])).
  reflexivity.
Defined.

(** X14: on a document with an ossec_config block,
    [create_user_disable_response] first appends the command
    [disable-account] (executable [disable-account], timeout allowed)
    unless a command of that name exists.  It then appends the active
    response and returns [True] exactly when the location is [local],
    [server] or [all], the level is from 1 to 16 and the rules group is
    valid; otherwise it returns [False], and the command it may have
    appended stays. *)
Theorem create_user_disable_response_outcome location level timeout rules_group r out i oc :
  find "ossec_config" r = Some (i, oc) →
  let accepted :=
    location ∈ ["local"; "server"; "all"] ∧ 1 ≤ level ≤ 16
    ∧ _validate_rules_group rules_group = true in
  let call := create_user_disable_response location level timeout rules_group (State r out) in
  ∃ r1,
    (names_command r (Some "disable-account") ∧ r1 = r
     ∨ ¬ names_command r (Some "disable-account")
       ∧ r1 = modify_at (append (command_node "disable-account" "disable-account" true)) [i] r)
    ∧ ((accepted
        ∧ ∃ out', call = Return true
            (State (modify_at (append (active_response_node "disable-account" location
                                         (Some level) (Some timeout) None
                                         (Some rules_group) None)) [i] r1)
                   out'))
       ∨ (¬ accepted ∧ ∃ out', call = Return false (State r1 out'))).
Proof.
  intros Hfind accepted call. subst accepted call.
  destruct (constructor_outcome "disable-account" true location level timeout
              (Some rules_group) None r out i oc Hfind)
    as (r1 & Hr1 & [[(? & ? & Hg & _) Hrun]|[Hnot Hrun]]).
  - exists r1. split; [done|]. left. split; [|exact Hrun].
    split; [done|]. split; [done|]. by apply Hg.
  - exists r1. split; [done|]. right. split; [|exact Hrun].
    intros (? & ? & Hg). apply Hnot.
    split; [done|]. split; [done|]. split; [by intros ? [= <-]|]. by intros ? [=].
Qed.

Lemma create_user_disable_response_outcome_witness :
  let location := "server" in
  let level := 10 in
  let timeout := 3600 in
  let rules_group := "authentication_failure," in
  let r := guarded_document in
  let out := @nil string in
  let i := 0%nat in
  let accepted :=
    location ∈ ["local"; "server"; "all"] ∧ 1 ≤ level ≤ 16
    ∧ _validate_rules_group rules_group = true in
  let call := create_user_disable_response location level timeout rules_group (State r out) in
  ∃ r1,
    (names_command r (Some "disable-account") ∧ r1 = r
     ∨ ¬ names_command r (Some "disable-account")
       ∧ r1 = modify_at (append (command_node "disable-account" "disable-account" true)) [i] r)
    ∧ ((accepted
        ∧ ∃ out', call = Return true
            (State (modify_at (append (active_response_node "disable-account" location
                                         (Some level) (Some timeout) None
                                         (Some rules_group) None)) [i] r1)
                   out'))
       ∨ (¬ accepted ∧ ∃ out', call = Return false (State r1 out'))).
Proof.
  intros location level timeout rules_group r out i.
  apply (create_user_disable_response_outcome location level timeout rules_group r out i
           (Elem "ossec_config" None
              [command_node "host-deny" "host-deny" true;
               active_response_node "host-deny" "local" None None None None None])).
  reflexivity.
Defined.

End constructors.

(** ** Integrations *)

Section integrations.

Lemma leaf_step_in_new q t v r out e n :
  get_at q r = Some e →
  (new_element ← SubElement (q ++ [length (children e)]) t; assign_text new_element v)
    (State (modify_at (extend [n]) q r) out)
  = Return tt (State (modify_at (extend [extend [leaf t v] n]) q r) out).
Proof.
  intros He. unfold bind at 1.
  rewrite (SubElement_eval _ _ _ _ n) by by apply get_new_child.
  unfold assign_text, update_root. cbn [root stdout].
  rewrite (modify_new_child _ _ _ n) by by apply get_new_child.
  by rewrite (modify_new_child _ _ _ e).
Qed.

Lemma for_each_leaves_in_new (items : list (string * string)) q r out e n :
  get_at q r = Some e →
  for_each items
    (fun item => new_element ← SubElement (q ++ [length (children e)]) item.1;
                 assign_text new_element item.2)
    (State (modify_at (extend [n]) q r) out)
  = Return tt
      (State (modify_at (extend [extend (map (fun item => leaf item.1 item.2) items) n]) q r)
             out).
Proof.
  intros He. revert n. induction items as [|[t v] items IH]; intros n.
  - cbn [for_each map]. unfold ret. by rewrite extend_nil.
  - cbn [for_each]. unfold bind at 1. rewrite (leaf_step_in_new _ _ _ _ _ e) by done.
    rewrite IH, extend_extend. done.
Qed.

Lemma filter_leaves_key (items : list (string * string)) k v :
  NoDup items.*1 → (k, v) ∈ items →
  filter (fun c => has_tag k c = true) (map (fun item => leaf item.1 item.2) items)
  = [leaf k v].
Proof.
  induction items as [|[t w] items IH]; intros Hnd Hin; [by apply elem_of_nil in Hin|].
  cbn [fmap list_fmap fst] in Hnd. apply NoDup_cons in Hnd as [Hfresh Hnd].
  cbn [map fst snd].
  assert (∀ l : list (string * string), k ∉ l.*1 →
            filter (fun c => has_tag k c = true) (map (fun item => leaf item.1 item.2) l) = [])
    as Hnone.
  { clear. induction l as [|[t w] l IH]; intros Hk; [done|].
    cbn [fmap list_fmap fst] in Hk. apply not_elem_of_cons in Hk as [Hne Hk].
    cbn [map fst snd]. rewrite filter_cons_False; [by apply IH|].
    unfold has_tag. cbn. intros ?%String.eqb_eq. done. }
  apply elem_of_cons in Hin as [[= -> ->]|Hin].
  - rewrite filter_cons_True by apply String.eqb_refl. by rewrite Hnone.
  - rewrite filter_cons_False; [by apply IH|].
    unfold has_tag. cbn. intros ->%String.eqb_eq.
    apply Hfresh. apply list_elem_of_fmap. by exists (k, v).
Qed.

Lemma filter_leaves_other (items : list (string * string)) k :
  k ∉ items.*1 →
  filter (fun c => has_tag k c = true) (map (fun item => leaf item.1 item.2) items) = [].
Proof.
  induction items as [|[t w] items IH]; intros Hk; [done|].
  cbn [fmap list_fmap fst] in Hk. apply not_elem_of_cons in Hk as [Hne Hk].
  cbn [map fst snd]. rewrite filter_cons_False; [by apply IH|].
  unfold has_tag. cbn. intros ?%String.eqb_eq. done.
Qed.

Lemma brought_in_integration i len items :
  Forall (fun item : string * string => item.1 ≠ "integration") items →
  filter (fun pe : path * Element => has_tag "integration" pe.2 = true)
         (brought_in i len (integration_node items))
  = [([i; len], integration_node items)].
Proof.
  intros Hitems. unfold brought_in. cbn [map under fst snd].
  rewrite filter_cons_True by done. f_equal.
  rewrite descendants_eq. cbn [integration_node children].
  generalize 0%nat. induction Hitems as [|[t v] items Ht _ IH]; intros k; [done|].
  cbn [map descendants_from fst snd leaf descendants app under].
  rewrite filter_cons_False; [apply IH|].
  cbn. unfold has_tag. cbn. intros ?%String.eqb_eq. done.
Qed.

(** X15: on a document with an ossec_config block, [add_integration]
    always succeeds: it never looks for an integration of the same name.
    It appends one integration element with one leaf per item of the
    mapping and returns that element.  [get_integrations] then lists one
    more mapping, which holds every item of the mapping given and no other
    key, the mappings listed before keeping their order. *)
Theorem add_integration_listed integration_details r out i oc :
  find "ossec_config" r = Some (i, oc) →
  NoDup integration_details.*1 →
  Forall (fun item : string * string => item.1 ≠ "integration") integration_details →
  ∃ s' entry,
    add_integration integration_details (State r out)
    = Return [i; length (children oc)] s'
    ∧ root s' = modify_at (append (integration_node integration_details)) [i] r
    ∧ (∃ before after,
         get_integrations (State r out) = Return (before ++ after) (State r out)
         ∧ get_integrations s' = Return (before ++ entry :: after) s')
    ∧ (∀ k v, (k, v) ∈ integration_details → entry !! k = Some (Some v))
    ∧ (∀ k, k ∉ integration_details.*1 → entry !! k = None).
Proof.
  intros Hfind Hnd Hplain. pose proof (find_lookup _ _ _ _ Hfind) as [Hi Hoc].
  assert (get_at [i] r = Some oc) as Hget by (simpl; by rewrite Hi).
  assert (add_integration integration_details (State r out)
          = Return [i; length (children oc)]
              (State (modify_at (extend [integration_node integration_details]) [i] r)
                     (out ++ ["New integration with name '"
                              +:+ fmt (dict_get "name" integration_details)
                              +:+ "' has been added."]))) as Hrun.
  { unfold add_integration. unfold bind at 1. rewrite find_path_eval, Hfind.
    cbn [fmap option_fmap option_map SubElement_of fst].
    unfold bind at 1. rewrite (SubElement_eval _ _ _ _ oc) by done.
    unfold bind at 1.
    rewrite (for_each_leaves_in_new integration_details [i] r out oc) by done.
    unfold extend at 2. cbn [tag text children app]. reflexivity. }
  eexists _, (element_info (integration_node integration_details)).
  split; [exact Hrun|]. split; [reflexivity|]. split_and!.
  - destruct (findall_desc_append "integration" r i oc
                (integration_node integration_details) Hi)
      as (before & after & Hr & Hr'); [by apply container_not_named|].
    exists (map (fun pe : path * Element => element_info pe.2) before),
           (map (fun pe : path * Element => element_info pe.2) after).
    unfold get_integrations. rewrite !get_list_eval. cbn [root].
    rewrite Hr, Hr', !map_app, brought_in_integration by done. split; reflexivity.
  - intros k v Hin. rewrite element_info_last. cbn [integration_node children].
    by rewrite (filter_leaves_key _ k v).
  - intros k Hk. rewrite element_info_last. cbn [integration_node children].
    by rewrite filter_leaves_other.
Qed.

Lemma add_integration_listed_witness :
  let integration_details :=
    [("name", "slack"); ("hook_url", "https://hooks.example/abc"); ("level", "12")] in
  let r := empty_document in
  let out := @nil string in
  let i := 0%nat in
  let oc := Elem "ossec_config" None [] in
  ∃ s' entry,
    add_integration integration_details (State r out)
    = Return [i; length (children oc)] s'
    ∧ root s' = modify_at (append (integration_node integration_details)) [i] r
    ∧ (∃ before after,
         get_integrations (State r out) = Return (before ++ after) (State r out)
         ∧ get_integrations s' = Return (before ++ entry :: after) s')
    ∧ (∀ k v, (k, v) ∈ integration_details → entry !! k = Some (Some v))
    ∧ (∀ k, k ∉ integration_details.*1 → entry !! k = None).
Proof.
  intros integration_details r out i oc.
  apply (add_integration_listed integration_details r out i oc).
  - reflexivity.
  - apply (bool_decide_unpack _). by vm_compute.
  - repeat (constructor; [done|]). constructor.
Defined.

End integrations.

(** ** Sections addressed by a path *)

Section paths.

Lemma iterfind_shift steps at_ e :
  iterfind steps at_ e
  = map (fun pe : path * Element => (at_ ++ pe.1, pe.2)) (iterfind steps [] e).
Proof.
  revert at_ e. induction steps as [|t steps IH]; intros at_ e.
  - cbn [iterfind map fst snd]. by rewrite app_nil_r.
  - cbn [iterfind]. induction (findall t e) as [|[i c] l IHl]; [done|].
    cbn [flat_map fst snd]. rewrite map_app, IHl. f_equal.
    rewrite (IH (at_ ++ [i])), (IH ([] ++ [i])), map_map. apply map_ext.
    intros [q x]. cbn [fst snd]. by rewrite <- app_assoc.
Qed.

Lemma head_map {A B} (f : A → B) (l : list A) : head (map f l) = f <$> head l.
Proof. by destruct l. Qed.

Lemma head_iterfind_shift steps i c :
  head (iterfind steps [i] c) = under i <$> head (iterfind steps [] c).
Proof. rewrite iterfind_shift, head_map. by destruct (head (iterfind steps [] c)) as [[q x]|]. Qed.

Lemma tag_modify_at f q c e :
  get_at q c = Some e → tag (f e) = tag e → tag (modify_at f q c) = tag c.
Proof. destruct q; simpl; [|done]. by intros [= ->]. Qed.

Lemma has_tag_modify_at t f q c e :
  get_at q c = Some e → tag (f e) = tag e → has_tag t (modify_at f q c) = has_tag t c.
Proof. intros He Hf. unfold has_tag. by rewrite (tag_modify_at _ _ _ e). Qed.

(** The first match of a path is found again, at the same position,
    after an in-place change of that element which keeps its tag. *)
Lemma head_iterfind_modify f steps : ∀ e0 q e,
  head (iterfind steps [] e0) = Some (q, e) → tag (f e) = tag e →
  get_at q e0 = Some e
  ∧ head (iterfind steps [] (modify_at f q e0)) = Some (q, f e).
Proof.
  induction steps as [|t steps IH]; intros e0 q e Hhead Hf.
  - cbn [iterfind head] in Hhead. injection Hhead as <- <-. done.
  - cbn [iterfind] in Hhead |- *. unfold findall in *.
    assert (∀ cs k,
      head (flat_map (fun ie : nat * Element => iterfind steps ([] ++ [ie.1]) ie.2)
                     (children_from t k cs)) = Some (q, e) →
      ∃ j q' c, q = (k + j)%nat :: q' ∧ cs !! j = Some c ∧ get_at q' c = Some e
        ∧ head (flat_map (fun ie : nat * Element => iterfind steps ([] ++ [ie.1]) ie.2)
                         (children_from t k (alter (modify_at f q') j cs)))
          = Some (q, f e)) as Hinner.
    { clear Hhead. induction cs as [|c cs IHcs]; intros k Hk; [done|].
      cbn [children_from] in Hk.
      assert (head (flat_map (fun ie : nat * Element => iterfind steps ([] ++ [ie.1]) ie.2)
                             (children_from t (S k) cs)) = Some (q, e) →
              ∃ j q' c0, q = (k + j)%nat :: q' ∧ (c :: cs) !! j = Some c0
                ∧ get_at q' c0 = Some e
                ∧ head (flat_map (fun ie : nat * Element =>
                                    iterfind steps ([] ++ [ie.1]) ie.2)
                                 (children_from t (S k)
                                    (alter (modify_at f q') (pred j) cs)))
                  = Some (q, f e) ∧ j ≠ 0%nat) as Hlater.
      { intros Hk'. destruct (IHcs _ Hk') as (j & q' & c0 & -> & Hj & Hget & Hres).
        exists (S j), q', c0. split_and!; [f_equal; lia|done|done|done|done]. }
      destruct (has_tag t c) eqn:Hc.
      - cbn [flat_map fst snd app] in Hk.
        destruct (head (iterfind steps [k] c)) as [[q0 x0]|] eqn:Hfirst.
        + assert (Some (q0, x0) = Some (q, e)) as [= -> ->].
          { rewrite <- Hk. by destruct (iterfind steps [k] c). }
          rewrite head_iterfind_shift in Hfirst.
          destruct (head (iterfind steps [] c)) as [[q' x']|] eqn:Hsub; [|done].
          injection Hfirst as <- <-.
          destruct (IH _ _ _ Hsub Hf) as [Hget Hmod].
          exists 0%nat, q', c. split_and!; [f_equal; lia|done|done|].
          cbn [alter list_alter children_from].
          rewrite (has_tag_modify_at _ _ _ _ x') by done. rewrite Hc.
          cbn [flat_map fst snd app].
          pose proof (head_iterfind_shift steps k (modify_at f q' c)) as Hshift.
          rewrite Hmod in Hshift. cbn in Hshift.
          by destruct (iterfind steps [k] (modify_at f q' c)).
        + assert (iterfind steps [k] c = []) as Hnil
            by by destruct (iterfind steps [k] c).
          rewrite Hnil in Hk. cbn [app] in Hk.
          destruct (Hlater Hk) as (j & q' & c0 & -> & Hj & Hget & Hres & Hne).
          exists j, q', c0. split_and!; [done..|].
          destruct j as [|j]; [done|]. cbn [alter list_alter children_from].
          rewrite Hc. cbn [flat_map fst snd app]. rewrite Hnil. exact Hres.
      - destruct (Hlater Hk) as (j & q' & c0 & -> & Hj & Hget & Hres & Hne).
        exists j, q', c0. split_and!; [done..|].
        destruct j as [|j]; [done|]. cbn [alter list_alter children_from].
        rewrite Hc. exact Hres. }
    destruct (Hinner _ _ Hhead) as (j & q' & c & -> & Hj & Hget & Hres).
    cbn [Nat.add get_at modify_at children]. rewrite Hj. split; [done|]. exact Hres.
Qed.

Lemma find_by_path_modify f steps r p e :
  find_by_path steps r = Some (p, e) → tag (f e) = tag e →
  get_at p r = Some e ∧ find_by_path steps (modify_at f p r) = Some (p, f e).
Proof.
  destruct steps as [|t steps]; [done|]. unfold find_by_path.
  apply head_iterfind_modify.
Qed.

Lemma find_by_path_get_at steps r p e :
  find_by_path steps r = Some (p, e) → get_at p r = Some e.
Proof.
  intros H. by destruct (find_by_path_modify (fun x => x) steps r p e H).
Qed.

Lemma remove_found_eval p found : ∀ k r out,
  remove_found p found k (State r out)
  = Return tt (State (modify_at (drop_found found k) p r) out).
Proof.
  induction found as [|i found IH]; intros k r out.
  - cbn [remove_found drop_found]. unfold ret. by rewrite modify_at_id.
  - cbn [remove_found drop_found]. unfold bind at 1, update_root. cbn [root stdout].
    rewrite IH, modify_at_compose. done.
Qed.

Lemma drop_found_spec t rest : ∀ mid k tg x,
  drop_found (children_from t (length mid + k) rest).*1 k (Elem tg x (mid ++ rest))
  = Elem tg x (mid ++ filter (fun c => has_tag t c = false) rest).
Proof.
  induction rest as [|c rest IH]; intros mid k tg x; [done|].
  cbn [children_from]. destruct (has_tag t c) eqn:Hc.
  - cbn [fmap list_fmap fst drop_found].
    replace (length mid + k - k)%nat with (length mid) by lia.
    unfold remove_child. cbn [tag text children].
    rewrite delete_middle. rewrite filter_cons_False by (by rewrite Hc).
    rewrite <- (IH mid (S k)). by rewrite Nat.add_succ_r.
  - rewrite filter_cons_True by done.
    replace (mid ++ c :: rest) with ((mid ++ [c]) ++ rest) by by rewrite <- app_assoc.
    replace (mid ++ c :: filter (fun c0 => has_tag t c0 = false) rest)
      with ((mid ++ [c]) ++ filter (fun c0 => has_tag t c0 = false) rest)
      by by rewrite <- app_assoc.
    rewrite <- (IH (mid ++ [c]) k). rewrite length_app. cbn [length].
    by replace (length mid + 1 + k)%nat with (S (length mid + k)) by lia.
Qed.

Lemma drop_found_all t e :
  drop_found (findall t e).*1 0 e = without_children t e.
Proof.
  destruct e as [tg x cs]. unfold findall, without_children. cbn [tag text children].
  exact (drop_found_spec t cs [] 0 tg x).
Qed.

(** X16: [remove_config_section] looks the parent up by the path without
    its last step.  When that finds an element, every child of it named by
    the last step is removed, the other children keeping their order, and
    nothing else in the document changes; only this first parent is
    visited.  When it finds none the document is unchanged, which is
    always so for a path of one step: a top-level section cannot be
    removed. *)
Theorem remove_config_section_outcome steps r out :
  plain_path steps = true →
  let section_name := List.last steps EmptyString in
  (∀ p e, find_by_path (removelast steps) r = Some (p, e) →
     get_at p r = Some e
     ∧ remove_config_section steps (State r out)
       = Return tt
           (State (modify_at (without_children section_name) p r)
                  (out ++ ["Section '" +:+ section_name +:+ "' at path '"
                           +:+ path_string steps +:+ "' has been removed."])))
  ∧ (find_by_path (removelast steps) r = None →
     remove_config_section steps (State r out)
     = Return tt (State r (out ++ ["No section found at path '" +:+ path_string steps
                                   +:+ "' to remove."])))
  ∧ (length steps = 1%nat → find_by_path (removelast steps) r = None).
Proof.
  intros _ section_name. split_and!.
  - intros p e Hfind. pose proof (find_by_path_get_at _ _ _ _ Hfind) as Hget.
    split; [done|]. unfold remove_config_section, bind at 1, get_root. cbn [root].
    rewrite Hfind. unfold bind at 1. rewrite remove_found_eval.
    unfold print. cbn [root stdout]. do 2 f_equal.
    apply modify_at_ext. intros e' He'. assert (e' = e) as -> by congruence.
    apply drop_found_all.
  - intros Hfind. unfold remove_config_section, bind at 1, get_root. cbn [root].
    by rewrite Hfind.
  - intros Hlen. destruct steps as [|t [|t' steps]]; done.
Qed.

Lemma remove_config_section_outcome_witness :
  let steps := ["ossec_config"; "command"] in
  let r := guarded_document in
  let out := @nil string in
  let section_name := List.last steps EmptyString in
  (∀ p e, find_by_path (removelast steps) r = Some (p, e) →
     get_at p r = Some e
     ∧ remove_config_section steps (State r out)
       = Return tt
           (State (modify_at (without_children section_name) p r)
                  (out ++ ["Section '" +:+ section_name +:+ "' at path '"
                           +:+ path_string steps +:+ "' has been removed."])))
  ∧ (find_by_path (removelast steps) r = None →
     remove_config_section steps (State r out)
     = Return tt (State r (out ++ ["No section found at path '" +:+ path_string steps
                                   +:+ "' to remove."])))
  ∧ (length steps = 1%nat → find_by_path (removelast steps) r = None).
Proof.
  intros steps r out.
  apply (remove_config_section_outcome steps r out). reflexivity.
Defined.

End paths.

(** ** Ruleset lists *)

Section ruleset.

Lemma add_ruleset_list_missing steps v r out :
  find_by_path steps r = None →
  add_ruleset_list steps v (State r out)
  = Return tt (State r (out ++ ["Ruleset section at '" +:+ path_string steps
                                +:+ "' does not exist."])).
Proof.
  intros Hfind. unfold add_ruleset_list, bind at 1, get_root. cbn [root].
  by rewrite Hfind.
Qed.

Lemma add_ruleset_list_present steps v r out p e :
  find_by_path steps r = Some (p, e) → Some v ∈ existing_lists e →
  add_ruleset_list steps v (State r out)
  = Return tt (State r (out ++ ["List with value '" +:+ v
                                +:+ "' already exists in ruleset."])).
Proof.
  intros Hfind Hin. unfold add_ruleset_list, bind at 1, get_root. cbn [root].
  rewrite Hfind. fold (existing_lists e). by rewrite bool_decide_true.
Qed.

Lemma add_ruleset_list_fresh steps v r out p e :
  find_by_path steps r = Some (p, e) → Some v ∉ existing_lists e →
  add_ruleset_list steps v (State r out)
  = Return tt (State (modify_at (append (leaf "list" v)) p r)
                     (out ++ ["New list with value '" +:+ v
                              +:+ "' has been added to ruleset."])).
Proof.
  intros Hfind Hin. pose proof (find_by_path_get_at _ _ _ _ Hfind) as Hget.
  unfold add_ruleset_list, bind at 1, get_root. cbn [root].
  rewrite Hfind. fold (existing_lists e). rewrite bool_decide_false by done.
  cbn [negb]. unfold bind at 1. rewrite (SubElement_eval _ _ _ _ e) by done.
  unfold bind at 1, assign_text, update_root. cbn [root stdout].
  rewrite (modify_new_child _ _ _ e) by done. reflexivity.
Qed.

Lemma existing_lists_append v e : Some v ∈ existing_lists (append (leaf "list" v) e).
Proof.
  unfold existing_lists, findall, append. cbn [children].
  rewrite children_from_app, map_app. apply elem_of_app. right.
  cbn. apply list_elem_of_here.
Qed.

(** X17: [add_ruleset_list] on the first element the path finds: when the
    value is the text of no child named list, one such child is appended;
    when it is, or when the path finds nothing, the document is left as it
    is.  A second call with the same arguments never changes the
    document. *)
Theorem add_ruleset_list_twice steps v r out :
  plain_path steps = true →
  ∃ s1 s2,
    add_ruleset_list steps v (State r out) = Return tt s1
    ∧ add_ruleset_list steps v s1 = Return tt s2
    ∧ root s2 = root s1
    ∧ (find_by_path steps r = None → root s1 = r)
    ∧ (∀ p e, find_by_path steps r = Some (p, e) →
         (Some v ∈ existing_lists e → root s1 = r)
         ∧ (Some v ∉ existing_lists e →
            root s1 = modify_at (append (leaf "list" v)) p r
            ∧ find_by_path steps (root s1) = Some (p, append (leaf "list" v) e))).
Proof.
  intros _. destruct (find_by_path steps r) as [[p e]|] eqn:Hfind.
  - destruct (decide (Some v ∈ existing_lists e)) as [Hin|Hin].
    + eexists _, _. split; [by apply (add_ruleset_list_present _ _ _ _ p e)|].
      split; [by apply (add_ruleset_list_present _ _ _ _ p e)|].
      split; [done|]. split; [done|]. intros p' e' [= <- <-]. split; [done|].
      intros Hout. by destruct Hout.
    + destruct (find_by_path_modify (append (leaf "list" v)) steps r p e Hfind eq_refl)
        as [Hget Hagain].
      eexists _, _. split; [by apply (add_ruleset_list_fresh _ _ _ _ p e)|].
      split; [apply (add_ruleset_list_present _ _ _ _ p (append (leaf "list" v) e));
              [exact Hagain|apply existing_lists_append]|].
      split; [done|]. split; [done|]. intros p' e' [= <- <-]. split; [done|].
      intros _. by split.
  - eexists _, _. split; [by apply add_ruleset_list_missing|].
    split; [by apply add_ruleset_list_missing|]. split; [done|]. split; [done|].
    intros p e [=].
Qed.

Lemma add_ruleset_list_twice_witness :
  let steps := ["ossec_config"; "ruleset"] in
  let v := "etc/lists/audit-keys" in
  let r := Elem "root" None [Elem "ossec_config" None [Elem "ruleset" None []]] in
  let out := @nil string in
  ∃ s1 s2,
    add_ruleset_list steps v (State r out) = Return tt s1
    ∧ add_ruleset_list steps v s1 = Return tt s2
    ∧ root s2 = root s1
    ∧ (find_by_path steps r = None → root s1 = r)
    ∧ (∀ p e, find_by_path steps r = Some (p, e) →
         (Some v ∈ existing_lists e → root s1 = r)
         ∧ (Some v ∉ existing_lists e →
            root s1 = modify_at (append (leaf "list" v)) p r
            ∧ find_by_path steps (root s1) = Some (p, append (leaf "list" v) e))).
Proof.
  intros steps v r out. apply (add_ruleset_list_twice steps v r out). reflexivity.
Defined.

End ruleset.

(** ** Writing a section *)

Section sections.

Lemma bind_ext_r {A B} (m : M A) (k k' : A → M B) st :
  (∀ a s, k a s = k' a s) → bind m k st = bind m k' st.
Proof. intros H. unfold bind. destruct (m st); [apply H|done]. Qed.

Lemma apply_update_text t v p st :
  ConfigSection.apply_update t (SText v) p st = write_child p t v st.
Proof.
  cbn [ConfigSection.apply_update]. unfold write_child, find_or_create, bind, get_root.
  destruct (get_at p (root st)) as [e|]; [|done].
  destruct (find t e) as [[i c]|]; reflexivity.
Qed.

Lemma apply_updates_texts p items st :
  ConfigSection.apply_updates p (texts items) st
  = for_each items (fun item => write_child p item.1 (id item.2)) st.
Proof.
  unfold ConfigSection.apply_updates. revert st.
  induction items as [|[t v] items IH]; intros st; [done|].
  cbn [texts map for_each fst snd]. unfold bind. rewrite apply_update_text.
  unfold id at 1. destruct (write_child p t v st); [apply IH|done].
Qed.

Lemma map_pair_id (items : list (string * string)) :
  map (fun item : string * string => (item.1, id item.2)) items = items.
Proof. induction items as [|[t v] items IH]; [done|]. cbn [map fst snd]. by f_equal. Qed.

Lemma apply_updates_texts_eval p items r out e :
  get_at p r = Some e →
  ConfigSection.apply_updates p (texts items) (State r out)
  = Return tt (State (modify_at (set_children items) p r) out).
Proof.
  intros He. rewrite apply_updates_texts, (for_each_write id items p r out e) by done.
  by rewrite map_pair_id.
Qed.

Lemma for_each_leaves_at (items : list (string * string)) p : ∀ r out e,
  get_at p r = Some e →
  for_each items
    (fun item => child ← SubElement p item.1; assign_text child item.2) (State r out)
  = Return tt (State (modify_at (extend (leaves items)) p r) out).
Proof.
  induction items as [|[t v] items IH]; intros r out e He.
  - cbn [for_each leaves map]. unfold ret. rewrite modify_at_id; [done|apply extend_nil].
  - cbn [for_each fst snd]. unfold bind at 1, bind at 1.
    rewrite (SubElement_eval _ _ _ _ e) by done.
    unfold assign_text, update_root. cbn [root stdout].
    rewrite (modify_new_child _ _ _ e) by done.
    rewrite (IH _ _ (extend [leaf t v] e)) by by apply get_at_modify_at.
    rewrite modify_at_compose. do 2 f_equal. apply modify_at_ext.
    intros e' _. unfold compose. by rewrite extend_extend.
Qed.

Lemma tag_ensured tags : ∀ e, tag (ensured tags e).1 = tag e.
Proof.
  destruct tags as [|t tags]; intros e; [done|]. cbn [ensured].
  by destruct (find t e) as [[i c]|].
Qed.

Lemma ensure_path_eval tags : ∀ current_element e r out,
  get_at current_element r = Some e →
  ensure_path current_element tags (State r out)
  = Return (current_element ++ (ensured tags e).2)
      (State (modify_at (fun _ => (ensured tags e).1) current_element r) out).
Proof.
  induction tags as [|t tags IH]; intros cur e r out He.
  - cbn [ensure_path ensured fst snd]. unfold ret. rewrite app_nil_r.
    rewrite <- (replace_at (fun x => x)) by done. by rewrite modify_at_id.
  - cbn [ensure_path ensured]. unfold bind at 1, find_or_create, bind at 1, get_root.
    cbn [root]. rewrite He. destruct (find t e) as [[i c]|] eqn:Hfind.
    + unfold ret. cbn [fst snd].
      pose proof (find_lookup _ _ _ _ Hfind) as [Hi _].
      rewrite (IH _ c) by (rewrite get_at_snoc, He; exact Hi).
      rewrite <- app_assoc. cbn [app]. do 2 f_equal.
      rewrite modify_at_app. apply modify_at_ext. intros e' He'.
      assert (e' = e) as -> by congruence. reflexivity.
    + rewrite (SubElement_eval _ _ _ _ e) by done. cbn [fst snd].
      rewrite (IH _ (Elem t None [])) by by apply get_new_child.
      rewrite <- app_assoc. cbn [app]. do 2 f_equal.
      rewrite (modify_new_child _ _ _ e) by done.
      apply modify_at_ext. intros e' He'.
      assert (e' = e) as -> by congruence. reflexivity.
Qed.

Lemma map_eq_nil_inv {A B} (f : A → B) l : map f l = [] → l = [].
Proof. by destruct l. Qed.

(** Where the path finds nothing, the loop [ensure_path] leaves a document
    in which the path finds exactly the element the loop ends on, and that
    element is new and empty. *)
Lemma ensured_found tags : ∀ e0,
  iterfind tags [] e0 = [] →
  ∃ n, iterfind tags [] (ensured tags e0).1 = [((ensured tags e0).2, n)]
       ∧ children n = [] ∧ text n = None.
Proof.
  induction tags as [|t tags IH]; intros e0 Hnone; [done|].
  cbn [iterfind ensured] in *. unfold findall in *.
  destruct (find t e0) as [[i c]|] eqn:Hfind.
  - apply find_spec in Hfind as (pre & rest & Hcs & -> & Hpre & Hc).
    rewrite Hcs in Hnone |- *. rewrite children_from_app in Hnone.
    rewrite children_from_none in Hnone by done.
    cbn [app children_from] in Hnone. rewrite Hc in Hnone.
    cbn [flat_map fst snd] in Hnone. apply app_eq_nil in Hnone as [Hsub Hrest].
    rewrite iterfind_shift in Hsub. apply map_eq_nil_inv in Hsub.
    destruct (IH _ Hsub) as (n & Hn & Hkids & Htext).
    exists n. split; [|done]. cbn [fst snd children]. rewrite alter_middle.
    rewrite children_from_app, children_from_none by done.
    cbn [app children_from]. unfold has_tag in *. rewrite tag_ensured, Hc.
    cbn [flat_map fst snd]. rewrite Hrest, app_nil_r.
    rewrite iterfind_shift, Hn. reflexivity.
  - apply find_absent in Hfind. cbn [fst snd]. unfold extend. cbn [children].
    rewrite children_from_app, children_from_none by done.
    cbn [app children_from]. unfold has_tag. rewrite tag_ensured.
    cbn [tag]. rewrite String.eqb_refl. cbn [flat_map fst snd]. rewrite app_nil_r.
    destruct tags as [|t' tags].
    + exists (Elem t None []). done.
    + destruct (IH (Elem t None []) eq_refl) as (n & Hn & Hkids & Htext).
      exists n. split; [|done]. rewrite iterfind_shift, Hn. reflexivity.
Qed.

Lemma plain_path_steps steps : plain_path steps = true → steps ≠ [].
Proof. by destruct steps. Qed.

(** The element the path finds once [ensure_path] has run. *)
Lemma ensure_path_found steps r out :
  steps ≠ [] → find_by_path steps r = None →
  ∃ p r1 n,
    ensure_path [] steps (State r out) = Return p (State r1 out)
    ∧ find_by_path steps r1 = Some (p, n)
    ∧ children n = [] ∧ text n = None.
Proof.
  intros Hsteps Hfind.
  assert (iterfind steps [] r = []) as Hnone.
  { destruct steps; [done|]. unfold find_by_path in Hfind.
    by destruct (iterfind (s :: steps) [] r). }
  destruct (ensured_found steps r Hnone) as (n & Hn & Hkids & Htext).
  exists (ensured steps r).2, (ensured steps r).1, n.
  split; [by rewrite (ensure_path_eval steps [] r)|].
  split; [|done]. destruct steps; [done|]. unfold find_by_path. by rewrite Hn.
Qed.

Lemma find_extend t e l x : find t e = Some x → find t (extend l e) = Some x.
Proof.
  unfold find, findall, extend. cbn [children]. rewrite children_from_app.
  by destruct (children_from t 0 (children e)).
Qed.

Lemma section_exists_eval steps st :
  section_exists steps st = Return (bool_decide (find_by_path steps (root st) ≠ None)) st.
Proof. reflexivity. Qed.

Lemma update_config_section_found steps updates r out p e :
  find_by_path steps r = Some (p, e) →
  update_config_section steps updates (State r out)
  = ConfigSection.apply_updates p updates (State r out).
Proof.
  intros Hfind. unfold update_config_section, bind at 1, get_root. cbn [root].
  by rewrite Hfind.
Qed.

Lemma update_config_section_missing steps updates r out :
  find_by_path steps r = None →
  update_config_section steps updates (State r out)
  = (current_element ← ensure_path [] steps;
     ConfigSection.apply_updates current_element updates) (State r out).
Proof.
  intros Hfind. unfold update_config_section, bind at 1, get_root. cbn [root].
  by rewrite Hfind.
Qed.

Lemma add_config_section_found steps new_section r out p e :
  find_by_path steps r = Some (p, e) →
  add_config_section steps new_section (State r out)
  = ConfigSection.create_section p new_section (State r out).
Proof.
  intros Hfind. unfold add_config_section, bind at 1, get_root. cbn [root].
  by rewrite Hfind.
Qed.

Lemma add_config_section_missing steps new_section r out :
  find_by_path steps r = None →
  add_config_section steps new_section (State r out)
  = (current_element ← ensure_path [] steps;
     ConfigSection.create_section current_element new_section) (State r out).
Proof.
  intros Hfind. unfold add_config_section, bind at 1, get_root. cbn [root].
  by rewrite Hfind.
Qed.

(** X18: after [update_config_section] with a mapping of texts under
    plain, distinct keys, the path
    finds a section whose first child of each key given holds the text
    given, whatever the document was.  When the path found a section
    before, that first match is the one updated, in place: its tag and
    the texts read under the other keys stay, and so does the rest of
    the document.  Nothing is printed. *)
Theorem update_config_section_reads_back steps items r out :
  plain_path steps = true → plain_keys items = true → NoDup items.*1 →
  ∃ r' p e',
    update_config_section steps (texts items) (State r out) = Return tt (State r' out)
    ∧ find_by_path steps r' = Some (p, e')
    ∧ section_exists steps (State r' out) = Return true (State r' out)
    ∧ (∀ t v, (t, v) ∈ items → child_text t e' = Some v)
    ∧ (∀ p0 e0, find_by_path steps r = Some (p0, e0) →
         p = p0 ∧ r' = modify_at (fun _ => e') p0 r ∧ tag e' = tag e0
         ∧ ∀ t, t ∉ items.*1 → child_text t e' = child_text t e0).
Proof.
  intros Hsteps%plain_path_steps _ Hnd.
  destruct (find_by_path steps r) as [[p0 e0]|] eqn:Hfind.
  - destruct (find_by_path_modify (set_children items) steps r p0 e0 Hfind
                (tag_set_children _ _)) as [Hget Hagain].
    destruct (set_children_reads_back items e0 Hnd) as (Htag & Hback & Hother).
    exists (modify_at (set_children items) p0 r), p0, (set_children items e0).
    split; [rewrite (update_config_section_found _ _ _ _ p0 e0) by done;
            by apply (apply_updates_texts_eval _ _ _ _ e0)|].
    split; [done|]. split; [rewrite section_exists_eval; cbn [root];
                             by rewrite Hagain, bool_decide_true|].
    split; [done|]. intros p e [= <- <-].
    split; [done|]. split; [by apply replace_at|]. done.
  - destruct (ensure_path_found steps r out Hsteps Hfind)
      as (p & r1 & n & Hrun & Hfound & _ & _).
    destruct (find_by_path_modify (set_children items) steps r1 p n Hfound
                (tag_set_children _ _)) as [Hget Hagain].
    destruct (set_children_reads_back items n Hnd) as (Htag & Hback & Hother).
    exists (modify_at (set_children items) p r1), p, (set_children items n).
    split; [rewrite update_config_section_missing by done;
            unfold bind at 1; rewrite Hrun;
            by apply (apply_updates_texts_eval _ _ _ _ n)|].
    split; [done|]. split; [rewrite section_exists_eval; cbn [root];
                             by rewrite Hagain, bool_decide_true|].
    split; [done|]. intros p0 e0 [=].
Qed.

Lemma update_config_section_reads_back_witness :
  let steps := ["ossec_config"; "global"] in
  let items := [("email_notification", "yes"); ("smtp_server", "mail.example")] in
  let r := empty_document in
  let out := @nil string in
  ∃ r' p e',
    update_config_section steps (texts items) (State r out) = Return tt (State r' out)
    ∧ find_by_path steps r' = Some (p, e')
    ∧ section_exists steps (State r' out) = Return true (State r' out)
    ∧ (∀ t v, (t, v) ∈ items → child_text t e' = Some v)
    ∧ (∀ p0 e0, find_by_path steps r = Some (p0, e0) →
         p = p0 ∧ r' = modify_at (fun _ => e') p0 r ∧ tag e' = tag e0
         ∧ ∀ t, t ∉ items.*1 → child_text t e' = child_text t e0).
Proof.
  intros steps items r out.
  apply (update_config_section_reads_back steps items r out).
  - reflexivity.
  - reflexivity.
  - apply (bool_decide_unpack _). by vm_compute.
Defined.

End sections.

(** ** List values *)

Section list_values.

Lemma apply_update_list_eval t entries p r out e :
  get_at p r = Some e →
  ConfigSection.apply_update t (SList entries) p (State r out)
  = Return tt (State (modify_at (set_list t entries) p r) out).
Proof.
  intros He. cbn [ConfigSection.apply_update].
  unfold bind at 1, find_or_create, bind at 1, get_root. cbn [root]. rewrite He.
  destruct (find t e) as [[i c]|] eqn:Hfind.
  - unfold ret. pose proof (find_lookup _ _ _ _ Hfind) as [Hi _].
    assert (get_at (p ++ [i]) r = Some c) as Hc by (rewrite get_at_snoc, He; exact Hi).
    unfold bind at 1, update_root. cbn [root stdout].
    rewrite (for_each_leaves_at _ _ _ _ (clear c)) by by apply get_at_modify_at.
    rewrite modify_at_compose, modify_at_app. do 2 f_equal.
    apply modify_at_ext. intros e' He'. assert (e' = e) as -> by congruence.
    unfold set_list. rewrite Hfind. cbn [modify_at]. f_equal.
    rewrite list_insert_alter. apply list_alter_ext; [|done].
    intros c' Hc'. assert (c' = c) as -> by congruence. reflexivity.
  - rewrite (SubElement_eval _ _ _ _ e) by done.
    unfold bind at 1, update_root. cbn [root stdout].
    rewrite (modify_new_child _ _ _ e) by done.
    change (clear (Elem t None [])) with (Elem t None []).
    rewrite (for_each_leaves_in_new entries p r out e) by done.
    do 2 f_equal. apply modify_at_ext. intros e' He'.
    assert (e' = e) as -> by congruence. unfold set_list. by rewrite Hfind.
Qed.

Lemma tag_set_list t entries e : tag (set_list t entries e) = tag e.
Proof. unfold set_list. by destruct (find t e) as [[i c]|]. Qed.

(** X20: an item of [update_config_section] with a plain key whose value
    is a list replaces
    the content of the first child named by its key in the section the
    path finds: that child ends up with no text and with exactly one leaf
    per entry of the list, whatever it held before.  When the section has
    no such child, one is appended.  The other children, the tag and the
    text of the section and the rest of the document stay as they were. *)
Theorem update_config_section_replaces_list steps t entries r out p e :
  plain_path steps = true → plain_tag t = true →
  find_by_path steps r = Some (p, e) →
  ∃ e',
    update_config_section steps [(t, SList entries)] (State r out)
    = Return tt (State (modify_at (fun _ => e') p r) out)
    ∧ find_by_path steps (modify_at (fun _ => e') p r) = Some (p, e')
    ∧ tag e' = tag e ∧ text e' = text e
    ∧ (∀ i c, find t e = Some (i, c) →
         children e' = <[i := Elem t None (leaves entries)]> (children e))
    ∧ (find t e = None → children e' = children e ++ [Elem t None (leaves entries)])
    ∧ (∃ i, find t e' = Some (i, Elem t None (leaves entries))).
Proof.
  intros _ _ Hfind.
  destruct (find_by_path_modify (set_list t entries) steps r p e Hfind
              (tag_set_list _ _ _)) as [Hget Hagain].
  exists (set_list t entries e).
  rewrite <- (replace_at (set_list t entries)) by done.
  split.
  { rewrite (update_config_section_found _ _ _ _ p e) by done.
    unfold ConfigSection.apply_updates. cbn [for_each fst snd]. unfold bind at 1.
    by rewrite (apply_update_list_eval _ _ _ _ _ e). }
  split; [done|]. split; [apply tag_set_list|]. unfold set_list.
  destruct (find t e) as [[i c]|] eqn:Ht.
  - pose proof (find_spec _ _ _ _ Ht) as (pre & rest & Hcs & -> & Hpre & Hc).
    assert (tag c = t) as Htag by by apply String.eqb_eq.
    rewrite Htag. split; [done|]. split; [by intros i' c' [= <- <-]|].
    split; [done|]. exists (length pre). rewrite Hcs, list_insert_alter, alter_middle.
    unfold find, findall. cbn [children].
    rewrite children_from_app, children_from_none by done.
    cbn [app children_from]. unfold has_tag. cbn [tag]. by rewrite String.eqb_refl.
  - split; [done|]. split; [done|]. split; [done|].
    exists (length (children e)). apply find_absent in Ht.
    unfold find, findall, extend. cbn [children].
    rewrite children_from_app, children_from_none by done.
    cbn [app children_from]. unfold has_tag. cbn [tag]. by rewrite String.eqb_refl.
Qed.

Lemma update_config_section_replaces_list_witness :
  let steps := ["ossec_config"; "ruleset"] in
  let t := "decoders" in
  let entries := [("decoder_dir", "ruleset/decoders"); ("decoder_dir", "etc/decoders")] in
  let e := Elem "ruleset" None
             [Elem "decoders" (Some "old") [leaf "decoder_dir" "legacy"]] in
  let r := Elem "root" None [Elem "ossec_config" None [e]] in
  let out := @nil string in
  let p := [0; 0]%nat in
  ∃ e',
    update_config_section steps [(t, SList entries)] (State r out)
    = Return tt (State (modify_at (fun _ => e') p r) out)
    ∧ find_by_path steps (modify_at (fun _ => e') p r) = Some (p, e')
    ∧ tag e' = tag e ∧ text e' = text e
    ∧ (∀ i c, find t e = Some (i, c) →
         children e' = <[i := Elem t None (leaves entries)]> (children e))
    ∧ (find t e = None → children e' = children e ++ [Elem t None (leaves entries)])
    ∧ (∃ i, find t e' = Some (i, Elem t None (leaves entries))).
Proof.
  intros steps t entries e r out p.
  apply (update_config_section_replaces_list steps t entries r out p e); reflexivity.
Defined.

End list_values.

(** ** Adding a section *)

Section adding.

Lemma section_value_ind' (P : section_value → Prop) :
  (∀ v, P (SText v)) →
  (∀ items, Forall (fun item : string * section_value => P item.2) items → P (SDict items)) →
  (∀ entries, P (SList entries)) →
  ∀ value, P value.
Proof.
  intros Htext Hdict Hlist. fix IH 1. intros [v|items|entries]; [apply Htext| |apply Hlist].
  apply Hdict. induction items as [|item items IHitems]; constructor; [apply IH|apply IHitems].
Qed.

Lemma create_item_eval value : ∀ t p r out e,
  get_at p r = Some e →
  ConfigSection.create_item t value p (State r out)
  = Return tt (State (modify_at (extend [built t value]) p r) out).
Proof.
  induction value as [v|items IH|entries] using section_value_ind'; intros t p r out e He.
  - cbn [ConfigSection.create_item built]. unfold bind at 1.
    rewrite (SubElement_eval _ _ _ _ e) by done.
    unfold assign_text, update_root. cbn [root stdout].
    by rewrite (modify_new_child _ _ _ e).
  - cbn [ConfigSection.create_item built]. unfold bind at 1.
    rewrite (SubElement_eval _ _ _ _ e) by done.
    fold (built_all items).
    assert (∀ n,
      (fix loop (l : list (string * section_value)) : M unit :=
         match l with
         | [] => ret tt
         | item :: l' =>
             bind (ConfigSection.create_item item.1 item.2 (p ++ [length (children e)]))
                  (fun _ => loop l')
         end) items (State (modify_at (extend [n]) p r) out)
      = Return tt (State (modify_at (extend [extend (built_all items) n]) p r) out))
      as Hloop.
    { induction IH as [|[t0 v0] items Hitem _ IHitems]; intros n.
      - unfold ret. cbn [built_all map]. by rewrite extend_nil.
      - unfold bind at 1. cbn [fst snd] in Hitem |- *.
        rewrite (Hitem _ _ _ _ n) by by apply get_new_child.
        rewrite (modify_new_child _ _ _ e) by done.
        rewrite IHitems, extend_extend. reflexivity. }
    rewrite Hloop. reflexivity.
  - cbn [ConfigSection.create_item built]. unfold bind at 1.
    rewrite (SubElement_eval _ _ _ _ e) by done.
    rewrite (for_each_leaves_in_new entries p r out e) by done. reflexivity.
Qed.

Lemma create_section_eval section p : ∀ r out e,
  get_at p r = Some e →
  ConfigSection.create_section p section (State r out)
  = Return tt (State (modify_at (extend (built_all section)) p r) out).
Proof.
  unfold ConfigSection.create_section.
  induction section as [|[t value] section IH]; intros r out e He.
  - cbn [for_each built_all map]. unfold ret. rewrite modify_at_id; [done|apply extend_nil].
  - cbn [for_each fst snd]. unfold bind at 1.
    rewrite (create_item_eval _ _ _ _ _ e) by done.
    rewrite (IH _ _ (extend [built t value] e)) by by apply get_at_modify_at.
    rewrite modify_at_compose. do 2 f_equal. apply modify_at_ext.
    intros e' _. unfold compose. by rewrite extend_extend.
Qed.

(** X19: [add_config_section] appends one new element per item of its
    mapping, in the order of the mapping, to the first section the path
    finds, or to the new empty section it creates when the path finds
    none: a leaf for a text, an element with one leaf per entry for a
    list, an element built the same way for a nested mapping.  It never
    writes into a child that exists: the child found first under a key
    before is still the first one under that key.  Nothing is printed. *)
Theorem add_config_section_appends steps new_section r out :
  plain_path steps = true →
  ∃ r' p e',
    add_config_section steps new_section (State r out) = Return tt (State r' out)
    ∧ find_by_path steps r' = Some (p, e')
    ∧ (∀ p0 e0, find_by_path steps r = Some (p0, e0) →
         p = p0 ∧ r' = modify_at (fun _ => e') p0 r
         ∧ e' = extend (built_all new_section) e0
         ∧ ∀ t x, find t e0 = Some x → find t e' = Some x)
    ∧ (find_by_path steps r = None →
         children e' = built_all new_section ∧ text e' = None).
Proof.
  intros Hsteps%plain_path_steps.
  destruct (find_by_path steps r) as [[p0 e0]|] eqn:Hfind.
  - destruct (find_by_path_modify (extend (built_all new_section)) steps r p0 e0
                Hfind eq_refl) as [Hget Hagain].
    exists (modify_at (extend (built_all new_section)) p0 r), p0,
           (extend (built_all new_section) e0).
    split; [rewrite (add_config_section_found _ _ _ _ p0 e0) by done;
            by apply (create_section_eval _ _ _ _ e0)|].
    split; [done|]. split; [|done]. intros p e [= <- <-].
    split; [done|]. split; [by apply replace_at|]. split; [done|].
    intros t x. apply find_extend.
  - destruct (ensure_path_found steps r out Hsteps Hfind)
      as (p & r1 & n & Hrun & Hfound & Hkids & Htext).
    destruct (find_by_path_modify (extend (built_all new_section)) steps r1 p n
                Hfound eq_refl) as [Hget Hagain].
    exists (modify_at (extend (built_all new_section)) p r1), p,
           (extend (built_all new_section) n).
    split; [rewrite add_config_section_missing by done;
            unfold bind at 1; rewrite Hrun;
            by apply (create_section_eval _ _ _ _ n)|].
    split; [done|]. split; [by intros p0 e0 [=]|]. intros _.
    unfold extend. cbn [children text]. by rewrite Hkids.
Qed.

Lemma add_config_section_appends_witness :
  let steps := ["ossec_config"; "global"] in
  let new_section :=
    [("email_notification", SText "yes");
     ("white_list", SList [("ip", "127.0.0.1"); ("ip", "10.0.0.2")]);
     ("smtp", SDict [("server", SText "mail.example")])] in
  let r := empty_document in
  let out := @nil string in
  ∃ r' p e',
    add_config_section steps new_section (State r out) = Return tt (State r' out)
    ∧ find_by_path steps r' = Some (p, e')
    ∧ (∀ p0 e0, find_by_path steps r = Some (p0, e0) →
         p = p0 ∧ r' = modify_at (fun _ => e') p0 r
         ∧ e' = extend (built_all new_section) e0
         ∧ ∀ t x, find t e0 = Some x → find t e' = Some x)
    ∧ (find_by_path steps r = None →
         children e' = built_all new_section ∧ text e' = None).
Proof.
  intros steps new_section r out.
  apply (add_config_section_appends steps new_section r out). reflexivity.
Defined.

End adding.

(** ** Nested mappings *)

Section nested_mappings.

Lemma apply_update_nested_loop child items : ∀ st,
  (fix loop (l : list (string * section_value)) : M unit :=
     match l with
     | [] => ret tt
     | item :: l' =>
         bind (ConfigSection.apply_update item.1 item.2 child) (fun _ => loop l')
     end) (texts items) st
  = for_each items (fun item => write_child child item.1 (id item.2)) st.
Proof.
  induction items as [|[t v] items IH]; intros st; [done|].
  cbn [texts map for_each fst snd]. unfold bind. rewrite apply_update_text.
  unfold id at 1. destruct (write_child child t v st); [apply IH|done].
Qed.

Lemma apply_update_nested_eval t items p r out e :
  get_at p r = Some e →
  ConfigSection.apply_update t (SDict (texts items)) p (State r out)
  = Return tt (State (modify_at (set_nested t items) p r) out).
Proof.
  intros He. cbn [ConfigSection.apply_update].
  unfold bind at 1, find_or_create, bind at 1, get_root. cbn [root]. rewrite He.
  destruct (find t e) as [[i c]|] eqn:Hfind.
  - unfold ret. pose proof (find_lookup _ _ _ _ Hfind) as [Hi _].
    assert (get_at (p ++ [i]) r = Some c) as Hc by (rewrite get_at_snoc, He; exact Hi).
    rewrite apply_update_nested_loop, (for_each_write id items _ r out c) by done.
    rewrite map_pair_id, modify_at_app. do 2 f_equal.
    apply modify_at_ext. intros e' He'. assert (e' = e) as -> by congruence.
    unfold set_nested. rewrite Hfind. cbn [modify_at]. f_equal.
    rewrite list_insert_alter. apply list_alter_ext; [|done].
    intros c' Hc'. assert (c' = c) as -> by congruence. reflexivity.
  - rewrite (SubElement_eval _ _ _ _ e) by done.
    rewrite apply_update_nested_loop.
    rewrite (for_each_write id items _ _ out (Elem t None []))
      by by apply get_new_child.
    rewrite map_pair_id, (modify_new_child _ _ _ e) by done.
    do 2 f_equal. apply modify_at_ext. intros e' He'.
    assert (e' = e) as -> by congruence. unfold set_nested. by rewrite Hfind.
Qed.

Lemma tag_set_nested t items e : tag (set_nested t items e) = tag e.
Proof. unfold set_nested. by destruct (find t e) as [[i c]|]. Qed.

(** X21: an item of [update_config_section] with a plain key whose value
    is a mapping of texts under plain, distinct keys is merged into the first child named by its key in the section
    the path finds: that child keeps its tag and what it reads under the
    other keys, and reads each text given under its key.  When the
    section has no such child, one is appended.  The other children of the
    section and the rest of the document stay as they were. *)
Theorem update_config_section_merges_mapping steps t items r out p e :
  plain_path steps = true → plain_tag t = true → plain_keys items = true →
  NoDup items.*1 →
  find_by_path steps r = Some (p, e) →
  ∃ e' i c',
    update_config_section steps [(t, SDict (texts items))] (State r out)
    = Return tt (State (modify_at (fun _ => e') p r) out)
    ∧ find_by_path steps (modify_at (fun _ => e') p r) = Some (p, e')
    ∧ tag e' = tag e ∧ text e' = text e
    ∧ find t e' = Some (i, c') ∧ tag c' = t
    ∧ (∀ k v, (k, v) ∈ items → child_text k c' = Some v)
    ∧ (∀ j c, find t e = Some (j, c) →
         j = i ∧ children e' = <[i := c']> (children e)
         ∧ ∀ k, k ∉ items.*1 → child_text k c' = child_text k c)
    ∧ (find t e = None → children e' = children e ++ [c']).
Proof.
  intros _ _ _ Hnd Hfind.
  destruct (find_by_path_modify (set_nested t items) steps r p e Hfind
              (tag_set_nested _ _ _)) as [Hget Hagain].
  assert (update_config_section steps [(t, SDict (texts items))] (State r out)
          = Return tt (State (modify_at (set_nested t items) p r) out)) as Hrun.
  { rewrite (update_config_section_found _ _ _ _ p e) by done.
    unfold ConfigSection.apply_updates. cbn [for_each fst snd]. unfold bind at 1.
    by rewrite (apply_update_nested_eval _ _ _ _ _ e). }
  rewrite (replace_at (set_nested t items) p r e) in Hrun, Hagain by done.
  unfold set_nested in Hrun, Hagain.
  destruct (find t e) as [[j c]|] eqn:Ht.
  - pose proof (find_spec _ _ _ _ Ht) as (pre & rest & Hcs & -> & Hpre & Hc).
    destruct (set_children_reads_back items c Hnd) as (Htag & Hback & Hother).
    eexists _, (length pre), (set_children items c).
    split; [exact Hrun|]. split; [exact Hagain|]. split; [done|]. split; [done|].
    split.
    { unfold find, findall. cbn [children].
      rewrite Hcs, list_insert_alter, alter_middle.
      rewrite children_from_app, children_from_none by done.
      cbn [app children_from]. unfold has_tag in *. by rewrite Htag, Hc. }
    split; [rewrite Htag; by apply String.eqb_eq|]. split; [done|].
    split; [|done]. by intros j' c0 [= <- <-].
  - pose proof (find_absent _ _ Ht) as Hnone.
    destruct (set_children_reads_back items (Elem t None []) Hnd)
      as (Htag & Hback & Hother).
    eexists _, (length (children e)), (set_children items (Elem t None [])).
    split; [exact Hrun|]. split; [exact Hagain|]. split; [done|]. split; [done|].
    split.
    { unfold find, findall, extend. cbn [children].
      rewrite children_from_app, children_from_none by done.
      cbn [app children_from]. unfold has_tag. rewrite Htag. cbn [tag].
      by rewrite String.eqb_refl. }
    split; [done|]. split; [done|]. split; [|done]. by intros j c [=].
Qed.

Lemma update_config_section_merges_mapping_witness :
  let steps := ["ossec_config"; "syscheck"] in
  let t := "synchronization" in
  let items := [("enabled", "yes"); ("interval", "5m")] in
  let e := Elem "syscheck" None
             [leaf "disabled" "no";
              Elem "synchronization" None [leaf "enabled" "no"; leaf "max_eps" "10"]] in
  let r := Elem "root" None [Elem "ossec_config" None [e]] in
  let out := @nil string in
  let p := [0; 0]%nat in
  ∃ e' i c',
    update_config_section steps [(t, SDict (texts items))] (State r out)
    = Return tt (State (modify_at (fun _ => e') p r) out)
    ∧ find_by_path steps (modify_at (fun _ => e') p r) = Some (p, e')
    ∧ tag e' = tag e ∧ text e' = text e
    ∧ find t e' = Some (i, c') ∧ tag c' = t
    ∧ (∀ k v, (k, v) ∈ items → child_text k c' = Some v)
    ∧ (∀ j c, find t e = Some (j, c) →
         j = i ∧ children e' = <[i := c']> (children e)
         ∧ ∀ k, k ∉ items.*1 → child_text k c' = child_text k c)
    ∧ (find t e = None → children e' = children e ++ [c']).
Proof.
  intros steps t items e r out p.
  apply (update_config_section_merges_mapping steps t items r out p e).
  - reflexivity.
  - reflexivity.
  - reflexivity.
  - apply (bool_decide_unpack _). by vm_compute.
  - reflexivity.
Defined.

End nested_mappings.

(** ** Repeated active responses *)

Section repeated.

Lemma active_response_exists_spec command st :
  ∃ b, active_response_exists command st = Return b st
       ∧ (b = true ↔ has_active_response (root st) (Some command)).
Proof.
  unfold active_response_exists, bind, get_root, has_active_response.
  destruct (List.find _ _) as [[p ar]|] eqn:Hfind.
  - exists true. split; [done|]. split; [|done]. intros _.
    apply list_find_some_elem in Hfind as [? ?]. by exists p, ar.
  - exists false. split; [done|]. split; [done|]. intros (p & ar & Hin & Har).
    pose proof (list_find_none_elem _ _ Hfind (p, ar) Hin) as Hn.
    simpl in Hn. congruence.
Qed.

Lemma response_node_command command location level timeout agent_id rules_group rules_id :
  child_text_is "command" (Some command)
    (active_response_node command location level timeout agent_id rules_group rules_id)
  = true.
Proof.
  unfold child_text_is.
  assert (find "command" (active_response_node command location level timeout
                            agent_id rules_group rules_id)
          = Some (0%nat, leaf "command" command)) as -> by reflexivity.
  by apply bool_decide_true.
Qed.

(** X22: [add_active_response] never looks for an active response that is
    already there.  After a call that returned [True],
    [active_response_exists] answers [True] for the command, and a second
    call with the same arguments returns [True] again: the container then
    ends with two equal active-response elements. *)
Theorem add_active_response_repeats
    command location level timeout agent_id rules_group rules_id r out s1 :
  add_active_response command location level timeout agent_id rules_group rules_id
    (State r out) = Return true s1 →
  ∃ s2 i,
    active_response_exists command s1 = Return true s1
    ∧ add_active_response command location level timeout agent_id rules_group rules_id s1
      = Return true s2
    ∧ root s2
      = modify_at
          (extend [active_response_node command location level timeout
                     agent_id rules_group rules_id;
                   active_response_node command location level timeout
                     agent_id rules_group rules_id]) [i] r
    ∧ active_response_exists command s2 = Return true s2.
Proof.
  intros (i & oc & Hfind & Hok & ->)%add_active_response_true_inv.
  pose proof (find_lookup _ _ _ _ Hfind) as [Hi Hoc].
  set (node := active_response_node command location level timeout
                 agent_id rules_group rules_id) in *.
  assert (∀ r0 j oc0, children r0 !! j = Some oc0 → has_tag "ossec_config" oc0 = true →
            has_active_response (modify_at (append node) [j] r0) (Some command))
    as Hthere.
  { intros r0 j oc0 Hj Hoc0.
    destruct (findall_desc_append "active-response" r0 j oc0 node Hj)
      as (before & after & _ & Hr'); [by apply container_not_named|].
    exists [j; length (children oc0)], node. split; [|apply response_node_command].
    change (append node) with (extend [node]). rewrite Hr'. unfold node.
    rewrite brought_in_response by by left. cbn [String.eqb].
    apply elem_of_app. right. apply elem_of_app. left. apply list_elem_of_here. }
  assert (∀ st, has_active_response (root st) (Some command) →
                active_response_exists command st = Return true st) as Hyes.
  { intros st Hhas. destruct (active_response_exists_spec command st) as ([|] & Hrun & Hb);
      [done|]. apply Hb in Hhas. done. }
  pose proof (find_after_modify "ossec_config" (append node) r i oc Hfind eq_refl) as Hfind1.
  pose proof (find_lookup _ _ _ _ Hfind1) as [Hi1 Hoc1].
  eexists _, i. split; [apply Hyes; cbn [root]; by apply (Hthere r i oc)|].
  split.
  { apply add_active_response_accepted with (oc := append node oc); [|exact Hfind1].
    intros Hrej. apply Hok. destruct Hrej as [Hrej|Hrej]; [left|by right].
    intros Hnames. apply Hrej. change (append node) with (extend [node]).
    apply (names_command_append r i oc node); [done..|]. by left. }
  split.
  { cbn [root]. rewrite modify_at_compose. apply modify_at_ext. intros e _.
    unfold compose. by rewrite !append_extend, extend_extend. }
  apply Hyes. cbn [root]. by apply (Hthere _ i (append node oc)).
Qed.

Lemma add_active_response_repeats_witness :
  let r := host_deny_document in
  let out := @nil string in
  let s1 :=
    State (modify_at (append (active_response_node "host-deny" "local" (Some 7) None
                                None None None)) [0%nat] r)
          (out ++ ["New active response for command 'host-deny' has been added."]) in
  ∃ s2 i,
    active_response_exists "host-deny" s1 = Return true s1
    ∧ add_active_response "host-deny" "local" (Some 7) None None None None s1
      = Return true s2
    ∧ root s2
      = modify_at
          (extend [active_response_node "host-deny" "local" (Some 7) None None None None;
                   active_response_node "host-deny" "local" (Some 7) None None None None])
          [i] r
    ∧ active_response_exists "host-deny" s2 = Return true s2.
Proof.
  intros r out s1.
  apply (add_active_response_repeats "host-deny" "local" (Some 7) None None None None
           r out s1).
  reflexivity.
Defined.

End repeated.

(** ** Where references are checked *)

Section reference_checks.

Lemma add_active_response_unknown_command
    command location level timeout agent_id rules_group rules_id r out :
  ¬ names_command r (Some command) →
  add_active_response command location level timeout agent_id rules_group rules_id
    (State r out)
  = Return false (State r (out ++ ["Command '" +:+ command +:+ "' does not exist."])).
Proof.
  intros Hn. unfold add_active_response, bind at 1.
  rewrite command_exists_false by done. reflexivity.
Qed.

(** C3 as worded fails: the construction is not the only point at which
    a reference is checked.  [add_active_response] looks the command up
    and refuses one that does not exist. *)
Lemma add_active_response_checks_command :
  ¬ names_command empty_document (Some "ghost")
  ∧ add_active_response "ghost" "local" None None None None None (State empty_document [])
    = Return false (State empty_document ["Command 'ghost' does not exist."])
  ∧ ¬ checked_only_at_construction_as_worded.
Proof.
  assert (¬ names_command empty_document (Some "ghost")) as Hn.
  { intros H. apply (command_exists_true _ (State empty_document [])) in H. done. }
  split; [done|]. split; [reflexivity|]. intros Hworded.
  apply (Hworded (Add_active_response "ghost" "local" None None None None None)
           (State empty_document []) "ghost" Hn).
  reflexivity.
Qed.

(** A call that first makes sure of its command and then adds the active
    response keeps the document checked. *)
Lemma ensured_add_keeps name executable timeout_allowed
    location level timeout agent_id rules_group rules_id st b s' :
  (∀ c, ¬ dangling (root st) c) →
  (known ← command_exists (Some name);
   (if negb known then _ ← add_command name executable timeout_allowed; ret tt
    else ret tt);;
   add_active_response name location level timeout agent_id rules_group rules_id) st
  = Return b s' →
  ∀ c, ¬ dangling (root s') c.
Proof.
  intros Hchecked (known & st1 & Hknown & Hrest)%bind_return_inv.
  destruct (command_exists_spec (Some name) st) as (known' & Hsame & _).
  rewrite Hsame in Hknown. injection Hknown as -> ->.
  apply bind_return_inv in Hrest as ([] & st2 & Hensure & Hadd).
  eapply add_active_response_keeps; [|exact Hadd].
  destruct known; cbn [negb] in Hensure.
  - by injection Hensure as <-.
  - apply bind_return_inv in Hensure as (a & st3 & Hcmd & Hret).
    injection Hret as <-. by eapply add_command_keeps.
Qed.

(** C3, amended: constructing the manager over a document in which the
    command field of some active response names no command raises the
    error that names such a field; when every command field names a
    command the construction returns.  The construction is not the only
    point at which a reference is checked: [add_active_response] refuses
    a command that does not exist, and the calls that add an element,
    which are [add_command], [add_active_response] and the three
    constructors built on them, keep a checked document checked.  The
    calls that update or remove check nothing of the kind:
    [update_command], [remove_command], [update_active_response] and
    [remove_active_response] can each return [True] and leave a document
    that the check of the constructor rejects. *)
Theorem construction_checks_references r out :
  ((∃ c, dangling r c) →
     ∃ c s, dangling r c ∧ init (State r out) = Raise (unknown_command_error c) s)
  ∧ ((∀ c, ¬ dangling r c) → ∃ s, init (State r out) = Return tt s)
  ∧ (∀ command location level timeout agent_id rules_group rules_id,
       ¬ names_command r (Some command) →
       add_active_response command location level timeout agent_id rules_group rules_id
         (State r out)
       = Return false
           (State r (out ++ ["Command '" +:+ command +:+ "' does not exist."])))
  ∧ (∀ m b s', adds m = true → (∀ c, ¬ dangling r c) →
       call m (State r out) = Return b s' → ∀ c, ¬ dangling (root s') c)
  ∧ (∃ name updates, breaks (Update_command name updates))
  ∧ (∃ name, breaks (Remove_command name))
  ∧ (∃ command updates, breaks (Update_active_response command updates))
  ∧ (∃ command, breaks (Remove_active_response command)).
Proof.
  split_and!.
  - intros [c0 Hc0].
    destruct (init_spec r out) as (r' & out' & _ & [[Hnone _]|(c & Hc & Hrun)]).
    + by destruct (Hnone c0).
    + by exists c, (State r' out').
  - intros Hnone.
    destruct (init_spec r out) as (r' & out' & _ & [[_ Hrun]|(c & Hc & _)]).
    + by eexists.
    + by destruct (Hnone c).
  - intros command location level timeout agent_id rules_group rules_id.
    apply add_active_response_unknown_command.
  - intros m b s' Hadds Hchecked Hrun. destruct m; try done; cbn [call] in Hrun.
    + by eapply (add_command_keeps _ _ _ (State r out)).
    + by eapply (add_active_response_keeps _ _ _ _ _ _ _ (State r out)).
    + by eapply (ensured_add_keeps _ _ _ _ _ _ _ _ _ (State r out)).
    + by eapply (ensured_add_keeps _ _ _ _ _ _ _ _ _ (State r out)).
    + by eapply (ensured_add_keeps _ _ _ _ _ _ _ _ _ (State r out)).
  - exists "host-deny", [("name", VStr "renamed")].
    exists (State guarded_document []). eexists _, _. split_and!; reflexivity.
  - exists "host-deny".
    exists (State (Elem "root" None
                     [command_node "host-deny" "host-deny" true;
                      Elem "ossec_config" None
                        [active_response_node "host-deny" "local" None None None None None]])
                  []).
    eexists _, _. split_and!; reflexivity.
  - exists "host-deny", [("command", VStr "gone")].
    exists (State guarded_document []). eexists _, _. split_and!; reflexivity.
  - exists "host-deny".
    exists (State (Elem "root" None
                     [Elem "active-response" None
                        [leaf "command" "host-deny";
                         Elem "command" None [leaf "name" "restart-ossec"]];
                      Elem "ossec_config" None
                        [command_node "host-deny" "host-deny" true;
                         active_response_node "restart-ossec" "local"
                           None None None None None]])
                  []).
    eexists _, _. split_and!; reflexivity.
Qed.

End reference_checks.
